(** * Session coordinator of the computer-use backend

    A shallow embedding of [backend/app/db.py], [backend/app/agent_runner.py]
    and the session routes of [backend/app/api.py], followed by the
    properties of the per-session coordinator (turn lock, event queue,
    message persistence, registry).

    Coroutines are state transformers in a small state-and-exception monad:
    a definition gives what a call does when nothing else runs before it
    ends.  [asyncio.create_task] only schedules; what the other tasks do
    while a turn is suspended is a parameter of the turn ([Others]); and
    the interleaving of [run_once] tasks on one coordinator is a labelled
    step relation over the same definitions. *)

From stdpp Require Import base option strings list gmap sorting.
From Stdlib Require Import ZArith Lia.

Set Warnings "-register-all".

Local Open Scope Z_scope.
Local Open Scope string_scope.
Local Open Scope list_scope.

(** ** Python values *)

(** The JSON-shaped values the code passes around: message dicts, content
    blocks, event payloads.  A [dict] keeps its insertion order, hence the
    association list. *)
Inductive json : Type :=
| JNull
| JBool (b : bool)
| JInt (n : Z)
| JStr (s : string)
| JList (xs : list json)
| JDict (kvs : list (string * json)).

(** Exceptions that can travel through the coordinator. *)
Inductive exn : Type :=
| AssertionError
| IntegrityError (table : string)
| KeyError (key : string)
| TypeError
| RuntimeError (msg : string)
| ArgumentError (msg : string)
| OperationalError (msg : string)
| ValidationError
| HTTPException (status : Z) (detail : string)
| ExecutorError (what : string).

(** How a coroutine call ends: it returns, it raises, or it stays parked on
    an [await] that the current state cannot complete. *)
Inductive outcome (A : Type) : Type :=
| Ok (a : A)
| Raised (e : exn)
| Suspended.
Arguments Ok {A} a.
Arguments Raised {A} e.
Arguments Suspended {A}.

(** [d[k]] on a dict. *)
Fixpoint dict_get (k : string) (kvs : list (string * json)) : option json :=
  match kvs with
  | [] => None
  | (k', v) :: rest => if String.eqb k k' then Some v else dict_get k rest
  end.

(** [d[k] = v]: an existing key keeps its position, a new one goes last. *)
Fixpoint dict_set (k : string) (v : json) (kvs : list (string * json))
  : list (string * json) :=
  match kvs with
  | [] => [(k, v)]
  | (k', v') :: rest =>
      if String.eqb k k' then (k', v) :: rest else (k', v') :: dict_set k v rest
  end.

(** [{**base, **extra}]. *)
Definition dict_update (base extra : list (string * json)) : list (string * json) :=
  fold_left (fun acc kv => dict_set (fst kv) (snd kv) acc) extra base.

(** [x[k]] for an arbitrary value: only a dict can be subscripted by a key. *)
Definition getitem (x : json) (k : string) : exn + json :=
  match x with
  | JDict kvs =>
      match dict_get k kvs with
      | Some v => inr v
      | None => inl (KeyError k)
      end
  | _ => inl TypeError
  end.

Definition json_of_opt_str (o : option string) : json :=
  match o with
  | Some s => JStr s
  | None => JNull
  end.

(** [v == "..."] against a string literal. *)
Definition is_str (v : json) (s : string) : bool :=
  match v with
  | JStr s' => String.eqb s' s
  | _ => false
  end.

(** ** The coroutine monad *)

Definition M (S A : Type) : Type := S -> outcome A * S.

Definition ret {S A} (a : A) : M S A := fun s => (Ok a, s).

Definition bind {S A B} (m : M S A) (k : A -> M S B) : M S B :=
  fun s =>
    match m s with
    | (Ok a, s') => k a s'
    | (Raised e, s') => (Raised e, s')
    | (Suspended, s') => (Suspended, s')
    end.

Definition raise {S A} (e : exn) : M S A := fun s => (Raised e, s).
Definition gets {S A} (f : S -> A) : M S A := fun s => (Ok (f s), s).
Definition modify {S} (f : S -> S) : M S unit := fun s => (Ok tt, f s).

(** Run a computation on a component of the state. *)
Definition zoom {S T A} (get : S -> T) (set : T -> S -> S) (m : M T A) : M S A :=
  fun s => let '(r, t) := m (get s) in (r, set t s).

(** [x ← m; k] awaits [m] and goes on with [k]; [m ;; k] drops the value. *)
#[global] Instance M_ret {S} : MRet (M S) := fun A a => ret a.
#[global] Instance M_bind {S} : MBind (M S) := fun A B k m => bind m k.

(** ** Persistence: [app/db.py] *)

(** A row of [sessions_table]. *)
Record SessionRow := mkSessionRow {
  s_id : string;
  s_model : string;
  s_tool_version : string;
  s_system_prompt_suffix : string;
  s_created_at : Z;
  s_updated_at : Z
}.

(** A row of [messages_table]; [m_content] is the JSON column. *)
Record MessageRow := mkMessageRow {
  m_id : string;
  m_session_id : string;
  m_role : string;
  m_content : json;
  m_created_at : Z
}.

(** What [create_async_engine(url)] hands back, as far as the coordinator
    can tell: the database behind [url] either enforces the declared
    [ForeignKey("sessions.id")] or (SQLite without the pragma) does not. *)
Record AsyncEngine := mkEngine {
  engine_url : string;
  enforces_foreign_keys : bool
}.

(** The module globals of [db.py], the two tables behind them, and the
    wall clock read by [datetime.utcnow()]: [clock] lists every reading the
    process will ever get, [clock_reads] counts those already taken. *)
Record Backend := mkBackend {
  AsyncSessionLocal : option AsyncEngine;
  sessions_rows : list SessionRow;
  messages_rows : list MessageRow;
  clock : nat -> Z;
  clock_reads : nat
}.

Definition set_tables (ss : list SessionRow) (ms : list MessageRow) (b : Backend)
  : Backend :=
  mkBackend (AsyncSessionLocal b) ss ms (clock b) (clock_reads b).

(** [datetime.utcnow()] *)
Definition utcnow : M Backend Z :=
  fun b => (Ok (clock b (clock_reads b)),
            mkBackend (AsyncSessionLocal b) (sessions_rows b) (messages_rows b)
                      (clock b) (S (clock_reads b))).

(** [assert AsyncSessionLocal is not None] *)
Definition assert_session_local : M Backend AsyncEngine :=
  fun b => match AsyncSessionLocal b with
           | Some e => (Ok e, b)
           | None => (Raised AssertionError, b)
           end.

Definition has_session (sid : string) (ss : list SessionRow) : bool :=
  existsb (fun r => String.eqb (s_id r) sid) ss.

Definition has_message (mid : string) (ms : list MessageRow) : bool :=
  existsb (fun r => String.eqb (m_id r) mid) ms.

(** How the opening of the database goes when [init_engine] gets to it:
    [create_async_engine(url, ...)] raises (an unusable URL, a missing
    driver), or it hands back the engine and [metadata.create_all] then
    goes through or raises (the database cannot be reached). *)
Inductive Opening :=
| engine_refused (e : exn)
| engine_opened (engine : AsyncEngine) (create_all : option exn).

(** [init_engine]: does nothing once the engine exists.  Otherwise it
    opens the engine, binds both globals to it and only then creates the
    tables: when [create_async_engine] raises nothing is bound, when
    [create_all] raises the globals stay bound. *)
Definition init_engine (opened : Opening) : M Backend unit :=
  fun b => match AsyncSessionLocal b with
           | Some _ => (Ok tt, b)
           | None =>
               match opened with
               | engine_refused e => (Raised e, b)
               | engine_opened engine create_all =>
                   (match create_all with
                    | None => Ok tt
                    | Some e => Raised e
                    end,
                    mkBackend (Some engine) (sessions_rows b) (messages_rows b)
                              (clock b) (clock_reads b))
               end
           end.

(** [create_session]: one INSERT into [sessions]; [id] is the primary key. *)
Definition create_session (session_id model tool_version system_suffix : string)
  : M Backend unit :=
  assert_session_local ;;
  now ← utcnow;
  ss ← gets sessions_rows;
  if has_session session_id ss then raise (IntegrityError "sessions")
  else modify (fun b =>
         set_tables (ss ++ [mkSessionRow session_id model tool_version
                                         system_suffix now now])
                    (messages_rows b) b).

(** The UPDATE of [upsert_message]: every session row with this id. *)
Definition touch_session (session_id : string) (t : Z) (r : SessionRow) : SessionRow :=
  if String.eqb (s_id r) session_id
  then mkSessionRow (s_id r) (s_model r) (s_tool_version r)
                    (s_system_prompt_suffix r) (s_created_at r) t
  else r.

(** [upsert_message]: INSERT the message row, UPDATE the session's
    [updated_at], commit.  The INSERT is refused on a duplicate primary key
    and, where the database enforces it, on a dangling [session_id]; nothing
    is committed then. *)
Definition upsert_message (message_id session_id role : string) (content : json)
  : M Backend unit :=
  e ← assert_session_local;
  created ← utcnow;
  ss ← gets sessions_rows;
  ms ← gets messages_rows;
  if has_message message_id ms then raise (IntegrityError "messages")
  else if enforces_foreign_keys e && negb (has_session session_id ss)
  then raise (IntegrityError "messages")
  else
    updated ← utcnow;
    modify (set_tables
              (map (touch_session session_id updated) ss)
              (ms ++ [mkMessageRow message_id session_id role content created])).

(** *** [upsert_message] between its awaits

    A call of [upsert_message] is suspended on the INSERT, on the UPDATE
    and on the way out (the commit and the closing of the session; after a
    refused INSERT the closing alone), and other tasks run meanwhile.  A
    statement is taken to be settled when the call is resumed with its
    result.  The stretches of the call between those awaits: *)

(** up to the first await: the assertion, the session opened on the engine,
    and the INSERT statement, built with [created_at] read off the clock; *)
Definition upsert_message_begin (message_id session_id role : string) (content : json)
  : M Backend (AsyncEngine * MessageRow) :=
  e ← assert_session_local;
  created ← utcnow;
  ret (e, mkMessageRow message_id session_id role content created).

(** the INSERT settled, refused or done, and then the UPDATE statement,
    built with [updated_at] read off the clock; *)
Definition upsert_message_insert (e : AsyncEngine) (row : MessageRow) : M Backend Z :=
  ss ← gets sessions_rows;
  ms ← gets messages_rows;
  if has_message (m_id row) ms then raise (IntegrityError "messages")
  else if enforces_foreign_keys e && negb (has_session (m_session_id row) ss)
  then raise (IntegrityError "messages")
  else
    modify (set_tables ss (ms ++ [row])) ;;
    utcnow.

(** the UPDATE settled. *)
Definition upsert_message_update (session_id : string) (updated : Z) : M Backend unit :=
  ss ← gets sessions_rows;
  ms ← gets messages_rows;
  modify (set_tables (map (touch_session session_id updated) ss) ms).

(** [get_session] *)
Definition get_session (session_id : string) : M Backend (option SessionRow) :=
  assert_session_local ;;
  ss ← gets sessions_rows;
  ret (List.find (fun r => String.eqb (s_id r) session_id) ss).

(** [ORDER BY created_at ASC]; rows with equal stamps keep table order. *)
Fixpoint insert_by_created (r : MessageRow) (sorted : list MessageRow)
  : list MessageRow :=
  match sorted with
  | [] => [r]
  | r' :: rest =>
      if (m_created_at r' <=? m_created_at r)%Z
      then r' :: insert_by_created r rest
      else r :: r' :: rest
  end.

Definition order_by_created (rows : list MessageRow) : list MessageRow :=
  fold_left (fun acc r => insert_by_created r acc) rows [].

(** [get_messages] *)
Definition get_messages (session_id : string) : M Backend (list MessageRow) :=
  assert_session_local ;;
  ms ← gets messages_rows;
  ret (order_by_created
         (List.filter (fun r => String.eqb (m_session_id r) session_id) ms)).

(** ** The coordinator: [app/agent_runner.py] *)

(** [StreamEvent] *)
Record StreamEvent := mkEvent {
  event : string;
  data : json
}.

(** [asyncio.Queue]: [maxsize <= 0] means unbounded. *)
Record Queue := mkQueue {
  maxsize : nat;
  items : list StreamEvent
}.

Definition Queue_new : Queue := mkQueue 0 [].

Definition full (q : Queue) : bool :=
  match maxsize q with
  | O => false
  | S _ => (maxsize q <=? length (items q))%nat
  end.

(** [Queue.put]: parks while the queue is full, then appends. *)
Definition Queue_put (ev : StreamEvent) : M Queue unit :=
  fun q => if full q then (Suspended, q)
           else (Ok tt, mkQueue (maxsize q) (items q ++ [ev])).

(** [Queue.get]: parks while the queue is empty, then pops the oldest. *)
Definition Queue_get : M Queue StreamEvent :=
  fun q => match items q with
           | [] => (Suspended, q)
           | ev :: rest => (Ok ev, mkQueue (maxsize q) rest)
           end.

(** The future a parked [acquire] waits on, tagged with the parked task. *)
Record Future := mkFuture {
  fut_task : nat;
  fut_done : bool
}.

(** [asyncio.Lock] *)
Record Lock := mkLock {
  _locked : bool;
  _waiters : list Future
}.

Definition Lock_new : Lock := mkLock false [].

(** The fast path of [Lock.acquire]: free and nobody queued before us.
    (The library also takes it when every queued future is cancelled; no
    task is ever cancelled here, so a queued future is a waiting one.) *)
Definition Lock_try_acquire (l : Lock) : option Lock :=
  if negb (_locked l) && bool_decide (_waiters l = [])
  then Some (mkLock true (_waiters l))
  else None.

(** [_wake_up_first]: complete the oldest waiter's future. *)
Definition wake_up_first (ws : list Future) : list Future :=
  match ws with
  | [] => []
  | w :: rest => mkFuture (fut_task w) true :: rest
  end.

(** [Lock.release]: [None] stands for its [RuntimeError] on a free lock. *)
Definition Lock_release (l : Lock) : option Lock :=
  if _locked l then Some (mkLock false (wake_up_first (_waiters l)))
  else None.

(** Where the tool results come from.

    Modelled from the spec: the [ToolResult] of the tools package is not
    part of these sources; the callback reads its [output], [error] and
    [base64_image], each a string or [None]. *)
Record ToolResult := mkToolResult {
  output : option string;
  error : option string;
  base64_image : option string
}.

(** Modelled from the spec: the provider selector handed to the executor. *)
Inductive APIProvider := ANTHROPIC | BEDROCK | VERTEX.

(** [AgentSession] *)
Record AgentSession := mkAgentSession {
  session_id : string;
  model : string;
  tool_version : string;
  api_key : string;
  system_prompt_suffix : string;
  provider : APIProvider;
  messages : list json;
  queue : Queue;
  lock : Lock
}.

(** [AgentSession.__init__] *)
Definition AgentSession_init (session_id model tool_version api_key
                              system_prompt_suffix : string)
                             (provider : APIProvider) : AgentSession :=
  mkAgentSession session_id model tool_version api_key system_prompt_suffix
                 provider [] Queue_new Lock_new.

Definition set_messages (ms : list json) (a : AgentSession) : AgentSession :=
  mkAgentSession (session_id a) (model a) (tool_version a) (api_key a)
                 (system_prompt_suffix a) (provider a) ms (queue a) (lock a).

Definition set_queue (q : Queue) (a : AgentSession) : AgentSession :=
  mkAgentSession (session_id a) (model a) (tool_version a) (api_key a)
                 (system_prompt_suffix a) (provider a) (messages a) q (lock a).

Definition set_lock (l : Lock) (a : AgentSession) : AgentSession :=
  mkAgentSession (session_id a) (model a) (tool_version a) (api_key a)
                 (system_prompt_suffix a) (provider a) (messages a) (queue a) l.

(** A coroutine object made inside [run_once] by calling one of its three
    inner functions: [on_output(block)], [on_tool_output(result, tool_id)]
    or [on_api_response(req, res, err)], the last on what it reads off its
    arguments. *)
Inductive Coroutine :=
| on_output_coro (block : json)
| on_tool_output_coro (result : ToolResult) (tool_id : string)
| on_api_response_coro (req : string) (status_code : option Z) (err : option string).

(** What a method of one coordinator can see and change: the object itself,
    the database module, the source of [uuid.uuid4()] values ([uuid_src]
    lists every value the process will draw, [uuid_drawn] counts those
    already drawn), and the event loop as far as the coordinator uses it:
    [scheduled] holds the coroutines handed to [asyncio.create_task] that
    the loop has not started yet, oldest first. *)
Record State := mkState {
  self : AgentSession;
  backend : Backend;
  uuid_src : nat -> string;
  uuid_drawn : nat;
  scheduled : list Coroutine
}.

Definition set_self (a : AgentSession) (s : State) : State :=
  mkState a (backend s) (uuid_src s) (uuid_drawn s) (scheduled s).

Definition set_backend (b : Backend) (s : State) : State :=
  mkState (self s) b (uuid_src s) (uuid_drawn s) (scheduled s).

Definition set_scheduled (cs : list Coroutine) (s : State) : State :=
  mkState (self s) (backend s) (uuid_src s) (uuid_drawn s) cs.

(** [str(uuid.uuid4())] *)
Definition uuid4 : M State string :=
  fun s => (Ok (uuid_src s (uuid_drawn s)),
            mkState (self s) (backend s) (uuid_src s) (S (uuid_drawn s))
                    (scheduled s)).

(** A call into [db.py] from a method. *)
Definition db {A} (m : M Backend A) : M State A := zoom backend set_backend m.

(** [self.queue.put(...)] *)
Definition queue_put (ev : StreamEvent) : M State unit :=
  zoom (fun s => queue (self s)) (fun q s => set_self (set_queue q (self s)) s)
       (Queue_put ev).

(** [self.queue.get()] *)
Definition queue_get : M State StreamEvent :=
  zoom (fun s => queue (self s)) (fun q s => set_self (set_queue q (self s)) s)
       Queue_get.

(** [AgentSession._emit] *)
Definition _emit (event : string) (data : json) : M State unit :=
  queue_put (mkEvent event data).

(** The dict [add_user_message] builds. *)
Definition user_msg (message_id content : string) : json :=
  JDict [("id", JStr message_id);
         ("role", JStr "user");
         ("content", JList [JDict [("type", JStr "text"); ("text", JStr content)]])].

(** [AgentSession.add_user_message] *)
Definition add_user_message (content : string) : M State unit :=
  message_id ← uuid4;
  let msg := user_msg message_id content in
  modify (fun s => set_self (set_messages (messages (self s) ++ [msg]) (self s)) s) ;;
  sid ← gets (fun s => session_id (self s));
  db (upsert_message message_id sid "user" msg) ;;
  _emit "message" msg.

(** *** The callbacks of a turn *)

(** [on_output] *)
Definition on_output (block : json) : M State unit :=
  _emit "assistant_chunk" (JDict [("block", block)]).

(** [bool(result.base64_image)]: [None] and the empty string are falsy. *)
Definition has_image (r : ToolResult) : bool :=
  match base64_image r with
  | None => false
  | Some s => negb (String.eqb s "")
  end.

(** The [payload] dict of [on_tool_output]. *)
Definition tool_payload (result : ToolResult) (tool_id : string) : json :=
  JDict [("type", JStr "tool_result");
         ("tool_use_id", JStr tool_id);
         ("output", json_of_opt_str (output result));
         ("error", json_of_opt_str (error result));
         ("has_image", JBool (has_image result))].

(** The [tool_msg] dict of [on_tool_output]. *)
Definition tool_msg (message_id : string) (result : ToolResult) (tool_id : string)
  : json :=
  JDict [("id", JStr message_id);
         ("role", JStr "tool");
         ("content", JList [tool_payload result tool_id])].

(** [on_tool_output] *)
Definition on_tool_output (result : ToolResult) (tool_id : string) : M State unit :=
  message_id ← uuid4;
  let msg := tool_msg message_id result tool_id in
  sid ← gets (fun s => session_id (self s));
  db (upsert_message message_id sid "tool" msg) ;;
  _emit "message" msg.

(** [on_api_response], on what it reads off its arguments: [str(req)],
    [getattr(res, "status_code", None)], and [str(err)] when [err] is
    truthy. *)
Definition on_api_response (req : string) (status_code : option Z)
                           (err : option string) : M State unit :=
  _emit "http_exchange"
        (JDict [("request", JStr req);
                ("status", match status_code with
                           | Some c => JInt c
                           | None => JNull
                           end);
                ("error", json_of_opt_str err)]).

(** *** The turn executor *)

(** One callback invocation made by the executor. *)
Inductive Callback :=
| output_callback (block : json)
| tool_output_callback (result : ToolResult) (tool_id : string)
| api_response_callback (req : string) (status_code : option Z) (err : option string).

(** The keyword arguments of the [sampling_loop] call. *)
Record SamplingArgs := mkSamplingArgs {
  arg_system_prompt_suffix : string;
  arg_model : string;
  arg_provider : APIProvider;
  arg_messages : list json;
  arg_api_key : string;
  arg_tool_version : string;
  arg_max_tokens : Z
}.

(** What one [sampling_loop] call does, seen from the coordinator: the
    callbacks it invokes, in order, and the history it returns or the
    exception it raises. *)
Record Turn := mkTurn {
  turn_callbacks : list Callback;
  turn_result : exn + list json
}.

(** Modelled from the spec: [sampling_loop] (the TurnExecutor) lives in the
    [computer_use_demo] package, outside these sources; it is given the
    full history and the three callback channels, and returns the updated
    history. *)
Definition Executor : Type := SamplingArgs -> Turn.

(** [asyncio.create_task(coro)]: the coroutine is wrapped in a task and
    handed to the event loop; nothing of it runs before the creator reaches
    an [await] that suspends it, and the creator goes on at once. *)
Definition create_task (coro : Coroutine) : M State unit :=
  modify (fun s => set_scheduled (scheduled s ++ [coro]) s).

(** What the task of a coroutine runs. *)
Definition body_of (coro : Coroutine) : M State unit :=
  match coro with
  | on_output_coro block => on_output block
  | on_tool_output_coro result tool_id => on_tool_output result tool_id
  | on_api_response_coro req res err => on_api_response req res err
  end.

(** The coroutine each of the three lambdas handed to [sampling_loop]
    passes to [asyncio.create_task]. *)
Definition coroutine_of (c : Callback) : Coroutine :=
  match c with
  | output_callback block => on_output_coro block
  | tool_output_callback result tool_id => on_tool_output_coro result tool_id
  | api_response_callback req res err => on_api_response_coro req res err
  end.

(** The three lambdas handed to [sampling_loop]. *)
Definition dispatch (c : Callback) : M State unit :=
  create_task (coroutine_of c).

Fixpoint dispatch_all (cs : list Callback) : M State unit :=
  match cs with
  | [] => ret tt
  | c :: rest => dispatch c ;; dispatch_all rest
  end.

(** The arguments [run_once] passes, callbacks aside. *)
Definition sampling_args (a : AgentSession) : SamplingArgs :=
  mkSamplingArgs (system_prompt_suffix a) (model a) (provider a) (messages a)
                 (api_key a) (tool_version a) 4096.

(** [await sampling_loop(...)] with the coordinator's arguments. *)
Definition await_sampling_loop (sampling_loop : Executor) : M State (list json) :=
  a ← gets self;
  let t := sampling_loop (sampling_args a) in
  dispatch_all (turn_callbacks t) ;;
  match turn_result t with
  | inl e => raise e
  | inr new_messages => ret new_messages
  end.

(** [new_messages and new_messages[-1]["role"] == "assistant"] *)
Definition ends_with_assistant (new_messages : list json) : M State bool :=
  match last new_messages with
  | None => ret false
  | Some m =>
      match getitem m "role" with
      | inl e => raise e
      | inr role => ret (is_str role "assistant")
      end
  end.

(** [{"id": message_id, **assistant}] *)
Definition with_id (message_id : string) (assistant : json) : M State json :=
  match assistant with
  | JDict kvs => ret (JDict (dict_update [("id", JStr message_id)] kvs))
  | _ => raise TypeError
  end.

(** The body of [run_once], inside the lock. *)
Definition run_once_body (sampling_loop : Executor) : M State unit :=
  new_messages ← await_sampling_loop sampling_loop;
  persist ← ends_with_assistant new_messages;
  match persist, last new_messages return M State unit with
  | true, Some assistant =>
      message_id ← uuid4;
      sid ← gets (fun s => session_id (self s));
      db (upsert_message message_id sid "assistant" assistant) ;;
      ev ← with_id message_id assistant;
      _emit "message" ev
  | _, _ => ret tt
  end ;;
  modify (fun s => set_self (set_messages new_messages (self s)) s).

(** [async with self.lock:] for a caller that finds the lock free; the
    lock is released however [body] ends.  A caller that finds it taken
    parks in [acquire]. *)
Definition async_with_lock {A} (body : M State A) : M State A :=
  fun s =>
    match Lock_try_acquire (lock (self s)) with
    | None => (Suspended, s)
    | Some l =>
        let '(r, s') := body (set_self (set_lock l (self s)) s) in
        match r with
        | Suspended => (Suspended, s')
        | _ =>
            match Lock_release (lock (self s')) with
            | Some l' => (r, set_self (set_lock l' (self s')) s')
            | None => (Raised (RuntimeError "Lock is not acquired."), s')
            end
        end
    end.

(** [AgentSession.run_once] *)
Definition run_once (sampling_loop : Executor) : M State unit :=
  async_with_lock (run_once_body sampling_loop).

(** *** A turn among the other tasks

    [run_once] is suspended wherever [sampling_loop] is, and where it
    awaits [upsert_message].  While it is suspended the event loop runs
    the other tasks of the process: the tasks the callbacks scheduled,
    requests appending user messages, clients pulling events, other
    callers of [run_once] reaching the lock. *)

(** What the other tasks do to the state during each suspension of one
    turn: [during_executor k] while [sampling_loop] is suspended before its
    [k]-th callback (counted from 0) and, after the last one, before it
    returns or raises; [at_insert] and [at_update] while [upsert_message]
    awaits its INSERT and its UPDATE; [at_exit] while it awaits the commit
    and the closing of the session. *)
Record Others := mkOthers {
  during_executor : nat -> State -> State;
  at_insert : State -> State;
  at_update : State -> State;
  at_exit : State -> State
}.

(** Nothing else runs. *)
Definition quiet : Others :=
  mkOthers (fun _ s => s) (fun s => s) (fun s => s) (fun s => s).

(** [await upsert_message(...)] among the others; the session is closed
    however the statements end. *)
Definition upsert_message_amid (o : Others) (message_id session_id role : string)
                               (content : json) : M State unit :=
  p ← db (upsert_message_begin message_id session_id role content);
  let statements : M State unit :=
    modify (at_insert o) ;;
    updated ← db (upsert_message_insert p.1 p.2);
    modify (at_update o) ;;
    db (upsert_message_update session_id updated) in
  ((fun s => let '(r, s') := statements s in (r, at_exit o s')) : M State unit).

(** The executor at work: it invokes its callbacks in order and may be
    suspended before each of them and before it ends. *)
Fixpoint sampling_loop_runs (during : nat -> State -> State) (k : nat)
                            (cs : list Callback) : M State unit :=
  match cs with
  | [] => modify (during k)
  | c :: rest =>
      modify (during k) ;; dispatch c ;; sampling_loop_runs during (S k) rest
  end.

(** [await sampling_loop(...)] among the others. *)
Definition await_sampling_loop_amid (o : Others) (sampling_loop : Executor)
  : M State (list json) :=
  a ← gets self;
  let t := sampling_loop (sampling_args a) in
  sampling_loop_runs (during_executor o) 0 (turn_callbacks t) ;;
  match turn_result t with
  | inl e => raise e
  | inr new_messages => ret new_messages
  end.

(** The body of [run_once] among the others. *)
Definition run_once_body_amid (o : Others) (sampling_loop : Executor) : M State unit :=
  new_messages ← await_sampling_loop_amid o sampling_loop;
  persist ← ends_with_assistant new_messages;
  match persist, last new_messages return M State unit with
  | true, Some assistant =>
      message_id ← uuid4;
      sid ← gets (fun s => session_id (self s));
      upsert_message_amid o message_id sid "assistant" assistant ;;
      ev ← with_id message_id assistant;
      _emit "message" ev
  | _, _ => ret tt
  end ;;
  modify (fun s => set_self (set_messages new_messages (self s)) s).

(** [AgentSession.run_once] among the others, for a caller that finds the
    lock free. *)
Definition run_once_amid (o : Others) (sampling_loop : Executor) : M State unit :=
  async_with_lock (run_once_body_amid o sampling_loop).

(** The event loop starts the oldest scheduled task and runs its coroutine
    to the end; an exception it raises stays in the task. *)
Definition start_task (s : State) : State :=
  match scheduled s with
  | [] => s
  | coro :: rest => snd (body_of coro (set_scheduled rest s))
  end.

Fixpoint start_tasks (n : nat) (s : State) : State :=
  match n with
  | O => s
  | S n' => start_tasks n' (start_task s)
  end.

(** The others of a turn when nothing but scheduled tasks run: [n k] of
    them at the executor's [k]-th suspension, and so on. *)
Definition tasks_run (n : nat -> nat) (n_insert n_update n_exit : nat) : Others :=
  mkOthers (fun k => start_tasks (n k)) (start_tasks n_insert)
           (start_tasks n_update) (start_tasks n_exit).

(** *** The SSE feed *)

Section Sse.

(** [json.dumps] *)
Variable json_dumps : json -> string.

(** The frame [sse_iter] builds for one event. *)
Definition sse_payload (ev : StreamEvent) : string :=
  "event: " +:+ event ev +:+ "
" +:+ "data: " +:+ json_dumps (data ev) +:+ "

".

(** One round of the [while True] loop of [sse_iter]: the next frame. *)
Definition sse_iter : M State string :=
  ev ← queue_get;
  ret (sse_payload ev).

End Sse.

(** ** The session routes: [app/api.py] *)

(** [SessionCreateRequest] *)
Record SessionCreateRequest := mkSessionCreateRequest {
  req_model : string;
  req_tool_version : string;
  req_system_prompt_suffix : string
}.

(** The process: the [SESSIONS] dict, the database module, the source of
    uuids, and the [run_once] tasks [send_message] has created (each named
    by the session it runs on). *)
Record World := mkWorld {
  SESSIONS : gmap string AgentSession;
  w_backend : Backend;
  w_uuid_src : nat -> string;
  w_uuid_drawn : nat;
  w_created_tasks : list string
}.

Definition set_SESSIONS (m : gmap string AgentSession) (w : World) : World :=
  mkWorld m (w_backend w) (w_uuid_src w) (w_uuid_drawn w) (w_created_tasks w).

Definition set_w_backend (b : Backend) (w : World) : World :=
  mkWorld (SESSIONS w) b (w_uuid_src w) (w_uuid_drawn w) (w_created_tasks w).

Definition w_uuid4 : M World string :=
  fun w => (Ok (w_uuid_src w (w_uuid_drawn w)),
            mkWorld (SESSIONS w) (w_backend w) (w_uuid_src w)
                    (S (w_uuid_drawn w)) (w_created_tasks w)).

Definition w_db {A} (m : M Backend A) : M World A := zoom w_backend set_w_backend m.

(** A method call on the coordinator registered under [sid], for a method
    that creates no task. *)
Definition on_runner {A} (sid : string) (runner : AgentSession) (m : M State A)
  : M World A :=
  fun w =>
    let '(r, s') := m (mkState runner (w_backend w) (w_uuid_src w) (w_uuid_drawn w) []) in
    (r, mkWorld (<[sid := self s']> (SESSIONS w)) (backend s') (uuid_src s')
                (uuid_drawn s') (w_created_tasks w)).

(** [create_new_session] *)
Definition create_new_session (body : SessionCreateRequest) (api_key : string)
  : M World SessionRow :=
  session_id ← w_uuid4;
  w_db (create_session session_id (req_model body) (req_tool_version body)
                       (req_system_prompt_suffix body)) ;;
  let runner := AgentSession_init session_id (req_model body) (req_tool_version body)
                                  api_key (req_system_prompt_suffix body) ANTHROPIC in
  modify (fun w => set_SESSIONS (<[session_id := runner]> (SESSIONS w)) w) ;;
  row ← w_db (get_session session_id);
  match row with
  | None => raise (HTTPException 500 "Session creation failed")
  | Some r => ret r
  end.

(** [send_message]: append the user message, create the [run_once] task,
    answer at once. *)
Definition send_message (session_id content : string) : M World json :=
  reg ← gets SESSIONS;
  match reg !! session_id with
  | None => raise (HTTPException 404 "Session not active")
  | Some runner =>
      on_runner session_id runner (add_user_message content) ;;
      modify (fun w => mkWorld (SESSIONS w) (w_backend w) (w_uuid_src w)
                               (w_uuid_drawn w) (w_created_tasks w ++ [session_id])) ;;
      ret (JDict [("status", JStr "queued")])
  end.

(** [MessageBlock] of [app/models.py]: every field but [type] is optional
    and [None] when absent. *)
Record MessageBlock := mkMessageBlock {
  mb_type : string;
  mb_text : option string;
  mb_name : option string;
  mb_input : option (list (string * json));
  mb_tool_use_id : option string;
  mb_is_error : option bool
}.

(** [ChatMessage] of [app/models.py], the response model of the messages
    route: its [content] is a string or a list of block objects. *)
Record ChatMessage := mkChatMessage {
  cm_id : string;
  cm_role : string;
  cm_content : string + list MessageBlock;
  cm_created_at : Z
}.

Section Messages.

(** Validation of one list element against [MessageBlock]: the block object
    built from it (a field the element lacks is [None], a key the model
    does not declare is dropped), or nothing when the element is
    rejected. *)
Variable validate_block : json -> option MessageBlock.

(** [content: list[MessageBlock] | str] *)
Definition validate_content (content : json) : option (string + list MessageBlock) :=
  match content with
  | JStr text => Some (inl text)
  | JList elements => inr <$> mapM validate_block elements
  | _ => None
  end.

(** [role: Literal["user", "assistant", "tool"]] *)
Definition valid_role (role : string) : bool :=
  String.eqb role "user" || String.eqb role "assistant" || String.eqb role "tool".

(** [ChatMessage(id=..., role=..., content=..., created_at=...)]: the
    object built, or nothing when a field is rejected. *)
Definition ChatMessage_validate (row : MessageRow) : option ChatMessage :=
  if valid_role (m_role row)
  then (fun content => mkChatMessage (m_id row) (m_role row) content (m_created_at row))
         <$> validate_content (m_content row)
  else None.

Definition ChatMessage_of_row (row : MessageRow) : M World ChatMessage :=
  match ChatMessage_validate row with
  | Some m => ret m
  | None => raise ValidationError
  end.

Fixpoint ChatMessages_of_rows (rows : list MessageRow) : M World (list ChatMessage) :=
  match rows with
  | [] => ret []
  | row :: rest =>
      m ← ChatMessage_of_row row;
      ms ← ChatMessages_of_rows rest;
      ret (m :: ms)
  end.

(** [get_session_messages] *)
Definition get_session_messages (session_id : string) : M World (list ChatMessage) :=
  rows ← w_db (get_messages session_id);
  ChatMessages_of_rows rows.

End Messages.

Section Events.

Variable json_dumps : json -> string.

(** One round of [event_stream] in [session_events]: take the next frame
    from [sse_iter]; stop if the client has gone, else pass it on. *)
Definition event_stream (is_disconnected : bool) : M State (option string) :=
  payload ← sse_iter json_dumps;
  if is_disconnected then ret None else ret (Some payload).

End Events.

(** A producer and the consumer working one queue: the coordinator
    pushes, the attached client pulls. *)
Inductive QueueOp :=
| push (event : string) (data : json)
| pull.

Section Drive.

Variable json_dumps : json -> string.

(** The frames the client receives, in order, and the state left. *)
Fixpoint drive (ops : list QueueOp) (s : State) : list string * State :=
  match ops with
  | [] => ([], s)
  | push ev d :: rest => drive rest (snd (_emit ev d s))
  | pull :: rest =>
      match event_stream json_dumps false s with
      | (Ok (Some frame), s') =>
          let '(frames, s'') := drive rest s' in (frame :: frames, s'')
      | (_, s') => drive rest s'
      end
  end.

End Drive.

(** The events the producer handed over. *)
Fixpoint pushed (ops : list QueueOp) : list StreamEvent :=
  match ops with
  | [] => []
  | push ev d :: rest => mkEvent ev d :: pushed rest
  | pull :: rest => pushed rest
  end.

(** ** Conditions used in the statements *)

(** The queue was built by [Queue()], without a bound. *)
Definition unbounded (s : State) : Prop := maxsize (queue (self s)) = 0%nat.

(** The lock is free and nobody waits for it. *)
Definition idle (l : Lock) : Prop := l = mkLock false [].

(** The database takes a message row under [message_id] for [session_id]:
    the engine is up, the key is new, the session exists where that is
    checked. *)
Definition accepts (b : Backend) (message_id session_id : string) : bool :=
  match AsyncSessionLocal b with
  | None => false
  | Some e =>
      negb (has_message message_id (messages_rows b))
      && (negb (enforces_foreign_keys e) || has_session session_id (sessions_rows b))
  end.

(** The next value [uuid4] returns. *)
Definition next_uuid (s : State) : string := uuid_src s (uuid_drawn s).

(** An entry of a history is a message dict with its [role]. *)
Definition has_role (m : json) : Prop :=
  exists kvs role, m = JDict kvs /\ dict_get "role" kvs = Some role.

(** The last entry is an assistant message. *)
Definition last_is_assistant (h : list json) : bool :=
  match last h with
  | Some (JDict kvs) =>
      match dict_get "role" kvs with
      | Some role => is_str role "assistant"
      | None => false
      end
  | _ => false
  end.

(** The backend [upsert_message] leaves behind when it commits. *)
Definition committed (message_id session_id role : string) (content : json)
                     (b : Backend) : Backend :=
  mkBackend (AsyncSessionLocal b)
            (map (touch_session session_id (clock b (S (clock_reads b))))
                 (sessions_rows b))
            (messages_rows b
               ++ [mkMessageRow message_id session_id role content
                                (clock b (clock_reads b))])
            (clock b) (S (S (clock_reads b))).

(** The state after an event went into the queue. *)
Definition enqueued (ev : StreamEvent) (s : State) : State :=
  set_self (set_queue (mkQueue (maxsize (queue (self s)))
                               (items (queue (self s)) ++ [ev]))
                      (self s)) s.

(** The event [on_output] pushes for a block. *)
Definition chunk_event (block : json) : StreamEvent :=
  mkEvent "assistant_chunk" (JDict [("block", block)]).

(** The state [s] after the executor handed over the first [j] of the
    chunks [blocks] and the tasks of the first [m] of them ran: their
    events are queued, the coroutines of the others still scheduled. *)
Definition chunks_at (blocks : list json) (j m : nat) (s : State) : State :=
  set_scheduled (map on_output_coro (drop m (take j blocks)))
    (set_self (set_queue (mkQueue (maxsize (queue (self s)))
                                  (items (queue (self s))
                                     ++ map chunk_event (take m blocks)))
                         (self s)) s).

(** The same state with the lock in another position. *)
Definition with_lock (l : Lock) (s : State) : State :=
  set_self (set_lock l (self s)) s.

(** What a method leaves alone unless it says otherwise: the lock, the
    session the coordinator belongs to, the bound of its queue. *)
Definition kept (s s' : State) : Prop :=
  lock (self s') = lock (self s)
  /\ session_id (self s') = session_id (self s)
  /\ maxsize (queue (self s')) = maxsize (queue (self s)).

(** A coroutine that keeps what [kept] lists, however it ends. *)
Definition frames {A} (m : M State A) : Prop :=
  forall s, kept s (snd (m s)).

(** A coroutine that, on an unbounded queue, never parks and keeps what
    [kept] lists. *)
Definition settles {A} (m : M State A) : Prop :=
  forall s, unbounded s -> fst (m s) <> Suspended /\ kept s (snd (m s)).

(** What every other task of the process does while a turn is suspended:
    it leaves the lock with its holder (callers may queue up behind it),
    leaves the coordinator with its session and its queue unbounded, leaves
    the session factory bound, and deletes no message row. *)
Definition undisturbed (s s' : State) : Prop :=
  _locked (lock (self s')) = _locked (lock (self s))
  /\ session_id (self s') = session_id (self s)
  /\ maxsize (queue (self s')) = maxsize (queue (self s))
  /\ AsyncSessionLocal (backend s') = AsyncSessionLocal (backend s)
  /\ exists new_rows,
       messages_rows (backend s') = messages_rows (backend s) ++ new_rows.

Definition bystander (f : State -> State) : Prop :=
  forall s, undisturbed s (f s).

Definition bystanders (o : Others) : Prop :=
  (forall k, bystander (during_executor o k))
  /\ bystander (at_insert o) /\ bystander (at_update o) /\ bystander (at_exit o).

(** Others that write no message row. *)
Definition leave_rows (o : Others) : Prop :=
  forall f, (f = at_insert o \/ f = at_update o \/ f = at_exit o
             \/ exists k, f = during_executor o k) ->
            forall s, messages_rows (backend (f s)) = messages_rows (backend s).

(** Others that neither push nor pull events. *)
Definition leave_queue (o : Others) : Prop :=
  forall f, (f = at_insert o \/ f = at_update o \/ f = at_exit o
             \/ exists k, f = during_executor o k) ->
            forall s, items (queue (self (f s))) = items (queue (self s)).

(** The state after the coordinator drew an id and read the clock once:
    where [run_once] is when it awaits the INSERT. *)
Definition stamped (s : State) : State :=
  mkState (self s)
          (mkBackend (AsyncSessionLocal (backend s)) (sessions_rows (backend s))
                     (messages_rows (backend s)) (clock (backend s))
                     (S (clock_reads (backend s))))
          (uuid_src s) (S (uuid_drawn s)) (scheduled s).

(** The state after the database took [row] and the clock was read once
    more. *)
Definition inserted (row : MessageRow) (s : State) : State :=
  set_backend (mkBackend (AsyncSessionLocal (backend s)) (sessions_rows (backend s))
                         (messages_rows (backend s) ++ [row]) (clock (backend s))
                         (S (clock_reads (backend s)))) s.

(** The state after the UPDATE of the session's [updated_at]. *)
Definition touched (session_id : string) (updated : Z) (s : State) : State :=
  set_backend (set_tables (map (touch_session session_id updated)
                               (sessions_rows (backend s)))
                          (messages_rows (backend s)) (backend s)) s.

(** The state in which the executor of a turn comes back, the lock taken
    on the fast path. *)
Definition executor_back (o : Others) (t : Turn) (s : State) : State :=
  snd (sampling_loop_runs (during_executor o) 0 (turn_callbacks t)
                          (with_lock (mkLock true []) s)).

(** Every registered coordinator has its row in [sessions]. *)
Definition registry_backed (w : World) : Prop :=
  forall sid, is_Some (SESSIONS w !! sid) ->
              has_session sid (sessions_rows (w_backend w)) = true.

(** ** A small deployment to run the scenarios on *)

Module Scenario.

Definition uuids (n : nat) : string :=
  String (Ascii.ascii_of_nat (97 + n)) "-uuid".

Definition ticks (n : nat) : Z := 1000 + Z.of_nat n.

Definition engine : AsyncEngine := mkEngine "sqlite+aiosqlite:///./dev.db" false.

(** The process right after startup. *)
Definition world0 : World :=
  mkWorld ∅ (mkBackend (Some engine) [] [] ticks 0) uuids 0 [].

Definition body : SessionCreateRequest :=
  mkSessionCreateRequest "m1" "computer_use_20250124" "".

(** After [POST /sessions] with model ["m1"]. *)
Definition world1 : World := snd (create_new_session body "key" world0).

(** The coordinator that call registered, under ["a-uuid"]. *)
Definition runner0 : AgentSession :=
  AgentSession_init "a-uuid" "m1" "computer_use_20250124" "key" "" ANTHROPIC.

Definition state0 : State := mkState runner0 (w_backend world1) uuids 1 [].

(** Scenario A: [add_user_message("hi")]. *)
Definition state_A : State := snd (add_user_message "hi" state0).

Definition text_block (text : string) : json :=
  JDict [("type", JStr "text"); ("text", JStr text)].

Definition hello_back : json :=
  JDict [("role", JStr "assistant"); ("content", JList [text_block "hello back"])].

(** An executor that invokes no callback and answers with one assistant
    message after the history it was given. *)
Definition reply : Executor :=
  fun args => mkTurn [] (inr (arg_messages args ++ [hello_back])).

(** An executor that streams two chunks through [output_callback] and
    then answers the same. *)
Definition streaming : Executor :=
  fun args => mkTurn [output_callback (text_block "hello");
                      output_callback (text_block " back")]
                     (inr (arg_messages args ++ [hello_back])).

(** An executor that fails. *)
Definition broken : Executor :=
  fun args => mkTurn [] (inl (ExecutorError "overloaded")).

(** The same coordinator before [init_engine] ran. *)
Definition state_down : State :=
  mkState runner0 (mkBackend None [] [] ticks 0) uuids 1 [].

(** Scenario A seen from the process: the call made on the registered
    coordinator. *)
Definition world_A : World :=
  snd (on_runner "a-uuid" runner0 (add_user_message "hi") world1).

(** [world_A] at a moment when [uuid4] is about to return ["a-uuid"]
    once more. *)
Definition world_again : World :=
  mkWorld (SESSIONS world_A) (w_backend world_A) (fun _ => "a-uuid") 0 [].

(** The same, after the session's row was deleted on the database side;
    the coordinator is still registered. *)
Definition world_lost : World :=
  mkWorld (SESSIONS world_A)
          (mkBackend (Some engine) [] [] ticks 3)
          (fun _ => "a-uuid") 0 [].

Definition screenshot : ToolResult :=
  mkToolResult (Some "done") None (Some "iVBORw0KGgo=").

End Scenario.

(** ** Tasks of one coordinator on the event loop *)

Module Loop.

#[local] Instance Future_eq_dec : EqDecision Future.
Proof. solve_decision. Defined.

(** Where a [run_once] task stands. *)
Inductive Pc :=
| Created                       (* the coroutine exists, nothing ran yet *)
| Parked                        (* inside [acquire], awaiting its future *)
| InTurn                        (* inside [async with], executor invoked *)
| Finished (r : outcome unit).

(** What an observer of the executor sees. *)
Inductive Obs :=
| Begin (i : nat)               (* task [i] enters its turn *)
| End (i : nat).                (* task [i] has left it and released *)

Record Sys := mkSys {
  st : State;
  tasks : list Pc;
  trace : list Obs              (* oldest first *)
}.

(** What the event loop can do next: a new [run_once] coroutine, a call of
    [add_user_message], a [run_once] task reaching [acquire], a parked one
    resuming, a turn run from the executor to the release, the oldest
    scheduled callback task run. *)
Inductive Action :=
| call_run_once
| call_add_user_message (content : string)
| acquire (i : nat)
| resume (i : nat)
| finish (i : nat) (sampling_loop : Executor)
| run_task.

(** The slow path of [Lock.acquire], first half: queue a future. *)
Definition Lock_park (i : nat) (l : Lock) : Lock :=
  mkLock (_locked l) (_waiters l ++ [mkFuture i false]).

(** [self._waiters.remove(fut)] *)
Fixpoint remove_fut (f : Future) (ws : list Future) : list Future :=
  match ws with
  | [] => []
  | w :: rest => if bool_decide (w = f) then rest else w :: remove_fut f rest
  end.

(** The slow path, second half: once its future is done the task leaves
    the queue and takes the lock. *)
Definition Lock_resume (i : nat) (l : Lock) : option Lock :=
  if bool_decide (mkFuture i true ∈ _waiters l)
  then Some (mkLock true (remove_fut (mkFuture i true) (_waiters l)))
  else None.

Definition is_pc (p : Pc) (tasks : list Pc) (i : nat) : bool :=
  match tasks !! i, p with
  | Some Created, Created => true
  | Some Parked, Parked => true
  | Some InTurn, InTurn => true
  | _, _ => false
  end.

Definition step (a : Action) (y : Sys) : option Sys :=
  match a with
  | call_run_once =>
      Some (mkSys (st y) (tasks y ++ [Created]) (trace y))
  | call_add_user_message content =>
      Some (mkSys (snd (add_user_message content (st y))) (tasks y) (trace y))
  | acquire i =>
      if is_pc Created (tasks y) i then
        match Lock_try_acquire (lock (self (st y))) with
        | Some l =>
            Some (mkSys (with_lock l (st y)) (<[i := InTurn]> (tasks y))
                        (trace y ++ [Begin i]))
        | None =>
            Some (mkSys (with_lock (Lock_park i (lock (self (st y)))) (st y))
                        (<[i := Parked]> (tasks y)) (trace y))
        end
      else None
  | resume i =>
      if is_pc Parked (tasks y) i then
        match Lock_resume i (lock (self (st y))) with
        | Some l =>
            Some (mkSys (with_lock l (st y)) (<[i := InTurn]> (tasks y))
                        (trace y ++ [Begin i]))
        | None => None
        end
      else None
  | finish i sampling_loop =>
      if is_pc InTurn (tasks y) i then
        match run_once_body sampling_loop (st y) with
        | (Suspended, _) => None
        | (r, s') =>
            match Lock_release (lock (self s')) with
            | Some l =>
                Some (mkSys (with_lock l s') (<[i := Finished r]> (tasks y))
                            (trace y ++ [End i]))
            | None =>
                Some (mkSys s'
                            (<[i := Finished (Raised (RuntimeError "Lock is not acquired."))]>
                               (tasks y))
                            (trace y ++ [End i]))
            end
        end
      else None
  | run_task =>
      Some (mkSys (start_task (st y)) (tasks y) (trace y))
  end.

Fixpoint run (acts : list Action) (y : Sys) : option Sys :=
  match acts with
  | [] => Some y
  | a :: rest =>
      match step a y with
      | Some y' => run rest y'
      | None => None
      end
  end.

(** A coordinator nobody has called yet. *)
Definition fresh (s : State) : Sys := mkSys s [] [].

(** The monitor for "turns do not overlap": [holder] is the task whose
    turn is open. *)
Definition observe (holder : option nat) (o : Obs) : option (option nat) :=
  match holder, o with
  | None, Begin i => Some (Some i)
  | Some i, End j => if Nat.eqb i j then Some None else None
  | _, _ => None
  end.

Fixpoint serial (holder : option nat) (log : list Obs) : option (option nat) :=
  match log with
  | [] => Some holder
  | o :: rest =>
      match observe holder o with
      | Some h => serial h rest
      | None => None
      end
  end.

(** Tasks that are inside their turn. *)
Fixpoint holders (ts : list Pc) : nat :=
  match ts with
  | [] => 0
  | InTurn :: rest => S (holders rest)
  | _ :: rest => holders rest
  end.

(** Waiters whose future is done and who have not resumed yet. *)
Fixpoint woken (ws : list Future) : nat :=
  match ws with
  | [] => 0
  | w :: rest => if fut_done w then S (woken rest) else woken rest
  end.

(** What holds of every state the loop can reach: the lock is taken
    exactly while one task is in its turn; a waiter is woken only while
    the lock is free, and at most one is; the observed trace is serial
    and its open turn, if any, is the turn of the task inside. *)
Definition Inv (y : Sys) : Prop :=
  let l := lock (self (st y)) in
  holders (tasks y) = Nat.b2n (_locked l)
  /\ (woken (_waiters l) + Nat.b2n (_locked l) <= 1)%nat
  /\ exists h,
       serial None (trace y) = Some h
       /\ match h with
          | Some i => tasks y !! i = Some InTurn
          | None => _locked l = false
          end.

End Loop.

(** ** The rest of the configuration, the database module and the routes *)

(** [get_database_url] of [app/settings.py], on the value of
    [os.getenv("DATABASE_URL")]. *)
Definition get_database_url (DATABASE_URL : option string) : string :=
  match DATABASE_URL with
  | Some url => if String.eqb url "" then "sqlite+aiosqlite:///./dev.db" else url
  | None => "sqlite+aiosqlite:///./dev.db"
  end.

(** [get_api_key], on the value of [os.getenv("ANTHROPIC_API_KEY")]. *)
Definition get_api_key (ANTHROPIC_API_KEY : option string) : exn + string :=
  let api_key := default "" ANTHROPIC_API_KEY in
  if String.eqb api_key "" then inl (RuntimeError "ANTHROPIC_API_KEY is not set")
  else inr api_key.

(** What [list_sessions] selects of a session row; also [SessionSummary]. *)
Record SessionSummary := mkSummary {
  sum_id : string;
  sum_model : string;
  sum_created_at : Z;
  sum_updated_at : Z
}.

Definition summary_of (r : SessionRow) : SessionSummary :=
  mkSummary (s_id r) (s_model r) (s_created_at r) (s_updated_at r).

(** [ORDER BY updated_at DESC].  The order among rows with equal stamps is
    the database's; here they keep table order. *)
Fixpoint insert_by_updated (r : SessionSummary) (sorted : list SessionSummary)
  : list SessionSummary :=
  match sorted with
  | [] => [r]
  | r' :: rest =>
      if (sum_updated_at r <=? sum_updated_at r')%Z
      then r' :: insert_by_updated r rest
      else r :: r' :: rest
  end.

Definition order_by_updated_desc (rows : list SessionSummary) : list SessionSummary :=
  fold_left (fun acc r => insert_by_updated r acc) rows [].

(** [list_sessions] *)
Definition list_sessions : M Backend (list SessionSummary) :=
  assert_session_local ;;
  ss ← gets sessions_rows;
  ret (order_by_updated_desc (map summary_of ss)).

(** [on_startup] *)
Definition on_startup (opened : Opening) : M World unit :=
  w_db (init_engine opened).

(** [list_all_sessions] *)
Definition list_all_sessions : M World (list SessionSummary) :=
  rows ← w_db list_sessions;
  ret rows.

(** [get_session_by_id] *)
Definition get_session_by_id (session_id : string) : M World SessionRow :=
  row ← w_db (get_session session_id);
  match row with
  | None => raise (HTTPException 404 "Session not found")
  | Some r => ret r
  end.

(** [session_events], up to the point where the stream is handed to the
    transport: the coordinator whose queue the stream will drain. *)
Definition session_events (session_id : string) : M World AgentSession :=
  reg ← gets SESSIONS;
  match reg !! session_id with
  | None => raise (HTTPException 404 "Session not active")
  | Some runner => ret runner
  end.

(** Clients of one session's stream: every [GET .../events] runs its own
    [event_stream] over the same queue. *)
Inductive StreamOp :=
| produce (event : string) (data : json)
| consume (client : nat) (is_disconnected : bool).

(** One event leaving the queue: who took it, and the frame passed on to
    that client, if any. *)
Record Delivery := mkDelivery {
  d_client : nat;
  d_event : StreamEvent;
  d_frame : option string
}.

Section Serve.

Variable json_dumps : json -> string.

(** The events taken off the queue, in order, and the state left. *)
Fixpoint serve (ops : list StreamOp) (s : State) : list Delivery * State :=
  match ops with
  | [] => ([], s)
  | produce ev d :: rest => serve rest (snd (_emit ev d s))
  | consume client gone :: rest =>
      match items (queue (self s)), event_stream json_dumps gone s with
      | ev :: _, (Ok frame, s') =>
          let '(log, s'') := serve rest s' in
          (mkDelivery client ev frame :: log, s'')
      | _, (_, s') => serve rest s'
      end
  end.

End Serve.

(** The events handed over by [produce]. *)
Fixpoint produced (ops : list StreamOp) : list StreamEvent :=
  match ops with
  | [] => []
  | produce ev d :: rest => mkEvent ev d :: produced rest
  | consume _ _ :: rest => produced rest
  end.


(** ** Further conditions used in the statements *)

(** Primary keys: no two rows of a table share their id. *)
Definition keys_unique (b : Backend) : Prop :=
  NoDup (map s_id (sessions_rows b)) /\ NoDup (map m_id (messages_rows b)).


(** Ascending [created_at]. *)
Definition by_created (r r' : MessageRow) : Prop :=
  (m_created_at r <= m_created_at r')%Z.

(** Descending [updated_at]. *)
Definition by_updated_desc (r r' : SessionSummary) : Prop :=
  (sum_updated_at r' <= sum_updated_at r)%Z.


(** The same session row up to [updated_at], and the very same row when it
    is not the session [sid]. *)
Definition touched_only (sid : string) (r r' : SessionRow) : Prop :=
  s_id r' = s_id r
  /\ s_model r' = s_model r
  /\ s_tool_version r' = s_tool_version r
  /\ s_system_prompt_suffix r' = s_system_prompt_suffix r
  /\ s_created_at r' = s_created_at r
  /\ (s_id r <> sid -> r' = r).

(** The database after some writes made for the session [sid]: the rows
    the messages table had are all still there, in place and unchanged,
    followed by new rows of that session; the sessions table has the same
    rows, changed at most in the [updated_at] of [sid]. *)
Definition grown_for (sid : string) (b b' : Backend) : Prop :=
  (exists new_rows,
      messages_rows b' = messages_rows b ++ new_rows
      /\ Forall (fun r => m_session_id r = sid) new_rows)
  /\ Forall2 (touched_only sid) (sessions_rows b) (sessions_rows b').

(** A coroutine of the coordinator that only writes for its own session. *)
Definition writes_own_session {A} (m : M State A) : Prop :=
  forall s, grown_for (session_id (self s)) (backend s) (backend (snd (m s))).

(** ** The deployment, later *)

Module Later.

(** The process of scenario A started anew: the module globals are back to
    their initial values, the database has kept its rows. *)
Definition world_down : World :=
  mkWorld ∅
          (mkBackend None
                     (sessions_rows (w_backend Scenario.world_A))
                     (messages_rows (w_backend Scenario.world_A))
                     Scenario.ticks 3)
          Scenario.uuids 2 [].

(** After [on_startup]. *)
Definition world_up : World :=
  snd (on_startup (engine_opened Scenario.engine None) world_down).

(** The database of scenario A after a second session was created. *)
Definition backend_two : Backend :=
  snd (create_session "z-uuid" "m2" "computer_use_20250124" ""
                      (backend Scenario.state_A)).

(** The same database after two rows were written for the second session
    the way the messages route expects them: a string, and a list of
    blocks. *)
Definition backend_read : Backend :=
  snd (upsert_message "m2" "z-uuid" "assistant"
         (JList [JDict [("type", JStr "text"); ("text", JStr "hello");
                        ("cache_control", JNull)]])
         (snd (upsert_message "m1" "z-uuid" "user" (JStr "hi") backend_two))).

Definition world_read : World := mkWorld ∅ backend_read Scenario.uuids 2 [].

(** A block validator that takes text blocks only. *)
Definition text_blocks (element : json) : option MessageBlock :=
  match element with
  | JDict kvs =>
      match dict_get "type" kvs, dict_get "text" kvs with
      | Some (JStr "text"), Some (JStr t) =>
          Some (mkMessageBlock "text" (Some t) None None None None)
      | _, _ => None
      end
  | _ => None
  end.

(** An executor that reports one tool result and then answers, without
    being suspended in between. *)
Definition tool_then_reply : Executor :=
  fun args => mkTurn [tool_output_callback Scenario.screenshot "toolu_01"]
                     (inr (arg_messages args ++ [Scenario.hello_back])).

(** The turn of [tool_then_reply] after scenario A, as the loop runs it:
    while the turn awaits its INSERT, the task of the tool result starts,
    draws its id and builds its own INSERT; that INSERT is settled while
    the turn awaits its UPDATE, and the task's UPDATE while the turn is on
    its way out.  The task pushes its event after the turn has returned. *)
Definition tool_task_amid : Others :=
  mkOthers
    (fun _ s => s)
    (fun s => snd ((mid ← uuid4;
                    db (upsert_message_begin
                          mid "a-uuid" "tool"
                          (tool_msg mid Scenario.screenshot "toolu_01")))
                     (set_scheduled (tail (scheduled s)) s)))
    (fun s => snd (db (upsert_message_insert
                         Scenario.engine
                         (mkMessageRow "d-uuid" "a-uuid" "tool"
                                       (tool_msg "d-uuid" Scenario.screenshot "toolu_01")
                                       1004)) s))
    (fun s => snd (db (upsert_message_update "a-uuid" 1006) s)).

(** An assistant message that carries an id of its own. *)
Definition with_own_id : list (string * json) :=
  [("id", JStr "msg_01"); ("role", JStr "assistant"); ("content", JStr "hello")].

End Later.

(** * Properties *)

(** ** Persistence and queue primitives *)

(** Unfolding of the monad on a concrete state. *)
Ltac run_coro :=
  unfold mbind, mret, M_bind, M_ret, bind, ret, raise, gets, modify, zoom in *.

Lemma upsert_message_accepted mid sid role content b :
  accepts b mid sid = true ->
  upsert_message mid sid role content b = (Ok tt, committed mid sid role content b).
Proof.
  unfold accepts, upsert_message, assert_session_local, utcnow, committed, set_tables.
  run_coro. destruct b as [[e|] ss ms clk n]; simpl; [|discriminate].
  intros [Hnew Hfk]%andb_prop.
  apply negb_true_iff in Hnew. rewrite Hnew.
  destruct (enforces_foreign_keys e); simpl in *; [rewrite Hfk|]; reflexivity.
Qed.

Lemma upsert_message_rejected mid sid role content b :
  accepts b mid sid = false ->
  exists e b', upsert_message mid sid role content b = (Raised e, b')
               /\ sessions_rows b' = sessions_rows b
               /\ messages_rows b' = messages_rows b
               /\ AsyncSessionLocal b' = AsyncSessionLocal b.
Proof.
  unfold accepts, upsert_message, assert_session_local, utcnow, set_tables.
  run_coro. destruct b as [[e|] ss ms clk n]; simpl.
  - destruct (has_message mid ms); simpl; [eauto 10|].
    destruct (enforces_foreign_keys e); simpl; [|discriminate].
    intros ->. simpl. eauto 10.
  - eauto 10.
Qed.

(** Whatever [upsert_message] does, it either commits the one row or leaves
    both tables as they were. *)
Lemma upsert_message_cases mid sid role content b :
  (accepts b mid sid = true
   /\ upsert_message mid sid role content b = (Ok tt, committed mid sid role content b))
  \/ (accepts b mid sid = false
      /\ exists e b', upsert_message mid sid role content b = (Raised e, b')
                      /\ sessions_rows b' = sessions_rows b
                      /\ messages_rows b' = messages_rows b
                      /\ AsyncSessionLocal b' = AsyncSessionLocal b).
Proof.
  destruct (accepts b mid sid) eqn:Ha.
  - left. split; [reflexivity|]. by apply upsert_message_accepted.
  - right. split; [reflexivity|]. by apply upsert_message_rejected.
Qed.

Lemma emit_unbounded ev d s :
  unbounded s -> _emit ev d s = (Ok tt, enqueued (mkEvent ev d) s).
Proof.
  unfold unbounded, _emit, queue_put, Queue_put, full, enqueued. run_coro.
  intros ->. reflexivity.
Qed.

Lemma enqueued_unbounded ev s : unbounded s -> unbounded (enqueued ev s).
Proof. unfold unbounded, enqueued. simpl. auto. Qed.

(** [_emit] either appends its event or, on a full queue, changes nothing;
    it never raises. *)
Lemma emit_cases ev d s :
  _emit ev d s = (Ok tt, enqueued (mkEvent ev d) s)
  \/ (_emit ev d s = (Suspended, s) /\ ~ unbounded s).
Proof.
  unfold unbounded, _emit, queue_put, Queue_put, enqueued. run_coro.
  destruct s as [[sid md tv ak sps pv ms [mx its] lk] b us ud cs]; simpl.
  unfold full; simpl. destruct mx as [|mx]; [left; reflexivity|].
  destruct (S mx <=? length its)%nat; [right; split; [reflexivity|simpl; lia]|left; reflexivity].
Qed.

(** ** Appending a user message *)



(** C10. When the database write inside [add_user_message] fails, the
    exception reaches the caller, the new user message is already in the
    in-memory history, and no event has been pushed: the queue is as it
    was. *)
Theorem add_user_message_persist_failure content s e b' :
  upsert_message (next_uuid s) (session_id (self s)) "user"
                 (user_msg (next_uuid s) content) (backend s) = (Raised e, b') ->
  exists s',
    add_user_message content s = (Raised e, s')
    /\ messages (self s') = messages (self s) ++ [user_msg (next_uuid s) content]
    /\ queue (self s') = queue (self s)
    /\ backend s' = b'.
Proof.
  unfold next_uuid. intros Hup.
  unfold add_user_message, uuid4, db. run_coro. simpl. rewrite Hup.
  eexists. split; [reflexivity|]. simpl. auto.
Qed.

Lemma add_user_message_engine_down :
  exists s',
    add_user_message "hi" Scenario.state_down = (Raised AssertionError, s')
    /\ messages (self s') = [user_msg "b-uuid" "hi"]
    /\ queue (self s') = Queue_new.
Proof.
  destruct (add_user_message_persist_failure
              "hi" Scenario.state_down AssertionError
              (backend Scenario.state_down) eq_refl)
    as (s' & Hrun & Hm & Hq & _).
  exists s'. split; [exact Hrun | split; [exact Hm | exact Hq]].
Defined.

(** ** What the callbacks keep *)

Lemma kept_refl s : kept s s.
Proof. unfold kept. auto. Qed.

Lemma kept_trans s1 s2 s3 : kept s1 s2 -> kept s2 s3 -> kept s1 s3.
Proof. unfold kept. intros (-> & -> & ->) (-> & -> & ->). auto. Qed.

Lemma kept_unbounded s s' : kept s s' -> unbounded s -> unbounded s'.
Proof. unfold kept, unbounded. intros (_ & _ & ->). auto. Qed.

Lemma kept_enqueued ev s : kept s (enqueued ev s).
Proof. unfold kept, enqueued. simpl. auto. Qed.

Create HintDb coordinator.
#[local] Hint Resolve kept_refl kept_enqueued : coordinator.

Lemma emit_kept ev d s : kept s (snd (_emit ev d s)).
Proof.
  destruct (emit_cases ev d s) as [->|[-> _]]; simpl; auto with coordinator.
Qed.

Lemma upsert_kept mid sid role content s :
  kept s (snd (db (upsert_message mid sid role content) s)).
Proof.
  unfold db. run_coro.
  destruct (upsert_message _ _ _ _ _) as [r b]. unfold kept. simpl. auto.
Qed.

Lemma on_output_kept block s : kept s (snd (on_output block s)).
Proof. apply emit_kept. Qed.

Lemma on_api_response_kept req res err s :
  kept s (snd (on_api_response req res err s)).
Proof. apply emit_kept. Qed.

Lemma on_tool_output_kept result tool_id s :
  kept s (snd (on_tool_output result tool_id s)).
Proof.
  unfold on_tool_output, uuid4, db. run_coro. simpl.
  destruct (upsert_message _ _ _ _ _) as [[[]|e|] b]; simpl;
    try (unfold kept; simpl; auto; fail).
  match goal with |- kept _ (snd (_emit ?ev ?d ?s0)) =>
    apply kept_trans with s0; [unfold kept; simpl; auto | apply emit_kept]
  end.
Qed.

Lemma body_of_kept coro s : kept s (snd (body_of coro s)).
Proof.
  destruct coro as [block|result tool_id|req res err]; simpl.
  - apply on_output_kept.
  - apply on_tool_output_kept.
  - apply on_api_response_kept.
Qed.

Lemma start_task_kept s : kept s (start_task s).
Proof.
  unfold start_task. destruct (scheduled s) as [|coro rest]; [apply kept_refl|].
  apply (body_of_kept coro (set_scheduled rest s)).
Qed.

Lemma dispatch_kept c s : kept s (snd (dispatch c s)).
Proof. unfold kept. simpl. auto. Qed.

Lemma dispatch_returns c s : fst (dispatch c s) = Ok tt.
Proof. reflexivity. Qed.

Lemma dispatch_all_returns cs s :
  fst (dispatch_all cs s) = Ok tt /\ kept s (snd (dispatch_all cs s)).
Proof.
  revert s. induction cs as [|c cs IH]; intros s; simpl.
  - split; [reflexivity | apply kept_refl].
  - run_coro. pose proof (dispatch_returns c s) as Hr.
    pose proof (dispatch_kept c s) as Hk.
    destruct (dispatch c s) as [r s1]. simpl in Hr, Hk. subst r.
    destruct (IH s1) as [Hr1 Hk1]. split; [exact Hr1|].
    eapply kept_trans; eassumption.
Qed.

(** The executor's part of a turn: the callbacks run, then the history
    comes back or the exception goes up; nothing parks. *)
Lemma await_sampling_loop_spec sampling_loop s :
  let t := sampling_loop (sampling_args (self s)) in
  let s1 := snd (dispatch_all (turn_callbacks t) s) in
  kept s s1
  /\ await_sampling_loop sampling_loop s
     = (match turn_result t with
        | inl e => Raised e
        | inr new_messages => Ok new_messages
        end, s1).
Proof.
  cbv zeta. split; [apply dispatch_all_returns|].
  unfold await_sampling_loop. run_coro.
  destruct (dispatch_all_returns
              (turn_callbacks (sampling_loop (sampling_args (self s)))) s) as [Hr _].
  destruct (dispatch_all _ s) as [r s1]. simpl in *. subst r.
  destruct (turn_result _); reflexivity.
Qed.

(** ** Tool results *)



(** ** One turn *)

Section Settles.

Context {A B : Type}.

Lemma settles_ret (a : A) : settles (mret a : M State A).
Proof. intros s _. split; [discriminate | apply kept_refl]. Qed.

Lemma settles_raise (e : exn) : settles (raise e : M State A).
Proof. intros s _. split; [discriminate | apply kept_refl]. Qed.

Lemma settles_gets (f : State -> A) : settles (gets f).
Proof. intros s _. split; [discriminate | apply kept_refl]. Qed.

Lemma settles_bind (m : M State A) (k : A -> M State B) :
  settles m -> (forall a, settles (k a)) -> settles (m ≫= k).
Proof.
  intros Hm Hk s Hs. run_coro. destruct (Hm s Hs) as [Hr Hkept].
  destruct (m s) as [[a|e|] s1]; simpl in *.
  - destruct (Hk a s1 (kept_unbounded _ _ Hkept Hs)) as [Hr' Hkept'].
    split; [exact Hr'|]. eapply kept_trans; eassumption.
  - split; [discriminate | exact Hkept].
  - contradiction.
Qed.

End Settles.

Lemma settles_uuid4 : settles uuid4.
Proof. intros s _. split; [discriminate | unfold kept; simpl; auto]. Qed.

Lemma settles_upsert mid sid role content :
  settles (db (upsert_message mid sid role content)).
Proof.
  intros s _. split; [|apply upsert_kept].
  unfold db. run_coro.
  destruct (upsert_message_cases mid sid role content (backend s))
    as [[_ ->]|[_ (e & b' & -> & _)]]; discriminate.
Qed.

Lemma settles_emit ev d : settles (_emit ev d).
Proof.
  intros s Hs. rewrite emit_unbounded by exact Hs.
  split; [discriminate | apply kept_enqueued].
Qed.

Lemma settles_await sampling_loop : settles (await_sampling_loop sampling_loop).
Proof.
  intros s _. destruct (await_sampling_loop_spec sampling_loop s) as [Hk ->].
  split; [|exact Hk]. simpl. destruct (turn_result _); discriminate.
Qed.

Lemma settles_ends_with_assistant h : settles (ends_with_assistant h).
Proof.
  unfold ends_with_assistant. destruct (last h) as [m|]; [|apply settles_ret].
  destruct (getitem m "role"); [apply settles_raise | apply settles_ret].
Qed.

Lemma settles_with_id mid a : settles (with_id mid a).
Proof. destruct a; first [apply settles_ret | apply settles_raise]. Qed.

Lemma settles_set_messages h :
  settles (modify (fun s => set_self (set_messages h (self s)) s)).
Proof. intros s _. split; [discriminate | unfold kept; simpl; auto]. Qed.

#[local] Hint Resolve settles_uuid4 settles_upsert settles_emit settles_await
  settles_ends_with_assistant settles_with_id settles_set_messages : coordinator.

(** The body of a turn never parks and never touches the lock. *)
Lemma settles_run_once_body sampling_loop : settles (run_once_body sampling_loop).
Proof.
  unfold run_once_body.
  apply settles_bind; [auto with coordinator|]. intros h.
  apply settles_bind; [auto with coordinator|]. intros persist.
  apply settles_bind; [|intros _; auto with coordinator].
  destruct persist, (last h) as [assistant|]; try apply settles_ret.
  apply settles_bind; [auto with coordinator|]. intros mid.
  apply settles_bind; [apply settles_gets|]. intros sid.
  apply settles_bind; [auto with coordinator|]. intros _.
  apply settles_bind; auto with coordinator.
Qed.

(** [async with self.lock] on a free lock: the body runs with the lock
    held and the lock is free again when the call ends. *)
Lemma async_with_lock_idle {A} (body : M State A) s :
  idle (lock (self s)) ->
  settles body ->
  unbounded s ->
  exists r s1,
    body (with_lock (mkLock true []) s) = (r, s1)
    /\ r <> Suspended
    /\ kept (with_lock (mkLock true []) s) s1
    /\ async_with_lock body s = (r, with_lock (mkLock false []) s1).
Proof.
  unfold idle. intros Hidle Hbody Hunb.
  destruct (Hbody (with_lock (mkLock true []) s)) as [Hr Hk]; [exact Hunb|].
  unfold async_with_lock. rewrite Hidle. simpl.
  change (set_self (set_lock (mkLock true []) (self s)) s)
    with (with_lock (mkLock true []) s).
  destruct (body (with_lock (mkLock true []) s)) as [r s1]. simpl in *.
  exists r, s1. split; [reflexivity|]. split; [exact Hr|]. split; [exact Hk|].
  destruct Hk as (Hl & Hsid & Hmax). simpl in *.
  unfold Lock_release. rewrite Hl. simpl.
  destruct r; try reflexivity. congruence.
Qed.

(** An executor that raises makes the body of the turn raise the same. *)
Lemma run_once_body_raises sampling_loop s e :
  turn_result (sampling_loop (sampling_args (self s))) = inl e ->
  fst (run_once_body sampling_loop s) = Raised e.
Proof.
  intros He. unfold run_once_body. run_coro.
  destruct (await_sampling_loop_spec sampling_loop s) as [_ ->].
  rewrite He. reflexivity.
Qed.

(** C2. A [run_once] that finds the lock free ends with the lock free
    again, whether the turn returned or raised; when the executor raises,
    the caller gets that exception; and the next [run_once] on the same
    coordinator does not park: it takes the lock, runs its own turn, hands
    back what that turn produced and frees the lock again. *)
Theorem run_once_releases_lock sampling_loop s :
  idle (lock (self s)) ->
  unbounded s ->
  exists r s',
    run_once sampling_loop s = (r, s')
    /\ r <> Suspended
    /\ idle (lock (self s'))
    /\ (forall e, turn_result (sampling_loop (sampling_args (self s))) = inl e ->
                  r = Raised e)
    /\ forall next, exists r2 s2,
         run_once_body next (with_lock (mkLock true []) s') = (r2, s2)
         /\ r2 <> Suspended
         /\ run_once next s' = (r2, with_lock (mkLock false []) s2).
Proof.
  intros Hidle Hunb.
  destruct (async_with_lock_idle (run_once_body sampling_loop) s Hidle
              (settles_run_once_body sampling_loop) Hunb)
    as (r & s1 & Hbody & Hr & Hk & Hrun).
  exists r, (with_lock (mkLock false []) s1).
  split; [exact Hrun|]. split; [exact Hr|]. split; [reflexivity|]. split.
  - intros e He.
    pose proof (run_once_body_raises sampling_loop (with_lock (mkLock true []) s) e He)
      as Hraise.
    rewrite Hbody in Hraise. exact Hraise.
  - intros next.
    assert (unbounded (with_lock (mkLock false []) s1)) as Hunb'.
    { destruct Hk as (_ & _ & Hmax). unfold unbounded in *. simpl in *. lia. }
    destruct (async_with_lock_idle (run_once_body next) (with_lock (mkLock false []) s1)
                eq_refl (settles_run_once_body next) Hunb')
      as (r2 & s2 & Hbody2 & Hr2 & _ & Hrun2).
    exists r2, s2. auto.
Qed.

Lemma run_once_after_failure :
  exists s',
    run_once Scenario.broken Scenario.state_A = (Raised (ExecutorError "overloaded"), s')
    /\ idle (lock (self s'))
    /\ exists s'', run_once Scenario.reply s' = (Ok tt, s'')
                   /\ idle (lock (self s'')).
Proof.
  destruct (run_once_releases_lock Scenario.broken Scenario.state_A eq_refl eq_refl)
    as (r & s' & Hrun & _ & Hidle & Hraise & Hnext).
  rewrite (Hraise (ExecutorError "overloaded") eq_refl) in Hrun.
  exists s'. split; [exact Hrun|]. split; [exact Hidle|].
  destruct (Hnext Scenario.reply) as (r2 & s2 & Hbody & _ & Hrun2).
  exists (with_lock (mkLock false []) s2). split; [|reflexivity].
  rewrite Hrun2. f_equal.
  assert (s' = snd (run_once Scenario.broken Scenario.state_A)) as ->
    by (rewrite Hrun; reflexivity).
  assert (r2 = fst (run_once_body Scenario.reply
                      (with_lock (mkLock true [])
                         (snd (run_once Scenario.broken Scenario.state_A))))) as ->
    by (rewrite Hbody; reflexivity).
  vm_compute. reflexivity.
Defined.

(** ** Dicts *)

Lemma dict_get_set_eq k v kvs : dict_get k (dict_set k v kvs) = Some v.
Proof.
  induction kvs as [|[k' v'] kvs IH]; simpl.
  - rewrite String.eqb_refl. reflexivity.
  - destruct (String.eqb k k') eqn:E; simpl; rewrite E; [reflexivity | exact IH].
Qed.

Lemma dict_get_set_ne k k' v kvs :
  k <> k' -> dict_get k (dict_set k' v kvs) = dict_get k kvs.
Proof.
  intros Hne. induction kvs as [|[k0 v0] kvs IH]; simpl.
  - apply String.eqb_neq in Hne. rewrite Hne. reflexivity.
  - destruct (String.eqb k' k0) eqn:E; simpl.
    + apply String.eqb_eq in E. subst k0.
      apply String.eqb_neq in Hne. rewrite Hne. reflexivity.
    + rewrite IH. reflexivity.
Qed.

Lemma dict_get_update_other k base extra :
  k ∉ map fst extra -> dict_get k (dict_update base extra) = dict_get k base.
Proof.
  unfold dict_update. revert base.
  induction extra as [|[k0 v0] extra IH]; intros base Hk; simpl; [reflexivity|].
  simpl in Hk. apply not_elem_of_cons in Hk as [Hne Hk].
  rewrite IH by exact Hk. apply dict_get_set_ne. exact Hne.
Qed.

(** [{**base, **extra}] has every item of [extra]. *)
Lemma dict_update_carries k v base extra :
  NoDup (map fst extra) ->
  dict_get k extra = Some v ->
  dict_get k (dict_update base extra) = Some v.
Proof.
  unfold dict_update. revert base.
  induction extra as [|[k0 v0] extra IH]; intros base Hnd Hget; simpl in *;
    [discriminate|].
  apply NoDup_cons in Hnd as [Hk0 Hnd].
  destruct (String.eqb k k0) eqn:E.
  - apply String.eqb_eq in E. subst k0. injection Hget as ->.
    pose proof (dict_get_update_other k (dict_set k v base) extra Hk0) as H.
    unfold dict_update in H. rewrite H. apply dict_get_set_eq.
  - apply IH; assumption.
Qed.

(** ** The end of a turn *)

Lemma is_str_true v s : is_str v s = true -> v = JStr s.
Proof.
  destruct v; simpl; try discriminate.
  intros ->%String.eqb_eq. reflexivity.
Qed.

Lemma last_is_assistant_true h :
  last_is_assistant h = true ->
  exists kvs, last h = Some (JDict kvs)
              /\ dict_get "role" kvs = Some (JStr "assistant").
Proof.
  unfold last_is_assistant.
  destruct (last h) as [ [ | ? | ? | ? | ? | kvs ] | ]; try discriminate.
  destruct (dict_get "role" kvs) as [role|] eqn:Hrole; [|discriminate].
  intros ->%is_str_true. eauto.
Qed.

Lemma ends_with_assistant_spec h s :
  Forall has_role h ->
  ends_with_assistant h s = (Ok (last_is_assistant h), s).
Proof.
  intros Hall. unfold ends_with_assistant, last_is_assistant.
  destruct (last h) as [m|] eqn:Hlast; [|reflexivity].
  apply last_Some in Hlast as [h' ->].
  rewrite Forall_app, Forall_singleton in Hall.
  destruct Hall as [_ (kvs & role & -> & Hrole)]. simpl. rewrite Hrole. reflexivity.
Qed.

(** ** A turn among the other tasks *)

Lemma undisturbed_refl s : undisturbed s s.
Proof. unfold undisturbed. repeat split. exists []. by rewrite app_nil_r. Qed.

Lemma undisturbed_trans s1 s2 s3 :
  undisturbed s1 s2 -> undisturbed s2 s3 -> undisturbed s1 s3.
Proof.
  intros (Hl & Hs & Hm & Ha & n1 & Hr) (Hl' & Hs' & Hm' & Ha' & n2 & Hr').
  unfold undisturbed. rewrite Hl', Hs', Hm', Ha', Hr', Hr.
  repeat split; try assumption. exists (n1 ++ n2). by rewrite app_assoc.
Qed.

Lemma bystander_undisturbed f s : bystander f -> undisturbed s (f s).
Proof. intros H. exact (H s). Qed.

Lemma dispatch_undisturbed c s : undisturbed s (snd (dispatch c s)).
Proof. unfold undisturbed. simpl. repeat split. exists []. by rewrite app_nil_r. Qed.

Section Runs.

Variable R : State -> State -> Prop.
Variable during : nat -> State -> State.
Hypothesis R_trans : forall s1 s2 s3, R s1 s2 -> R s2 s3 -> R s1 s3.
Hypothesis R_dispatch : forall c s, R s (snd (dispatch c s)).
Hypothesis R_during : forall k s, R s (during k s).

(** The executor's part of a turn always comes to its end, and whatever the
    others and the scheduling of tasks preserve is preserved by it. *)
Lemma sampling_loop_runs_spec k cs s :
  fst (sampling_loop_runs during k cs s) = Ok tt
  /\ R s (snd (sampling_loop_runs during k cs s)).
Proof.
  revert k s. induction cs as [|c cs IH]; intros k s; simpl.
  - split; [reflexivity | apply R_during].
  - run_coro. simpl. destruct (IH (S k) (snd (dispatch c (during k s)))) as [Hr HR].
    change (set_scheduled (scheduled (during k s) ++ [coroutine_of c]) (during k s))
      with (snd (dispatch c (during k s))).
    split; [exact Hr|].
    eapply R_trans; [apply R_during|]. eapply R_trans; [apply R_dispatch | exact HR].
Qed.

End Runs.

Lemma executor_back_undisturbed o t s :
  bystanders o ->
  undisturbed (with_lock (mkLock true []) s) (executor_back o t s).
Proof.
  intros (Hd & _). unfold executor_back.
  apply (proj2 (sampling_loop_runs_spec undisturbed (during_executor o)
                  undisturbed_trans dispatch_undisturbed (fun k s0 => Hd k s0)
                  0%nat (turn_callbacks t) (with_lock (mkLock true []) s))).
Qed.

Lemma await_sampling_loop_amid_spec o sampling_loop s :
  let t := sampling_loop (sampling_args (self s)) in
  await_sampling_loop_amid o sampling_loop (with_lock (mkLock true []) s)
  = (match turn_result t with
     | inl e => Raised e
     | inr new_messages => Ok new_messages
     end, executor_back o t s).
Proof.
  cbv zeta. unfold await_sampling_loop_amid, executor_back. run_coro.
  change (sampling_args (self (with_lock (mkLock true []) s)))
    with (sampling_args (self s)).
  set (t := sampling_loop (sampling_args (self s))).
  destruct (sampling_loop_runs_spec (fun _ _ => True) (during_executor o)
              (fun _ _ _ _ _ => I) (fun _ _ => I) (fun _ _ => I)
              0%nat (turn_callbacks t) (with_lock (mkLock true []) s)) as [Hr _].
  destruct (sampling_loop_runs _ _ _ _) as [r s1]. simpl in *. subst r.
  destruct (turn_result t); reflexivity.
Qed.

Lemma set_backend_same s : set_backend (backend s) s = s.
Proof. destruct s; reflexivity. Qed.

(** [upsert_message] among the others: the assertion fails before anything
    is awaited; otherwise the row is judged in the state the others left
    during the INSERT, and the session is closed on both ways out. *)
Lemma upsert_message_amid_cases o mid sid role content s :
  bystander (at_insert o) ->
  match AsyncSessionLocal (backend s) with
  | None => upsert_message_amid o mid sid role content s = (Raised AssertionError, s)
  | Some e =>
      let row := mkMessageRow mid sid role content
                              (clock (backend s) (clock_reads (backend s))) in
      let sI := at_insert o (set_backend (snd (utcnow (backend s))) s) in
      if accepts (backend sI) mid sid
      then upsert_message_amid o mid sid role content s
           = (Ok tt, at_exit o (touched sid (clock (backend sI) (clock_reads (backend sI)))
                                        (at_update o (inserted row sI))))
      else upsert_message_amid o mid sid role content s
           = (Raised (IntegrityError "messages"), at_exit o sI)
  end.
Proof.
  intros Hby.
  unfold upsert_message_amid, upsert_message_begin, db, assert_session_local.
  run_coro. destruct (AsyncSessionLocal (backend s)) as [e|] eqn:He;
    [|destruct s; reflexivity].
  cbv zeta. simpl.
  set (sI := at_insert o _).
  assert (AsyncSessionLocal (backend sI) = Some e) as HeI.
  { destruct (Hby (set_backend (snd (utcnow (backend s))) s)) as (_ & _ & _ & Ha & _).
    subst sI. unfold utcnow in *. simpl in *. rewrite Ha. exact He. }
  unfold accepts. rewrite HeI.
  unfold upsert_message_insert, upsert_message_update, utcnow, set_tables.
  run_coro. simpl.
  destruct (has_message mid (messages_rows (backend sI))); simpl;
    [rewrite set_backend_same; reflexivity|].
  destruct (enforces_foreign_keys e); simpl; [|reflexivity].
  destruct (has_session sid (sessions_rows (backend sI))); simpl;
    [reflexivity | rewrite set_backend_same; reflexivity].
Qed.

(** With nothing else running, the call is [upsert_message] as [db.py] has
    it. *)
Lemma upsert_message_amid_quiet mid sid role content s :
  upsert_message_amid quiet mid sid role content s
  = db (upsert_message mid sid role content) s.
Proof.
  unfold upsert_message_amid, upsert_message, upsert_message_begin,
    upsert_message_insert, upsert_message_update, db, assert_session_local,
    utcnow, set_tables.
  run_coro. simpl.
  destruct (AsyncSessionLocal (backend s)) as [e|]; [|reflexivity]. simpl.
  destruct (has_message mid (messages_rows (backend s))); simpl; [reflexivity|].
  destruct (enforces_foreign_keys e && negb (has_session sid (sessions_rows (backend s))));
    reflexivity.
Qed.

Lemma sampling_loop_runs_quiet k cs s :
  sampling_loop_runs (during_executor quiet) k cs s = dispatch_all cs s.
Proof.
  revert k s. induction cs as [|c cs IH]; intros k s; simpl; [reflexivity|].
  run_coro. simpl. apply IH.
Qed.

(** With nothing else running, the turn is [run_once] taken in one
    stretch. *)
Lemma run_once_amid_quiet sampling_loop s :
  run_once_amid quiet sampling_loop s = run_once sampling_loop s.
Proof.
  unfold run_once_amid, run_once, async_with_lock.
  destruct (Lock_try_acquire (lock (self s))) as [l|]; [|reflexivity].
  assert (forall s0, run_once_body_amid quiet sampling_loop s0
                     = run_once_body sampling_loop s0) as ->; [|reflexivity].
  intros s0. unfold run_once_body_amid, run_once_body, await_sampling_loop_amid,
    await_sampling_loop.
  run_coro. rewrite sampling_loop_runs_quiet.
  destruct (dispatch_all _ s0) as [[[]|e|] s1]; try reflexivity.
  destruct (turn_result _) as [e|h]; [reflexivity|].
  destruct (ends_with_assistant h s1) as [[[|]|e|] s1']; try reflexivity.
  destruct (last h) as [assistant|]; [|reflexivity].
  unfold uuid4. simpl. rewrite upsert_message_amid_quiet. reflexivity.
Qed.

Lemma undisturbed_stamped s : undisturbed s (stamped s).
Proof. unfold undisturbed. simpl. repeat split. exists []. by rewrite app_nil_r. Qed.

Lemma undisturbed_inserted row s : undisturbed s (inserted row s).
Proof. unfold undisturbed. simpl. repeat split. by exists [row]. Qed.

Lemma undisturbed_touched sid t s : undisturbed s (touched sid t s).
Proof. unfold undisturbed. simpl. repeat split. exists []. by rewrite app_nil_r. Qed.

Lemma undisturbed_rows s s' r :
  undisturbed s s' -> r ∈ messages_rows (backend s) -> r ∈ messages_rows (backend s').
Proof. intros (_ & _ & _ & _ & new & ->) Hr. apply elem_of_app. by left. Qed.

(** The states in which a persisting turn is resumed after each await of
    [upsert_message], and what they have kept. *)
Lemma persisting_undisturbed o row sid t s :
  bystanders o ->
  let sI := at_insert o (stamped s) in
  let sC := at_exit o (touched sid t (at_update o (inserted row sI))) in
  undisturbed s sC /\ row ∈ messages_rows (backend sC).
Proof.
  intros (_ & Hi & Hu & Hx). cbv zeta.
  set (sI := at_insert o (stamped s)).
  assert (undisturbed s sI) as H1.
  { eapply undisturbed_trans; [apply undisturbed_stamped | apply Hi]. }
  assert (undisturbed (inserted row sI)
            (at_exit o (touched sid t (at_update o (inserted row sI))))) as H2.
  { eapply undisturbed_trans; [apply Hu|].
    eapply undisturbed_trans; [apply undisturbed_touched | apply Hx]. }
  split.
  - eapply undisturbed_trans; [exact H1|].
    eapply undisturbed_trans; [apply undisturbed_inserted | exact H2].
  - eapply undisturbed_rows; [exact H2|]. simpl. apply elem_of_app. right. left.
Qed.

Lemma leave_rows_back o t s :
  leave_rows o ->
  messages_rows (backend (executor_back o t s)) = messages_rows (backend s).
Proof.
  intros Ho. unfold executor_back.
  refine (proj2 (sampling_loop_runs_spec
                   (fun s s' => messages_rows (backend s') = messages_rows (backend s))
                   (during_executor o) _ _ _ 0%nat (turn_callbacks t)
                   (with_lock (mkLock true []) s))).
  - intros s1 s2 s3 H1 H2. congruence.
  - reflexivity.
  - intros k s0. apply Ho. eauto 10.
Qed.

Lemma leave_queue_back o t s :
  leave_queue o ->
  items (queue (self (executor_back o t s))) = items (queue (self s)).
Proof.
  intros Ho. unfold executor_back.
  refine (proj2 (sampling_loop_runs_spec
                   (fun s s' => items (queue (self s')) = items (queue (self s)))
                   (during_executor o) _ _ _ 0%nat (turn_callbacks t)
                   (with_lock (mkLock true []) s))).
  - intros s1 s2 s3 H1 H2. congruence.
  - reflexivity.
  - intros k s0. apply Ho. eauto 10.
Qed.

Lemma leave_rows_persisting o row sid t s :
  leave_rows o ->
  let sI := at_insert o (stamped s) in
  messages_rows (backend (at_exit o (touched sid t (at_update o (inserted row sI)))))
  = messages_rows (backend s) ++ [row].
Proof.
  intros Ho. cbv zeta.
  rewrite (Ho (at_exit o)) by auto. simpl.
  rewrite (Ho (at_update o)) by auto. simpl.
  rewrite (Ho (at_insert o)) by auto. reflexivity.
Qed.

Lemma leave_queue_persisting o row sid t s :
  leave_queue o ->
  let sI := at_insert o (stamped s) in
  items (queue (self (at_exit o (touched sid t (at_update o (inserted row sI))))))
  = items (queue (self s)).
Proof.
  intros Ho. cbv zeta.
  rewrite (Ho (at_exit o)) by auto. simpl.
  rewrite (Ho (at_update o)) by auto. simpl.
  rewrite (Ho (at_insert o)) by auto. reflexivity.
Qed.

(** The turn as a whole, from a free lock, among the others: what it does
    once the executor has come back with [h] in the state [s1]. *)
Lemma final_assistant_persisted o sampling_loop s h :
  idle (lock (self s)) ->
  unbounded s ->
  bystanders o ->
  let t := sampling_loop (sampling_args (self s)) in
  turn_result t = inr h ->
  Forall has_role h ->
  let sid := session_id (self s) in
  let s1 := executor_back o t s in
  let mid := next_uuid s1 in
  let sI := at_insert o (stamped s1) in
  (last_is_assistant h = true -> accepts (backend sI) mid sid = true) ->
  exists s2,
    run_once_amid o sampling_loop s = (Ok tt, s2)
    /\ messages (self s2) = h
    /\ _locked (lock (self s2)) = false
    /\ if last_is_assistant h then
         exists kvs,
           last h = Some (JDict kvs)
           /\ let row := mkMessageRow mid sid "assistant" (JDict kvs)
                                      (clock (backend s1) (clock_reads (backend s1))) in
              let ev := mkEvent "message" (JDict (dict_update [("id", JStr mid)] kvs)) in
              let sU := at_update o (inserted row sI) in
              let sC := at_exit o (touched sid (clock (backend sI) (clock_reads (backend sI)))
                                           sU) in
              backend s2 = backend sC
              /\ scheduled s2 = scheduled sC
              /\ items (queue (self s2)) = items (queue (self sC)) ++ [ev]
              /\ row ∈ messages_rows (backend s2)
              /\ (leave_rows o ->
                  messages_rows (backend s2) = messages_rows (backend s) ++ [row])
              /\ (leave_queue o ->
                  items (queue (self s2)) = items (queue (self s)) ++ [ev])
       else
         backend s2 = backend s1
         /\ scheduled s2 = scheduled s1
         /\ queue (self s2) = queue (self s1)
         /\ (leave_rows o -> messages_rows (backend s2) = messages_rows (backend s))
         /\ (leave_queue o -> items (queue (self s2)) = items (queue (self s))).
Proof.
  intros Hidle Hunb Hby t Hres Hall sid s1 mid sI Hacc.
  pose proof (executor_back_undisturbed o t s Hby) as Hback.
  fold s1 in Hback. pose proof Hback as (Hl1 & Hsid1 & Hmax1 & Ha1 & _).
  simpl in Hl1, Hsid1, Hmax1, Ha1.
  unfold run_once_amid, async_with_lock. rewrite Hidle. simpl.
  change (set_self (set_lock (mkLock true []) (self s)) s)
    with (with_lock (mkLock true []) s).
  unfold run_once_body_amid. run_coro.
  rewrite await_sampling_loop_amid_spec. fold t s1. rewrite Hres.
  rewrite (ends_with_assistant_spec h s1 Hall).
  destruct (last_is_assistant h) eqn:Hlast.
  - destruct (last_is_assistant_true h Hlast) as (kvs & Hl & _). rewrite Hl.
    unfold uuid4. simpl. rewrite Hsid1. fold sid.
    specialize (Hacc eq_refl).
    pose proof Hby as (_ & Hi & _).
    pose proof (upsert_message_amid_cases o mid sid "assistant" (JDict kvs)
                  (mkState (self s1) (backend s1) (uuid_src s1) (S (uuid_drawn s1))
                           (scheduled s1)) Hi) as Hup.
    cbv zeta in Hup. simpl in Hup.
    change (at_insert o _) with sI in Hup.
    assert (exists e, AsyncSessionLocal (backend s1) = Some e) as [e He].
    { destruct (Hi (stamped s1)) as (_ & _ & _ & Ha & _). fold sI in Ha. simpl in Ha.
      unfold accepts in Hacc. rewrite Ha in Hacc.
      destruct (AsyncSessionLocal (backend s1)); [eauto | discriminate]. }
    rewrite He, Hacc in Hup. unfold next_uuid in mid. fold mid. rewrite Hup.
    set (row := mkMessageRow mid sid "assistant" (JDict kvs) _).
    set (sC := at_exit o _).
    destruct (persisting_undisturbed o row sid
                (clock (backend sI) (clock_reads (backend sI))) s1 Hby)
      as [HC Hrow].
    fold sI in HC, Hrow. fold sC in HC, Hrow.
    pose proof HC as (HlC & _ & HmaxC & _).
    assert (unbounded sC) as HunbC.
    { unfold unbounded in *. rewrite HmaxC, Hmax1. exact Hunb. }
    rewrite emit_unbounded by exact HunbC. simpl.
    unfold Lock_release. simpl. rewrite HlC, Hl1. simpl.
    eexists. split; [reflexivity|]. simpl.
    split; [reflexivity|]. split; [reflexivity|].
    exists kvs. split; [reflexivity|].
    split; [reflexivity|]. split; [reflexivity|]. split; [reflexivity|].
    split; [exact Hrow|]. split.
    + intros Ho. subst sC.
      rewrite (leave_rows_persisting o row sid _ s1 Ho).
      unfold s1. rewrite (leave_rows_back o t s Ho). reflexivity.
    + intros Ho. subst sC.
      rewrite (leave_queue_persisting o row sid _ s1 Ho).
      unfold s1. rewrite (leave_queue_back o t s Ho). reflexivity.
  - destruct (last h); simpl; unfold Lock_release; simpl; rewrite Hl1; simpl;
      (eexists; split; [reflexivity|]; simpl;
       split; [reflexivity|]; split; [reflexivity|];
       split; [reflexivity|]; split; [reflexivity|]; split; [reflexivity|];
       split; [intros Ho; apply leave_rows_back; exact Ho
              |intros Ho; apply leave_queue_back; exact Ho]).
Qed.


Lemma quiet_bystanders : bystanders quiet.
Proof. repeat split; intros; apply undisturbed_refl. Qed.




(** *** A tool result reported during the turn *)

Lemma db_undisturbed {A} (m : M Backend A) s :
  (forall b, AsyncSessionLocal (snd (m b)) = AsyncSessionLocal b
             /\ exists new_rows, messages_rows (snd (m b)) = messages_rows b ++ new_rows) ->
  undisturbed s (snd (db m s)).
Proof.
  intros Hm. unfold db. run_coro. destruct (Hm (backend s)) as (Ha & new & Hrows).
  destruct (m (backend s)) as [r b']. unfold undisturbed. simpl in *.
  rewrite Ha, Hrows. eauto 10.
Qed.

Lemma tool_task_amid_bystanders : bystanders Later.tool_task_amid.
Proof.
  split; [intros k s; apply undisturbed_refl|]. split; [|split]; intros s.
  - apply (undisturbed_trans s (snd (uuid4 (set_scheduled (tail (scheduled s)) s)))).
    { unfold undisturbed. simpl. repeat split. exists []. by rewrite app_nil_r. }
    apply (db_undisturbed
             (upsert_message_begin
                (uuid_src s (uuid_drawn s)) "a-uuid" "tool"
                (tool_msg (uuid_src s (uuid_drawn s)) Scenario.screenshot "toolu_01"))).
    intros b. unfold upsert_message_begin, assert_session_local, utcnow. run_coro.
    destruct (AsyncSessionLocal b) eqn:He; simpl; rewrite ?He;
      (split; [reflexivity|]); exists []; by rewrite app_nil_r.
  - apply (db_undisturbed
             (upsert_message_insert
                Scenario.engine
                (mkMessageRow "d-uuid" "a-uuid" "tool"
                              (tool_msg "d-uuid" Scenario.screenshot "toolu_01") 1004))).
    intros b. unfold upsert_message_insert, utcnow, set_tables. run_coro. simpl.
    destruct (has_message "d-uuid" (messages_rows b)); simpl;
      (split; [reflexivity|]); [exists []; by rewrite app_nil_r | eauto].
  - apply (db_undisturbed (upsert_message_update "a-uuid" 1006)).
    intros b. unfold upsert_message_update, set_tables.
    run_coro. simpl. split; [reflexivity|]. exists []. by rewrite app_nil_r.
Qed.

(** The turn that reports a tool result and answers, after scenario A: the
    assistant message gets the id and the stamp drawn first, the tool
    message those drawn next, and the tool message's event is still to
    come when the turn returns. *)
Lemma tool_result_turn_scenario :
  exists s2,
    run_once_amid Later.tool_task_amid Later.tool_then_reply Scenario.state_A
    = (Ok tt, s2)
    /\ map (fun r => (m_id r, m_role r, m_created_at r)) (messages_rows (backend s2))
       = [("b-uuid", "user", 1001); ("c-uuid", "assistant", 1003);
          ("d-uuid", "tool", 1004)]
    /\ last (items (queue (self s2)))
       = Some (mkEvent "message"
                 (JDict [("id", JStr "c-uuid"); ("role", JStr "assistant");
                         ("content", JList [Scenario.text_block "hello back"])]))
    /\ length (items (queue (self s2))) = 2%nat
    /\ length (messages (self s2)) = 2%nat.
Proof.
  assert (Forall has_role (messages (self Scenario.state_A) ++ [Scenario.hello_back]))
    as Hall.
  { repeat constructor; eexists _, _; (split; [reflexivity|]); reflexivity. }
  destruct (final_assistant_persisted
              Later.tool_task_amid Later.tool_then_reply Scenario.state_A
              (messages (self Scenario.state_A) ++ [Scenario.hello_back])
              eq_refl eq_refl tool_task_amid_bystanders eq_refl Hall (fun _ => eq_refl))
    as (s2 & Hrun & Hm & _ & Hlast).
  exists s2. split; [exact Hrun|].
  change (last_is_assistant _) with true in Hlast. cbv iota in Hlast.
  destruct Hlast as (kvs & Hl & Hb & _ & Hq & _). injection Hl as <-.
  split; [rewrite Hb; vm_compute; reflexivity|].
  split; [rewrite Hq; vm_compute; reflexivity|].
  split; [rewrite Hq; vm_compute; reflexivity | rewrite Hm; reflexivity].
Qed.

(** ** Assistant chunks *)

(** A task of the coordinator is a bystander of every turn. *)
Lemma body_of_undisturbed coro s : undisturbed s (snd (body_of coro s)).
Proof.
  destruct (body_of_kept coro s) as (Hl & Hs & Hm).
  unfold undisturbed. rewrite Hl, Hs, Hm.
  split; [reflexivity|]. split; [reflexivity|]. split; [reflexivity|].
  destruct coro as [block|result tool_id|req res err]; simpl.
  - unfold on_output. destruct (emit_cases "assistant_chunk" (JDict [("block", block)]) s)
      as [->|[-> _]]; simpl; (split; [reflexivity|]); exists []; by rewrite app_nil_r.
  - unfold on_tool_output, uuid4, db. run_coro. simpl.
    set (mid := uuid_src s (uuid_drawn s)).
    destruct (upsert_message_cases mid (session_id (self s)) "tool"
                (tool_msg mid result tool_id) (backend s))
      as [[_ ->]|[_ (e & b' & -> & _ & Hms & Ha)]]; simpl.
    + match goal with |- context [_emit ?ev ?d ?s0] =>
        destruct (emit_cases ev d s0) as [->|[-> _]]
      end; simpl; (split; [reflexivity|]); eexists; reflexivity.
    + split; [exact Ha|]. exists []. rewrite app_nil_r. exact Hms.
  - unfold on_api_response.
    match goal with |- context [_emit ?ev ?d ?s0] =>
      destruct (emit_cases ev d s0) as [->|[-> _]]
    end; simpl; (split; [reflexivity|]); exists []; by rewrite app_nil_r.
Qed.

Lemma start_task_bystander : bystander start_task.
Proof.
  intros s. unfold start_task. destruct (scheduled s) as [|coro rest];
    [apply undisturbed_refl|].
  eapply undisturbed_trans; [|apply body_of_undisturbed].
  unfold undisturbed. simpl. repeat split. exists []. by rewrite app_nil_r.
Qed.

Lemma start_tasks_bystander n : bystander (start_tasks n).
Proof.
  induction n as [|n IH]; intros s; simpl; [apply undisturbed_refl|].
  eapply undisturbed_trans; [apply start_task_bystander | apply IH].
Qed.

Lemma tasks_run_bystanders n n_insert n_update n_exit :
  bystanders (tasks_run n n_insert n_update n_exit).
Proof. repeat split; intros; apply start_tasks_bystander. Qed.

(** *** Chunk tasks, started one by one *)

Lemma chunks_at_nothing blocks l s :
  scheduled s = [] -> chunks_at blocks 0 0 (with_lock l s) = with_lock l s.
Proof.
  destruct s as [[sid md tv ak sps pv ms [mx its] lk] b us ud cs]. simpl.
  intros ->. unfold chunks_at, with_lock. simpl. rewrite app_nil_r. reflexivity.
Qed.

Lemma start_task_chunk blocks j m s :
  unbounded s -> (m < j)%nat -> (j <= length blocks)%nat ->
  start_task (chunks_at blocks j m s) = chunks_at blocks j (S m) s.
Proof.
  intros Hunb Hm Hj.
  destruct (lookup_lt_is_Some_2 blocks m) as [b Hb]; [lia|].
  assert (take j blocks !! m = Some b) as Hb'.
  { rewrite lookup_take_lt by lia. exact Hb. }
  unfold start_task, chunks_at. simpl.
  rewrite (drop_S _ _ _ Hb'). simpl.
  unfold on_output, _emit, queue_put, Queue_put, full. run_coro. simpl.
  unfold unbounded in Hunb. rewrite Hunb. simpl.
  rewrite (take_S_r _ _ _ Hb), map_app, app_assoc. reflexivity.
Qed.

Lemma start_task_no_chunk blocks j s :
  (j <= length blocks)%nat ->
  start_task (chunks_at blocks j j s) = chunks_at blocks j j s.
Proof.
  intros Hj. unfold start_task, chunks_at. simpl.
  rewrite drop_ge by (rewrite length_take; lia). reflexivity.
Qed.

Lemma start_tasks_chunks n blocks j m s :
  unbounded s -> (m <= j)%nat -> (j <= length blocks)%nat ->
  exists m', (m <= m')%nat /\ (m' <= j)%nat
             /\ start_tasks n (chunks_at blocks j m s) = chunks_at blocks j m' s.
Proof.
  intros Hunb. revert m. induction n as [|n IH]; intros m Hm Hj; simpl.
  - exists m. auto.
  - destruct (decide (m = j)) as [->|Hne].
    + rewrite start_task_no_chunk by exact Hj. apply IH; auto.
    + rewrite start_task_chunk by (auto; lia).
      destruct (IH (S m)) as (m' & H1 & H2 & H3); [lia | exact Hj|].
      exists m'. split; [lia|]. auto.
Qed.

Lemma dispatch_chunk blocks j m b s :
  blocks !! j = Some b -> (m <= j)%nat ->
  dispatch (output_callback b) (chunks_at blocks j m s)
  = (Ok tt, chunks_at blocks (S j) m s).
Proof.
  intros Hb Hm. pose proof (lookup_lt_Some _ _ _ Hb) as Hlt.
  unfold dispatch, create_task, chunks_at. run_coro. simpl.
  rewrite (take_S_r _ _ _ Hb).
  rewrite drop_app_le by (rewrite length_take; lia).
  rewrite map_app. reflexivity.
Qed.

Lemma sampling_loop_runs_cons during k c cs s :
  sampling_loop_runs during k (c :: cs) s
  = sampling_loop_runs during (S k) cs (snd (dispatch c (during k s))).
Proof. reflexivity. Qed.

(** The executor's part of a turn that streams chunks, while the loop
    starts tasks as it pleases. *)
Lemma sampling_loop_runs_chunks n blocks s :
  unbounded s ->
  forall rest j m k,
    drop j blocks = rest -> (m <= j)%nat -> (j <= length blocks)%nat ->
    exists m', (m <= m')%nat /\ (m' <= length blocks)%nat
      /\ sampling_loop_runs (fun k => start_tasks (n k)) k (map output_callback rest)
                            (chunks_at blocks j m s)
         = (Ok tt, chunks_at blocks (length blocks) m' s).
Proof.
  intros Hunb rest. induction rest as [|b rest IH]; intros j m k Hrest Hm Hj.
  - simpl. assert (j = length blocks) as ->.
    { apply (f_equal length) in Hrest. rewrite length_drop in Hrest. simpl in Hrest. lia. }
    run_coro.
    destruct (start_tasks_chunks (n k) blocks (length blocks) m s Hunb Hm Hj)
      as (m' & H1 & H2 & ->).
    exists m'. auto.
  - assert (blocks !! j = Some b) as Hb.
    { rewrite <- (Nat.add_0_r j), <- lookup_drop, Hrest. reflexivity. }
    assert (drop (S j) blocks = rest) as Hrest'.
    { rewrite (drop_S _ _ _ Hb) in Hrest. by injection Hrest. }
    assert (j < length blocks)%nat as Hlt by (eapply lookup_lt_Some; exact Hb).
    cbn [map]. rewrite sampling_loop_runs_cons.
    destruct (start_tasks_chunks (n k) blocks j m s Hunb Hm Hj) as (m1 & H1 & H2 & ->).
    rewrite (dispatch_chunk blocks j m1 b s Hb H2). simpl.
    destruct (IH (S j) m1 (S k) Hrest') as (m' & H3 & H4 & ->); [lia | lia|].
    exists m'. split; [lia|]. auto.
Qed.

(** The chunk tasks the loop starts while a persisting turn awaits
    [upsert_message]. *)
Lemma chunk_tasks_while_persisting ni nu nx blocks m row sid s :
  unbounded s -> (m <= length blocks)%nat ->
  let sI := start_tasks ni (stamped (chunks_at blocks (length blocks) m s)) in
  exists m', (m <= m')%nat /\ (m' <= length blocks)%nat
    /\ backend sI = backend (stamped s)
    /\ start_tasks nx (touched sid (clock (backend sI) (clock_reads (backend sI)))
                               (start_tasks nu (inserted row sI)))
       = chunks_at blocks (length blocks) m'
                   (touched sid (clock (backend s) (S (clock_reads (backend s))))
                            (inserted row (stamped s))).
Proof.
  intros Hunb Hm. cbv zeta.
  change (stamped (chunks_at blocks (length blocks) m s))
    with (chunks_at blocks (length blocks) m (stamped s)).
  destruct (start_tasks_chunks ni blocks (length blocks) m (stamped s))
    as (m2 & H1 & H2 & ->); [exact Hunb | exact Hm | lia|].
  change (inserted row (chunks_at blocks (length blocks) m2 (stamped s)))
    with (chunks_at blocks (length blocks) m2 (inserted row (stamped s))).
  destruct (start_tasks_chunks nu blocks (length blocks) m2 (inserted row (stamped s)))
    as (m3 & H3 & H4 & ->); [exact Hunb | exact H2 | lia|].
  simpl (backend (chunks_at _ _ _ _)).
  simpl (clock _). simpl (clock_reads _).
  change (touched sid ?t (chunks_at blocks (length blocks) m3 ?x))
    with (chunks_at blocks (length blocks) m3 (touched sid t x)).
  destruct (start_tasks_chunks nx blocks (length blocks) m3
              (touched sid (clock (backend s) (S (clock_reads (backend s))))
                       (inserted row (stamped s))))
    as (m4 & H5 & H6 & ->); [exact Hunb | exact H4 | lia|].
  exists m4. split; [lia|]. split; [exact H6|]. split; reflexivity.
Qed.

(** C9. On a coordinator with its unbounded queue, the coroutine of a
    chunk callback pushes one [assistant_chunk] event for its block and
    writes nothing: the database module and the in-memory history are
    exactly as before; and the callback itself only schedules that
    coroutine as a task.  Over a whole turn whose callbacks are chunks
    only, however many of the scheduled tasks the loop starts at each
    suspension of the turn: when [run_once] returns, the messages table has
    gained the one row of the final assistant message when the returned
    history ends with one (and the database takes it), and no row at all
    otherwise; the chunks whose tasks have run are in the queue, in the
    order of the callbacks, before the [message] event of the assistant
    message; and the tasks of the other chunks are still scheduled. *)
Theorem chunks_are_not_persisted s :
  unbounded s ->
  (forall block, exists s',
      on_output block s = (Ok tt, s')
      /\ backend s' = backend s
      /\ messages (self s') = messages (self s)
      /\ items (queue (self s'))
         = items (queue (self s))
             ++ [mkEvent "assistant_chunk" (JDict [("block", block)])])
  /\ (forall block,
        dispatch (output_callback block) s
        = (Ok tt, set_scheduled (scheduled s ++ [on_output_coro block]) s))
  /\ (forall sampling_loop blocks h n n_insert n_update n_exit,
        idle (lock (self s)) ->
        scheduled s = [] ->
        sampling_loop (sampling_args (self s))
          = mkTurn (map output_callback blocks) (inr h) ->
        Forall has_role h ->
        (last_is_assistant h = true ->
         accepts (backend s) (next_uuid s) (session_id (self s)) = true) ->
        exists s2 m,
          run_once_amid (tasks_run n n_insert n_update n_exit) sampling_loop s
          = (Ok tt, s2)
          /\ messages_rows (backend s2)
             = messages_rows (backend s)
                 ++ match last h with
                    | Some assistant =>
                        if last_is_assistant h
                        then [mkMessageRow (next_uuid s) (session_id (self s))
                                           "assistant" assistant
                                           (clock (backend s) (clock_reads (backend s)))]
                        else []
                    | None => []
                    end
          /\ (m <= length blocks)%nat
          /\ map event (items (queue (self s2)))
             = map event (items (queue (self s)))
                 ++ repeat "assistant_chunk" m
                 ++ (if last_is_assistant h then ["message"] else [])
          /\ (forall ev, ev ∈ items (queue (self s2)) ->
                         event ev = "assistant_chunk" ->
                         ev ∈ items (queue (self s)) \/ ev ∈ map chunk_event (take m blocks))
          /\ scheduled s2 = map on_output_coro (drop m blocks)).
Proof.
  intros Hunb. split; [|split].
  - intros block. unfold on_output. rewrite emit_unbounded by exact Hunb.
    eexists. split; [reflexivity|]. simpl. auto.
  - reflexivity.
  - intros sampling_loop blocks h n n_insert n_update n_exit Hidle Hsch Hturn Hall Hacc.
    set (o := tasks_run n n_insert n_update n_exit).
    set (held := with_lock (mkLock true []) s).
    assert (unbounded held) as Hunbh by exact Hunb.
    destruct (sampling_loop_runs_chunks n blocks held Hunbh blocks 0%nat 0%nat 0%nat)
      as (m1 & _ & Hm1 & Hback); [reflexivity | lia | lia|].
    unfold held in Hback at 1. rewrite (chunks_at_nothing blocks _ s Hsch) in Hback.
    assert (executor_back o (mkTurn (map output_callback blocks) (inr h)) s
            = chunks_at blocks (length blocks) m1 held) as Hs1.
    { exact (f_equal snd Hback). }
    destruct (chunk_tasks_while_persisting n_insert n_update n_exit blocks m1
                (mkMessageRow (next_uuid s) (session_id (self s)) "assistant"
                   (default JNull (last h))
                   (clock (backend s) (clock_reads (backend s))))
                (session_id (self s)) held Hunbh Hm1)
      as (m4 & H14 & Hm4 & HbI & HsC).
    destruct (final_assistant_persisted o sampling_loop s h Hidle Hunb
                (tasks_run_bystanders n n_insert n_update n_exit))
      as (s2 & Hrun & _ & _ & Hlast).
    { rewrite Hturn. reflexivity. }
    { exact Hall. }
    { rewrite Hturn, Hs1. simpl (at_insert o). rewrite HbI. exact Hacc. }
    rewrite Hturn, Hs1 in Hlast. simpl (at_insert o) in Hlast.
    simpl (at_update o) in Hlast. simpl (at_exit o) in Hlast.
    assert (forall k, map event (map chunk_event (take k blocks))
                      = repeat "assistant_chunk" (length (take k blocks))) as Hchunks.
    { intros k. induction (take k blocks); simpl; [reflexivity | f_equal; assumption]. }
    destruct (last_is_assistant h) eqn:Hla.
    + destruct Hlast as (kvs & Hl & Hb & Hsc & Hq & _).
      rewrite Hl in HsC. simpl (default _ _) in HsC.
      change (next_uuid (chunks_at blocks (length blocks) m1 held)) with (next_uuid s)
        in Hb, Hsc, Hq.
      change (backend (chunks_at blocks (length blocks) m1 held)) with (backend s)
        in Hb, Hsc, Hq.
      rewrite HsC in Hb, Hsc, Hq.
      exists s2, m4. split; [exact Hrun|]. rewrite Hl.
      split; [rewrite Hb; reflexivity|]. split; [exact Hm4|].
      split; [|split].
      * rewrite Hq. simpl. rewrite !map_app, Hchunks, length_take, <- app_assoc.
        replace (m4 `min` length blocks)%nat with m4 by lia. reflexivity.
      * intros ev Hev Hchunk. rewrite Hq in Hev. simpl in Hev.
        apply elem_of_app in Hev as [Hev|Hev].
        -- apply elem_of_app in Hev. exact Hev.
        -- apply list_elem_of_singleton in Hev. subst ev. discriminate.
      * rewrite Hsc. simpl. rewrite take_ge by lia. reflexivity.
    + destruct Hlast as (Hb & Hsc & Hq & _).
      exists s2, m1. split; [exact Hrun|].
      split; [rewrite Hb; simpl; destruct (last h); rewrite app_nil_r; reflexivity|].
      split; [exact Hm1|]. split; [|split].
      * rewrite Hq. simpl. rewrite map_app, Hchunks, length_take, app_nil_r.
        replace (m1 `min` length blocks)%nat with m1 by lia. reflexivity.
      * intros ev Hev _. rewrite Hq in Hev. simpl in Hev.
        apply elem_of_app in Hev. exact Hev.
      * rewrite Hsc. simpl. rewrite take_ge by lia. reflexivity.
Qed.

(** Two chunks and the answer; the loop starts both chunk tasks while the
    turn awaits the INSERT of the assistant message. *)
Lemma streaming_turn_scenario :
  exists s2,
    run_once_amid (tasks_run (fun _ => 0%nat) 2 0 0) Scenario.streaming Scenario.state_A
    = (Ok tt, s2)
    /\ map m_role (messages_rows (backend s2)) = ["user"; "assistant"]
    /\ map event (items (queue (self s2)))
       = ["message"; "assistant_chunk"; "assistant_chunk"; "message"]
    /\ scheduled s2 = [].
Proof.
  assert (Forall has_role (messages (self Scenario.state_A) ++ [Scenario.hello_back]))
    as Hall.
  { repeat constructor; eexists _, _; (split; [reflexivity|]); reflexivity. }
  destruct (proj2 (proj2 (chunks_are_not_persisted Scenario.state_A eq_refl))
              Scenario.streaming
              [Scenario.text_block "hello"; Scenario.text_block " back"]
              (messages (self Scenario.state_A) ++ [Scenario.hello_back])
              (fun _ => 0%nat) 2%nat 0%nat 0%nat
              eq_refl eq_refl eq_refl Hall (fun _ => eq_refl))
    as (s2 & m & Hrun & Hrows & Hm & Hq & _ & Hsc).
  assert (scheduled (snd (run_once_amid (tasks_run (fun _ => 0%nat) 2 0 0)
                                        Scenario.streaming Scenario.state_A)) = [])
    as Hleft by (vm_compute; reflexivity).
  rewrite Hrun in Hleft. simpl in Hleft. rewrite Hsc in Hleft.
  assert (m = 2%nat) as ->.
  { destruct m as [|[|[|m]]]; simpl in *; try discriminate; [reflexivity | lia]. }
  exists s2. split; [exact Hrun|].
  split; [rewrite Hrows; reflexivity|].
  split; [rewrite Hq; reflexivity | rewrite Hsc; reflexivity].
Defined.

(** ** The event queue *)

Lemma event_stream_attached json_dumps s :
  match items (queue (self s)) with
  | [] => fst (event_stream json_dumps false s) = Suspended
          /\ items (queue (self (snd (event_stream json_dumps false s)))) = []
  | ev :: rest =>
      fst (event_stream json_dumps false s) = Ok (Some (sse_payload json_dumps ev))
      /\ items (queue (self (snd (event_stream json_dumps false s)))) = rest
  end
  /\ maxsize (queue (self (snd (event_stream json_dumps false s))))
     = maxsize (queue (self s)).
Proof.
  unfold event_stream, sse_iter, queue_get, Queue_get. run_coro. simpl.
  destruct (items (queue (self s))) as [|ev rest] eqn:Hits; simpl; rewrite ?Hits; auto.
Qed.

(** C8. On the unbounded queue of a coordinator, after any sequence of
    pushes by the coordinator and pulls by the attached client: the queue
    is still unbounded and the next push returns at once with its event
    appended at the end; and the frames the client received are the frames
    of a list [taken] of events such that the events that were in the queue
    at the start followed by those pushed since, in push order, are exactly
    [taken] followed by what is still queued: delivery is in push order,
    nothing twice, nothing left out. *)
Theorem events_delivered_in_push_order json_dumps ops s :
  unbounded s ->
  let s' := snd (drive json_dumps ops s) in
  unbounded s'
  /\ (forall ev d, exists s'',
        _emit ev d s' = (Ok tt, s'')
        /\ items (queue (self s'')) = items (queue (self s')) ++ [mkEvent ev d])
  /\ exists taken,
       fst (drive json_dumps ops s) = map (sse_payload json_dumps) taken
       /\ items (queue (self s)) ++ pushed ops = taken ++ items (queue (self s')).
Proof.
  intros Hunb s'.
  assert (unbounded s'
          /\ exists taken,
               fst (drive json_dumps ops s) = map (sse_payload json_dumps) taken
               /\ items (queue (self s)) ++ pushed ops
                  = taken ++ items (queue (self s'))) as [Hunb' Htaken].
  { subst s'. revert s Hunb.
    induction ops as [|[ev d|] ops IH]; intros s Hunb; simpl.
    - split; [exact Hunb|]. exists []. rewrite app_nil_r. auto.
    - rewrite emit_unbounded by exact Hunb. simpl.
      destruct (IH (enqueued (mkEvent ev d) s) (enqueued_unbounded _ _ Hunb))
        as (Hu & taken & Hf & Hq).
      split; [exact Hu|]. exists taken. split; [exact Hf|].
      simpl in Hq. rewrite <- app_assoc in Hq. exact Hq.
    - destruct (event_stream_attached json_dumps s) as [Hcase Hmax].
      destruct (event_stream json_dumps false s) as [r s1]. simpl in *.
      assert (unbounded s1) as Hunb1 by (unfold unbounded in *; lia).
      destruct (IH s1 Hunb1) as (Hu & taken & Hf & Hq).
      destruct (items (queue (self s))) as [|ev rest]; destruct Hcase as [-> Hrest];
        rewrite Hrest in Hq.
      + split; [exact Hu|]. exists taken. auto.
      + destruct (drive json_dumps ops s1) as [frames s2]. simpl in *.
        split; [exact Hu|]. exists (ev :: taken). simpl. rewrite Hf, Hq. auto. }
  split; [exact Hunb'|]. split; [|exact Htaken].
  intros ev d. rewrite emit_unbounded by exact Hunb'.
  eexists. split; reflexivity.
Qed.

Lemma events_delivered_scenario :
  fst (drive (fun _ => "{}")
             [push "assistant_chunk" JNull; pull; pull; push "message" JNull; pull]
             Scenario.state_A)
  = ["event: message
data: {}

"; "event: assistant_chunk
data: {}

"; "event: message
data: {}

"].
Proof.
  destruct (events_delivered_in_push_order
              (fun _ => "{}")
              [push "assistant_chunk" JNull; pull; pull; push "message" JNull; pull]
              Scenario.state_A eq_refl)
    as (_ & _ & taken & Hf & Hq).
  vm_compute in Hq.
  destruct taken as [|e1 [|e2 [|e3 [|e4 taken]]]]; try discriminate Hq.
  injection Hq as <- <- <-. exact Hf.
Defined.

(** ** The lock is nobody's but [run_once]'s *)

Section Frames.

Context {A B : Type}.

Lemma frames_ret (a : A) : frames (mret a : M State A).
Proof. intros s. apply kept_refl. Qed.

Lemma frames_raise (e : exn) : frames (raise e : M State A).
Proof. intros s. apply kept_refl. Qed.

Lemma frames_gets (f : State -> A) : frames (gets f).
Proof. intros s. apply kept_refl. Qed.

Lemma frames_bind (m : M State A) (k : A -> M State B) :
  frames m -> (forall a, frames (k a)) -> frames (m ≫= k).
Proof.
  intros Hm Hk s. run_coro. pose proof (Hm s) as H1.
  destruct (m s) as [[a|e|] s1]; simpl in *; try exact H1.
  eapply kept_trans; [exact H1 | apply Hk].
Qed.

Lemma frames_db (m : M Backend A) : frames (db m).
Proof.
  intros s. unfold db. run_coro. destruct (m (backend s)) as [r b].
  unfold kept. simpl. auto.
Qed.

End Frames.

Lemma frames_uuid4 : frames uuid4.
Proof. intros s. unfold kept. simpl. auto. Qed.

Lemma frames_emit ev d : frames (_emit ev d).
Proof. intros s. apply emit_kept. Qed.

Lemma frames_modify_messages (f : list json -> list json) :
  frames (modify (fun s => set_self (set_messages (f (messages (self s))) (self s)) s)).
Proof. intros s. unfold kept. simpl. auto. Qed.

Lemma frames_await sampling_loop : frames (await_sampling_loop sampling_loop).
Proof.
  intros s. destruct (await_sampling_loop_spec sampling_loop s) as [Hk ->]. exact Hk.
Qed.

Lemma frames_ends_with_assistant h : frames (ends_with_assistant h).
Proof.
  unfold ends_with_assistant. destruct (last h) as [m|]; [|apply frames_ret].
  destruct (getitem m "role"); [apply frames_raise | apply frames_ret].
Qed.

Lemma frames_with_id mid a : frames (with_id mid a).
Proof. destruct a; first [apply frames_ret | apply frames_raise]. Qed.

#[local] Hint Resolve frames_uuid4 frames_emit frames_await frames_db
  frames_ends_with_assistant frames_with_id : coordinator.

Lemma frames_add_user_message content : frames (add_user_message content).
Proof.
  unfold add_user_message.
  apply frames_bind; [auto with coordinator|]. intros mid.
  apply frames_bind;
    [apply (frames_modify_messages (fun ms => ms ++ [user_msg mid content]))|].
  intros _. apply frames_bind; [apply frames_gets|]. intros sid.
  apply frames_bind; auto with coordinator.
Qed.

Lemma frames_run_once_body sampling_loop : frames (run_once_body sampling_loop).
Proof.
  unfold run_once_body.
  apply frames_bind; [auto with coordinator|]. intros h.
  apply frames_bind; [auto with coordinator|]. intros persist.
  apply frames_bind;
    [|intros _; apply (frames_modify_messages (fun _ => h))].
  destruct persist, (last h) as [assistant|]; try apply frames_ret.
  apply frames_bind; [auto with coordinator|]. intros mid.
  apply frames_bind; [apply frames_gets|]. intros sid.
  apply frames_bind; [auto with coordinator|]. intros _.
  apply frames_bind; auto with coordinator.
Qed.

(** ** Turns of one coordinator do not overlap *)

Section Serial.

Import Loop.

Lemma holders_snoc ts : holders (ts ++ [Created]) = holders ts.
Proof. induction ts as [|[] ts IH]; simpl; auto. Qed.

Lemma holders_enter ts i p :
  ts !! i = Some p -> p <> InTurn ->
  holders (<[i := InTurn]> ts) = S (holders ts).
Proof.
  revert i. induction ts as [|q ts IH]; intros [|i] Hi Hp; simpl in *;
    try discriminate.
  - injection Hi as ->. destruct p; congruence.
  - rewrite (IH i Hi Hp). destruct q; reflexivity.
Qed.

Lemma holders_leave ts i q :
  ts !! i = Some InTurn -> q <> InTurn ->
  S (holders (<[i := q]> ts)) = holders ts.
Proof.
  revert i. induction ts as [|p ts IH]; intros [|i] Hi Hq; simpl in *;
    try discriminate.
  - injection Hi as ->. destruct q; congruence.
  - pose proof (IH i Hi Hq) as H. destruct p; simpl; lia.
Qed.

Lemma holders_other ts i p q :
  ts !! i = Some p -> p <> InTurn -> q <> InTurn ->
  holders (<[i := q]> ts) = holders ts.
Proof.
  revert i. induction ts as [|p' ts IH]; intros [|i] Hi Hp Hq; simpl in *;
    try discriminate.
  - injection Hi as ->. destruct p, q; congruence.
  - rewrite (IH i Hi Hp Hq). reflexivity.
Qed.

Lemma holders_lookup ts i : ts !! i = Some InTurn -> (1 <= holders ts)%nat.
Proof.
  revert i. induction ts as [|p ts IH]; intros [|i] Hi; simpl in *;
    try discriminate.
  - injection Hi as ->. lia.
  - pose proof (IH i Hi). destruct p; lia.
Qed.

Lemma holders_unique ts i j :
  (holders ts <= 1)%nat ->
  ts !! i = Some InTurn -> ts !! j = Some InTurn -> i = j.
Proof.
  revert i j. induction ts as [|p ts IH]; intros [|i] [|j] Hle Hi Hj; simpl in *;
    try discriminate; try reflexivity.
  - injection Hi as ->. apply holders_lookup in Hj. lia.
  - injection Hj as ->. apply holders_lookup in Hi. lia.
  - f_equal. apply IH; try assumption. destruct p; lia.
Qed.

Lemma woken_snoc ws i : woken (ws ++ [mkFuture i false]) = woken ws.
Proof. induction ws as [|w ws IH]; simpl; [reflexivity|]. rewrite IH. reflexivity. Qed.

Lemma woken_remove ws i :
  mkFuture i true ∈ ws ->
  woken ws = S (woken (remove_fut (mkFuture i true) ws)).
Proof.
  induction ws as [|w ws IH]; intros Hin; [by apply elem_of_nil in Hin|].
  simpl. case_bool_decide as Hw.
  - subst w. reflexivity.
  - apply elem_of_cons in Hin as [Heq|Hin]; [congruence|].
    simpl. rewrite (IH Hin). destruct (fut_done w); reflexivity.
Qed.

Lemma woken_wake ws : woken ws = 0%nat -> (woken (wake_up_first ws) <= 1)%nat.
Proof.
  destruct ws as [|w ws]; simpl; [lia|].
  destruct (fut_done w); [discriminate|]. intros ->. lia.
Qed.

Lemma serial_snoc h log o :
  serial h (log ++ [o])
  = match serial h log with
    | Some h' => observe h' o
    | None => None
    end.
Proof.
  revert h. induction log as [|o' log IH]; intros h; simpl.
  - destruct (observe h o); reflexivity.
  - destruct (observe h o'); [apply IH | reflexivity].
Qed.

Lemma is_pc_lookup p ts i : is_pc p ts i = true -> ts !! i = Some p.
Proof.
  unfold is_pc. destruct (ts !! i) as [[]|], p; try discriminate; reflexivity.
Qed.

Lemma Inv_fresh s : idle (lock (self s)) -> Inv (fresh s).
Proof.
  unfold idle, Inv. simpl. intros ->. simpl.
  split; [reflexivity|]. split; [lia|]. exists None. auto.
Qed.

End Serial.

Section Mutex.

Import Loop.

Lemma b2n_locked_pos (b : bool) : (1 <= Nat.b2n b)%nat -> b = true.
Proof. destruct b; simpl; [reflexivity | lia]. Qed.

(** With the lock free, no turn is open in the trace. *)
Lemma Inv_free_no_holder y h :
  Inv y -> _locked (lock (self (st y))) = false ->
  serial None (trace y) = Some h -> h = None.
Proof.
  intros (Hh & _ & h' & Hs & Hm) Hfree Hser.
  rewrite Hser in Hs. injection Hs as <-.
  destruct h as [k|]; [|reflexivity].
  apply holders_lookup in Hm. rewrite Hh, Hfree in Hm. simpl in Hm. lia.
Qed.

(** Entering a turn from a free lock with no woken waiter left. *)
Lemma Inv_enter y i p ws :
  Inv y -> tasks y !! i = Some p -> p <> InTurn ->
  _locked (lock (self (st y))) = false ->
  woken ws = 0%nat ->
  Inv (mkSys (with_lock (mkLock true ws) (st y)) (<[i := InTurn]> (tasks y))
             (trace y ++ [Begin i])).
Proof.
  intros HI Hi Hp Hfree Hws.
  pose proof HI as (Hh & _ & h & Hs & _).
  pose proof (Inv_free_no_holder y h HI Hfree Hs) as ->.
  unfold Inv. simpl. rewrite Hws.
  split; [rewrite (holders_enter _ _ _ Hi Hp), Hh, Hfree; reflexivity|].
  split; [simpl; lia|].
  exists (Some i). rewrite serial_snoc, Hs. split; [reflexivity|].
  apply list_lookup_insert_eq. eapply lookup_lt_Some. exact Hi.
Qed.

Lemma Inv_step a y y' : Inv y -> step a y = Some y' -> Inv y'.
Proof.
  intros HI Hstep. pose proof HI as (Hh & Hw & h & Hs & Hm).
  destruct a as [|content|i|i|i sampling_loop|]; simpl in Hstep.
  - (* a new run_once coroutine *)
    injection Hstep as <-. unfold Inv. simpl. rewrite holders_snoc.
    split; [exact Hh|]. split; [exact Hw|]. exists h. split; [exact Hs|].
    destruct h as [k|]; [|exact Hm]. apply lookup_app_l_Some. exact Hm.
  - (* add_user_message *)
    injection Hstep as <-. unfold Inv. simpl.
    destruct (frames_add_user_message content (st y)) as (-> & _ & _).
    split; [exact Hh|]. split; [exact Hw|]. exists h. auto.
  - (* acquire *)
    destruct (is_pc Created (tasks y) i) eqn:Hpc; [|discriminate].
    apply is_pc_lookup in Hpc.
    unfold Lock_try_acquire in Hstep.
    destruct (negb (_locked (lock (self (st y))))
              && bool_decide (_waiters (lock (self (st y))) = [])) eqn:Hfast.
    + injection Hstep as <-.
      apply andb_prop in Hfast as [Hfree Hnone].
      apply negb_true_iff in Hfree. apply bool_decide_eq_true in Hnone.
      rewrite Hnone. apply (Inv_enter y i Created); auto; discriminate.
    + injection Hstep as <-. unfold Inv, Lock_park. simpl.
      rewrite woken_snoc, (holders_other _ _ _ Parked Hpc) by discriminate.
      split; [exact Hh|]. split; [exact Hw|]. exists h. split; [exact Hs|].
      destruct h as [k|]; [|exact Hm].
      rewrite list_lookup_insert_ne; [exact Hm|]. intros ->. congruence.
  - (* resume *)
    destruct (is_pc Parked (tasks y) i) eqn:Hpc; [|discriminate].
    apply is_pc_lookup in Hpc.
    unfold Lock_resume in Hstep. case_bool_decide as Hin; [|discriminate].
    injection Hstep as <-.
    pose proof (woken_remove _ _ Hin) as Hrem.
    assert (_locked (lock (self (st y))) = false) as Hfree.
    { destruct (_locked (lock (self (st y)))); [simpl in Hw; lia | reflexivity]. }
    rewrite Hfree in Hw. simpl in Hw.
    apply (Inv_enter y i Parked); auto; first [discriminate | lia].
  - (* the turn ends *)
    destruct (is_pc InTurn (tasks y) i) eqn:Hpc; [|discriminate].
    apply is_pc_lookup in Hpc.
    assert (_locked (lock (self (st y))) = true) as Hheld.
    { apply b2n_locked_pos. rewrite <- Hh. eapply holders_lookup. exact Hpc. }
    pose proof (frames_run_once_body sampling_loop (st y)) as (Hl & _ & _).
    destruct (run_once_body sampling_loop (st y)) as [r s'] eqn:Hbody.
    simpl in Hl.
    assert (exists q, q <> InTurn
              /\ y' = mkSys (with_lock (mkLock false
                                (wake_up_first (_waiters (lock (self (st y)))))) s')
                            (<[i := q]> (tasks y)) (trace y ++ [End i]))
      as (q & Hq & ->).
    { unfold Lock_release in Hstep. rewrite Hl, Hheld in Hstep.
      destruct r; [| |discriminate]; injection Hstep as <-;
        eexists; (split; [|reflexivity]); discriminate. }
    rewrite Hheld in Hh, Hw. simpl in Hh, Hw.
    assert (h = Some i) as ->.
    { destruct h as [k|]; [|congruence]. f_equal.
      apply (holders_unique (tasks y)); [lia | assumption | assumption]. }
    unfold Inv. simpl.
    pose proof (holders_leave _ _ q Hpc Hq) as Hleave.
    split; [lia|]. split.
    + pose proof (woken_wake (_waiters (lock (self (st y))))). lia.
    + exists None. rewrite serial_snoc, Hs. simpl. rewrite Nat.eqb_refl. auto.
  - (* a scheduled task runs *)
    injection Hstep as <-. unfold Inv. simpl.
    destruct (start_task_kept (st y)) as (-> & _ & _).
    split; [exact Hh|]. split; [exact Hw|]. exists h. auto.
Qed.

Lemma Inv_run acts y y' : Inv y -> run acts y = Some y' -> Inv y'.
Proof.
  revert y. induction acts as [|a acts IH]; intros y HI Hrun; simpl in Hrun.
  - injection Hrun as <-. exact HI.
  - destruct (step a y) as [y1|] eqn:Hstep; [|discriminate].
    eapply IH; [|exact Hrun]. eapply Inv_step; eassumption.
Qed.

Lemma serial_app h log1 log2 :
  serial h (log1 ++ log2)
  = match serial h log1 with
    | Some h' => serial h' log2
    | None => None
    end.
Proof.
  revert h. induction log1 as [|o log1 IH]; intros h; simpl; [reflexivity|].
  destruct (observe h o); [apply IH | reflexivity].
Qed.

(** In a serial trace a turn that began has ended before the next begins. *)
Lemma serial_between h log1 i log2 j log3 :
  is_Some (serial h (log1 ++ Begin i :: log2 ++ Begin j :: log3)) ->
  exists log2', log2 = End i :: log2'.
Proof.
  rewrite serial_app. destruct (serial h log1) as [[k|]|]; simpl;
    try (intros [? [=]]; fail).
  destruct log2 as [|[k|k] log2]; simpl; try (intros [? [=]]; fail).
  destruct (Nat.eqb i k) eqn:E; [|intros [? [=]]].
  apply Nat.eqb_eq in E. subst k. eauto.
Qed.

End Mutex.

(** C1. Start from a coordinator whose lock is free and let the event loop
    run any sequence of actions: new [run_once] calls, [add_user_message]
    calls, tasks reaching [acquire], parked tasks resuming, turns ending
    (in success or in failure), scheduled callback tasks running.  In every state reached, at most one task
    is inside its turn; in the trace of turns, a turn that began has ended
    (the lock released) before any other begins; and while a task is inside
    its turn, another task reaching [acquire] parks without entering, and
    no parked task can resume. *)
Theorem run_once_turns_do_not_overlap s acts y :
  idle (lock (self s)) ->
  Loop.run acts (Loop.fresh s) = Some y ->
  (forall i j,
      Loop.tasks y !! i = Some Loop.InTurn ->
      Loop.tasks y !! j = Some Loop.InTurn -> i = j)
  /\ (forall log1 i log2 j log3,
        Loop.trace y = log1 ++ Loop.Begin i :: log2 ++ Loop.Begin j :: log3 ->
        exists log2', log2 = Loop.End i :: log2')
  /\ (forall i j y',
        Loop.tasks y !! i = Some Loop.InTurn ->
        Loop.step (Loop.acquire j) y = Some y' ->
        Loop.tasks y' !! j = Some Loop.Parked
        /\ Loop.tasks y' !! i = Some Loop.InTurn
        /\ Loop.trace y' = Loop.trace y)
  /\ (forall i j,
        Loop.tasks y !! i = Some Loop.InTurn ->
        Loop.step (Loop.resume j) y = None).
Proof.
  intros Hidle Hrun.
  pose proof (Inv_run acts _ y (Inv_fresh s Hidle) Hrun) as HI.
  pose proof HI as (Hh & Hw & h & Hs & Hm).
  assert (forall i, Loop.tasks y !! i = Some Loop.InTurn ->
                    _locked (lock (self (Loop.st y))) = true) as Hheld.
  { intros i Hi. apply b2n_locked_pos. rewrite <- Hh.
    eapply holders_lookup. exact Hi. }
  split; [|split; [|split]].
  - intros i j Hi Hj. apply (holders_unique (Loop.tasks y)); try assumption.
    rewrite Hh. destruct (_locked _); simpl; lia.
  - intros log1 i log2 j log3 Htrace.
    apply (serial_between None log1 i log2 j log3).
    rewrite <- Htrace, Hs. eauto.
  - intros i j y' Hi Hstep. simpl in Hstep.
    destruct (Loop.is_pc Loop.Created (Loop.tasks y) j) eqn:Hpc; [|discriminate].
    apply is_pc_lookup in Hpc.
    unfold Lock_try_acquire in Hstep. rewrite (Hheld i Hi) in Hstep. simpl in Hstep.
    injection Hstep as <-. simpl.
    split; [apply list_lookup_insert_eq; eapply lookup_lt_Some; exact Hpc|].
    split; [|reflexivity].
    rewrite list_lookup_insert_ne; [exact Hi|]. intros ->. congruence.
  - intros i j Hi. simpl.
    destruct (Loop.is_pc Loop.Parked (Loop.tasks y) j); [|reflexivity].
    unfold Loop.Lock_resume. case_bool_decide as Hin; [|reflexivity].
    apply woken_remove in Hin. rewrite (Hheld i Hi) in Hw. simpl in Hw. lia.
Qed.

(** Two calls back to back, the first of which fails: the second enters
    only after the first has left. *)
Lemma two_turns_scenario :
  exists y,
    Loop.run [Loop.call_run_once; Loop.call_run_once;
              Loop.acquire 0; Loop.acquire 1;
              Loop.finish 0 Scenario.broken;
              Loop.resume 1;
              Loop.finish 1 Scenario.reply]
             (Loop.fresh Scenario.state_A) = Some y
    /\ Loop.trace y = [Loop.Begin 0; Loop.End 0; Loop.Begin 1; Loop.End 1]
    /\ Loop.tasks y = [Loop.Finished (Raised (ExecutorError "overloaded"));
                       Loop.Finished (Ok tt)]
    /\ forall log1 i log2 j log3,
         Loop.trace y = log1 ++ Loop.Begin i :: log2 ++ Loop.Begin j :: log3 ->
         exists log2', log2 = Loop.End i :: log2'.
Proof.
  eexists. split; [vm_compute; reflexivity|].
  split; [reflexivity|]. split; [reflexivity|].
  refine (proj1 (proj2 (run_once_turns_do_not_overlap
                          Scenario.state_A
                          [Loop.call_run_once; Loop.call_run_once;
                           Loop.acquire 0; Loop.acquire 1;
                           Loop.finish 0 Scenario.broken;
                           Loop.resume 1;
                           Loop.finish 1 Scenario.reply]
                          _ eq_refl _))).
  vm_compute. reflexivity.
Defined.

(** ** Scenario A, as stored *)

(** C4. After [POST /sessions] with model ["m1"] and
    [add_user_message("hi")] the messages table holds exactly one row for
    the session, with role [user], and the queue exactly one [message]
    event.  The event's data is the message, whose [content] is the single
    text block.  The row's [content] column, however, holds that whole
    message dict (id, role and content), not the block list; the messages
    route, which builds a [ChatMessage] from the column, rejects it. *)
Theorem scenario_A_stored_content :
  let msg := JDict [("id", JStr "b-uuid"); ("role", JStr "user");
                    ("content", JList [JDict [("type", JStr "text");
                                              ("text", JStr "hi")]])] in
  SESSIONS Scenario.world1 !! "a-uuid" = Some Scenario.runner0
  /\ w_db (get_messages "a-uuid") Scenario.world_A
     = (Ok [mkMessageRow "b-uuid" "a-uuid" "user" msg 1001], Scenario.world_A)
  /\ msg <> JList [JDict [("type", JStr "text"); ("text", JStr "hi")]]
  /\ getitem msg "content"
     = inr (JList [JDict [("type", JStr "text"); ("text", JStr "hi")]])
  /\ (items ∘ queue <$> SESSIONS Scenario.world_A !! "a-uuid")
     = Some [mkEvent "message" msg]
  /\ forall valid_block,
       fst (get_session_messages valid_block "a-uuid" Scenario.world_A)
       = Raised ValidationError.
Proof.
  cbv zeta.
  split; [vm_compute; reflexivity|].
  split; [vm_compute; reflexivity|].
  split; [discriminate|].
  split; [reflexivity|].
  split; [vm_compute; reflexivity|].
  intros valid_block. reflexivity.
Qed.

(** ** The registry *)

Lemma find_session_new sid ss row :
  has_session sid ss = false ->
  s_id row = sid ->
  List.find (fun r => String.eqb (s_id r) sid) (ss ++ [row]) = Some row.
Proof.
  unfold has_session. intros Hnone Hrow.
  induction ss as [|r ss IH]; simpl in *.
  - rewrite Hrow, String.eqb_refl. reflexivity.
  - apply orb_false_elim in Hnone as [-> Hnone]. auto.
Qed.

(** C5 as the code has it.  With the engine up, [create_new_session]
    raises the database's integrity error when the id it drew already has
    a row in [sessions], and then leaves [SESSIONS] as it was.  When the id
    has no row, the call succeeds and stores the new coordinator under the
    id, in place of whatever [SESSIONS] held there: the registry write has
    no check of its own. *)
Theorem create_new_session_duplicate_id body key w :
  is_Some (AsyncSessionLocal (w_backend w)) ->
  let sid := w_uuid_src w (w_uuid_drawn w) in
  let runner := AgentSession_init sid (req_model body) (req_tool_version body) key
                                  (req_system_prompt_suffix body) ANTHROPIC in
  if has_session sid (sessions_rows (w_backend w))
  then exists w',
         create_new_session body key w = (Raised (IntegrityError "sessions"), w')
         /\ SESSIONS w' = SESSIONS w
  else exists row w',
         create_new_session body key w = (Ok row, w')
         /\ s_id row = sid
         /\ SESSIONS w' = <[sid := runner]> (SESSIONS w)
         /\ SESSIONS w' !! sid = Some runner.
Proof.
  intros [e He]. cbv zeta.
  unfold create_new_session, w_uuid4, w_db, create_session, get_session,
    assert_session_local, utcnow, set_tables.
  run_coro. simpl. rewrite He. simpl.
  destruct (has_session _ (sessions_rows (w_backend w))) eqn:Hhas; simpl.
  - eexists. split; reflexivity.
  - rewrite He. simpl.
    rewrite (find_session_new _ _ (mkSessionRow _ _ _ _ _ _) Hhas eq_refl).
    eexists _, _. split; [reflexivity|]. simpl.
    split; [reflexivity|]. split; [reflexivity|]. apply lookup_insert_eq.
Qed.

Lemma create_new_session_same_id_again :
  exists w',
    create_new_session Scenario.body "key2" Scenario.world_again
    = (Raised (IntegrityError "sessions"), w')
    /\ SESSIONS w' = SESSIONS Scenario.world_again.
Proof.
  exact (create_new_session_duplicate_id
           Scenario.body "key2" Scenario.world_again (ex_intro _ _ eq_refl)).
Defined.

(** Against C5 as stated: an id present in the registry whose row is gone
    from the database is registered again without any error, and the
    coordinator that was there, with its history, is replaced. *)
Lemma create_new_session_overwrites :
  exists old row w',
    SESSIONS Scenario.world_lost !! "a-uuid" = Some old
    /\ length (messages old) = 1%nat
    /\ create_new_session Scenario.body "key2" Scenario.world_lost = (Ok row, w')
    /\ s_id row = "a-uuid"
    /\ SESSIONS w' !! "a-uuid"
       = Some (AgentSession_init "a-uuid" "m1" "computer_use_20250124" "key2" ""
                                 ANTHROPIC)
    /\ SESSIONS w' !! "a-uuid" <> Some old.
Proof.
  eexists _, _, _.
  split; [vm_compute; reflexivity|].
  split; [reflexivity|].
  split; [vm_compute; reflexivity|].
  split; [reflexivity|].
  split; [vm_compute; reflexivity|].
  vm_compute. discriminate.
Qed.

(** *** Where the registry and the table agree *)

Lemma has_session_touch sid sid' t ss :
  has_session sid (map (touch_session sid' t) ss) = has_session sid ss.
Proof.
  unfold has_session. induction ss as [|r ss IH]; simpl; [reflexivity|].
  rewrite IH. f_equal. unfold touch_session.
  destruct (String.eqb (s_id r) sid'); reflexivity.
Qed.

Lemma has_session_snoc sid ss row :
  has_session sid (ss ++ [row]) = has_session sid ss || String.eqb (s_id row) sid.
Proof.
  unfold has_session. rewrite existsb_app. simpl. rewrite orb_false_r. reflexivity.
Qed.

(** [add_user_message] never removes a session row. *)
Lemma add_user_message_keeps_sessions content s sid :
  has_session sid (sessions_rows (backend (snd (add_user_message content s))))
  = has_session sid (sessions_rows (backend s)).
Proof.
  unfold add_user_message, uuid4, db. run_coro. simpl.
  destruct (upsert_message_cases (uuid_src s (uuid_drawn s)) (session_id (self s))
              "user" (user_msg (uuid_src s (uuid_drawn s)) content) (backend s))
    as [[_ ->]|[_ (e & b' & -> & Hss & _)]]; simpl.
  - match goal with |- context [_emit ?ev ?d ?s0] =>
      destruct (emit_cases ev d s0) as [->|[-> _]]
    end; simpl; apply has_session_touch.
  - rewrite Hss. reflexivity.
Qed.

(** [send_message] keeps the registry backed by the table. *)
Lemma send_message_backed session_id content w :
  registry_backed w -> registry_backed (snd (send_message session_id content w)).
Proof.
  intros Hw. unfold send_message, on_runner. run_coro. simpl.
  destruct (SESSIONS w !! session_id) as [runner|] eqn:Hreg; simpl; [|exact Hw].
  pose proof (add_user_message_keeps_sessions content
                (mkState runner (w_backend w) (w_uuid_src w) (w_uuid_drawn w) []))
    as Hkeep.
  destruct (add_user_message content _) as [[[]|e|] s'] eqn:Hrun; simpl in *;
    intros sid Hsid; simpl in *; rewrite Hkeep; apply Hw;
    (destruct (decide (session_id = sid)) as [<-|Hne];
     [rewrite Hreg; eauto | rewrite lookup_insert_ne in Hsid by exact Hne; exact Hsid]).
Qed.

(** [create_new_session] keeps the registry backed by the table. *)
Lemma create_new_session_backed body key w :
  registry_backed w -> registry_backed (snd (create_new_session body key w)).
Proof.
  intros Hw. unfold create_new_session, w_uuid4, w_db, create_session, get_session,
    assert_session_local, utcnow, set_tables.
  run_coro. simpl.
  destruct (AsyncSessionLocal (w_backend w)) as [e|] eqn:He; simpl; [|exact Hw].
  destruct (has_session _ (sessions_rows (w_backend w))) eqn:Hhas; simpl; [exact Hw|].
  rewrite He. simpl.
  rewrite (find_session_new _ _ (mkSessionRow _ _ _ _ _ _) Hhas eq_refl). simpl.
  intros sid Hsid. simpl in *. rewrite has_session_snoc. simpl.
  destruct (decide (w_uuid_src w (w_uuid_drawn w) = sid)) as [<-|Hne].
  - rewrite String.eqb_refl. apply orb_true_r.
  - rewrite lookup_insert_ne in Hsid by exact Hne. rewrite (Hw sid Hsid). reflexivity.
Qed.

(** So, as long as the table keeps its rows, an id that is registered is
    never registered again: the call raises before it reaches [SESSIONS]. *)
Lemma create_new_session_registered_id body key w :
  registry_backed w ->
  is_Some (SESSIONS w !! w_uuid_src w (w_uuid_drawn w)) ->
  exists e w', create_new_session body key w = (Raised e, w')
               /\ SESSIONS w' = SESSIONS w.
Proof.
  intros Hw Hreg. apply Hw in Hreg.
  unfold create_new_session, w_uuid4, w_db, create_session,
    assert_session_local, utcnow. run_coro. simpl.
  destruct (AsyncSessionLocal (w_backend w)); simpl; [|eauto].
  rewrite Hreg. simpl. eauto.
Qed.

(** *** Coordinators as [__init__] makes them *)

Lemma AgentSession_init_idle_unbounded sid md tv key suffix pv b us n cs :
  let s := mkState (AgentSession_init sid md tv key suffix pv) b us n cs in
  idle (lock (self s)) /\ unbounded s /\ messages (self s) = [].
Proof. cbv zeta. unfold idle, unbounded. simpl. auto. Qed.

(** *** A failed turn wakes the next caller *)

(** When a turn ends, however it ends, the caller parked first in the
    lock's queue can resume. *)
Lemma finish_wakes_first_waiter y i j sampling_loop ws :
  Loop.Inv y ->
  Loop.tasks y !! i = Some Loop.InTurn ->
  Loop.tasks y !! j = Some Loop.Parked ->
  _waiters (lock (self (Loop.st y))) = mkFuture j false :: ws ->
  fst (run_once_body sampling_loop (Loop.st y)) <> Suspended ->
  exists y' y'',
    Loop.step (Loop.finish i sampling_loop) y = Some y'
    /\ _locked (lock (self (Loop.st y'))) = false
    /\ Loop.step (Loop.resume j) y' = Some y''
    /\ Loop.tasks y'' !! j = Some Loop.InTurn.
Proof.
  intros (Hh & _) Hi Hj Hws Hr.
  assert (_locked (lock (self (Loop.st y))) = true) as Hheld.
  { apply b2n_locked_pos. rewrite <- Hh. eapply holders_lookup. exact Hi. }
  assert (i <> j) as Hij by (intros ->; congruence).
  pose proof (frames_run_once_body sampling_loop (Loop.st y)) as (Hl & _ & _).
  simpl. unfold Loop.is_pc. rewrite Hi.
  destruct (run_once_body sampling_loop (Loop.st y)) as [r s'] eqn:Hbody.
  simpl in Hl, Hr. unfold Lock_release. rewrite Hl, Hheld, Hws. simpl.
  destruct r as [[]|e|]; [| |congruence];
    (eexists _, _; split; [reflexivity|]; simpl; split; [reflexivity|];
     unfold Loop.is_pc; rewrite list_lookup_insert_ne by exact Hij; rewrite Hj;
     unfold Loop.Lock_resume; simpl;
     rewrite bool_decide_eq_true_2 by (left);
     split; [reflexivity|]; simpl;
     apply list_lookup_insert_eq; rewrite length_insert;
     eapply lookup_lt_Some; exact Hj).
Qed.

(** *** One task alone *)

(** A single [run_once] task on the loop does what the call does by
    itself: the loop and the coroutine are the same program. *)
Lemma run_alone_is_run_once sampling_loop s r s' :
  run_once sampling_loop s = (r, s') ->
  r <> Suspended ->
  Loop.run [Loop.call_run_once; Loop.acquire 0; Loop.finish 0 sampling_loop]
           (Loop.fresh s)
  = Some (Loop.mkSys s' [Loop.Finished r] [Loop.Begin 0; Loop.End 0]).
Proof.
  unfold run_once, async_with_lock. simpl.
  destruct (Lock_try_acquire (lock (self s))) as [l|]; [|intros [= <- _]; congruence].
  fold (with_lock l s). unfold Loop.is_pc. simpl.
  destruct (run_once_body sampling_loop (with_lock l s)) as [[[]|e|] s1];
    try (intros [= <- _]; congruence);
    (destruct (Lock_release (lock (self s1))) as [l'|]; intros [= <- <-] _;
     reflexivity).
Qed.

(** * Further properties *)

(** ** Configuration *)

(** X1. The two readers of the environment treat an empty value like a
    missing one.  [get_database_url] never returns the empty string: it
    gives the configured URL when there is a non-empty one and the local
    SQLite URL otherwise.  [get_api_key] returns exactly the non-empty keys
    and raises [RuntimeError] for a missing or empty one, so a key it
    returns is never empty. *)
Theorem environment_readers_reject_empty :
  (forall env, get_database_url env <> "")
  /\ (forall url, url <> "" -> get_database_url (Some url) = url)
  /\ get_database_url (Some "") = get_database_url None
  /\ (forall env key, get_api_key env = inr key <-> env = Some key /\ key <> "")
  /\ (forall env, (exists key, get_api_key env = inr key)
                  \/ get_api_key env = inl (RuntimeError "ANTHROPIC_API_KEY is not set")).
Proof.
  split; [|split; [|split; [reflexivity|split]]].
  - intros [url|]; simpl; [|discriminate].
    destruct (String.eqb url "") eqn:E; [discriminate|].
    apply String.eqb_neq in E. exact E.
  - intros url Hne. simpl. apply String.eqb_neq in Hne. rewrite Hne. reflexivity.
  - intros env key. unfold get_api_key. destruct env as [k|]; simpl.
    + destruct (String.eqb k "") eqn:E.
      * apply String.eqb_eq in E. subst k. split; [discriminate|].
        intros [[= <-] Hne]. congruence.
      * apply String.eqb_neq in E. split.
        -- intros [= <-]. auto.
        -- intros [[= <-] _]. reflexivity.
    + split; [discriminate|]. intros [[=] _].
  - intros env. unfold get_api_key.
    destruct (String.eqb (default "" env) ""); eauto.
Qed.

(** ** The database module *)

(** X2. [init_engine] binds the session factory at most once, and only
    when the engine could be opened.  Once a factory is bound a call
    returns at once and changes nothing, whatever it would have opened.
    With none bound: when [create_async_engine] raises, the call raises
    that exception and nothing is bound, so that the next call starts over;
    when the engine is opened, the factory is bound to it whether the
    creation of the tables then goes through or raises, the call ends
    accordingly, and every later call returns at once without creating the
    tables.  No call touches a row of either table. *)
Theorem init_engine_binds_once opened later b :
  let b1 := snd (init_engine opened b) in
  sessions_rows b1 = sessions_rows b
  /\ messages_rows b1 = messages_rows b
  /\ match AsyncSessionLocal b with
     | Some _ => init_engine opened b = (Ok tt, b)
     | None =>
         match opened with
         | engine_refused e =>
             init_engine opened b = (Raised e, b)
             /\ forall engine,
                  AsyncSessionLocal
                    (snd (init_engine (engine_opened engine None) b1)) = Some engine
         | engine_opened engine create_all =>
             fst (init_engine opened b)
             = match create_all with
               | None => Ok tt
               | Some e => Raised e
               end
             /\ AsyncSessionLocal b1 = Some engine
             /\ init_engine later b1 = (Ok tt, b1)
         end
     end.
Proof.
  unfold init_engine. destruct b as [[e|] ss ms clk n]; simpl; [auto|].
  destruct opened as [e|engine create_all]; simpl; auto.
Qed.

Lemma find_session_none (sid : string) (ss : list SessionRow) :
  has_session sid ss = false ->
  List.find (fun r => String.eqb (s_id r) sid) ss = None.
Proof.
  unfold has_session. induction ss as [|r ss IH]; simpl; [reflexivity|].
  intros [-> H]%orb_false_elim. auto.
Qed.

Lemma find_session_other (sid sid' : string) (ss : list SessionRow) row :
  s_id row <> sid' ->
  List.find (fun r => String.eqb (s_id r) sid') (ss ++ [row])
  = List.find (fun r => String.eqb (s_id r) sid') ss.
Proof.
  intros Hne. induction ss as [|r ss IH]; simpl.
  - apply String.eqb_neq in Hne. rewrite Hne. reflexivity.
  - destruct (String.eqb (s_id r) sid'); [reflexivity | exact IH].
Qed.

(** X3. [create_session] and [get_session] round trip.  Without the
    session factory [create_session] fails its assertion.  With it, an id
    that already has a row is refused with an integrity error and both
    tables stay as they are; a new id is inserted, after which
    [get_session] of that id returns the row just written, stamped with the
    same clock reading in [created_at] and [updated_at], while
    [get_session] of every other id answers as before and the messages
    table is unchanged. *)
Theorem create_session_then_get_session sid md tv suffix b :
  match AsyncSessionLocal b with
  | None => create_session sid md tv suffix b = (Raised AssertionError, b)
  | Some _ =>
      if has_session sid (sessions_rows b)
      then exists b',
             create_session sid md tv suffix b = (Raised (IntegrityError "sessions"), b')
             /\ sessions_rows b' = sessions_rows b
             /\ messages_rows b' = messages_rows b
      else exists b',
             create_session sid md tv suffix b = (Ok tt, b')
             /\ get_session sid b'
                = (Ok (Some (mkSessionRow sid md tv suffix
                                          (clock b (clock_reads b))
                                          (clock b (clock_reads b)))), b')
             /\ fst (get_session sid b) = Ok None
             /\ (forall sid', sid' <> sid ->
                   fst (get_session sid' b') = fst (get_session sid' b))
             /\ messages_rows b' = messages_rows b
  end.
Proof.
  unfold create_session, get_session, assert_session_local, utcnow, set_tables.
  run_coro. destruct b as [[e|] ss ms clk n]; simpl; [|reflexivity].
  destruct (has_session sid ss) eqn:Hhas; simpl.
  - eexists. split; [reflexivity|]. simpl. auto.
  - eexists. split; [reflexivity|]. simpl.
    rewrite (find_session_new sid ss (mkSessionRow sid md tv suffix (clk n) (clk n))
               Hhas eq_refl).
    split; [reflexivity|]. rewrite (find_session_none sid ss Hhas).
    split; [reflexivity|]. split; [|reflexivity].
    intros sid' Hne. rewrite find_session_other by (simpl; congruence). reflexivity.
Qed.

Lemma has_session_elem (sid : string) (ss : list SessionRow) :
  has_session sid ss = true <-> sid ∈ map s_id ss.
Proof.
  unfold has_session. induction ss as [|r ss IH]; simpl.
  - split; [discriminate|]. intros H. by apply elem_of_nil in H.
  - rewrite orb_true_iff, IH, elem_of_cons, String.eqb_eq. intuition congruence.
Qed.

Lemma has_message_elem (mid : string) (ms : list MessageRow) :
  has_message mid ms = true <-> mid ∈ map m_id ms.
Proof.
  unfold has_message. induction ms as [|r ms IH]; simpl.
  - split; [discriminate|]. intros H. by apply elem_of_nil in H.
  - rewrite orb_true_iff, IH, elem_of_cons, String.eqb_eq. intuition congruence.
Qed.

Lemma map_s_id_touch sid t (ss : list SessionRow) :
  map s_id (map (touch_session sid t) ss) = map s_id ss.
Proof.
  induction ss as [|r ss IH]; simpl; [reflexivity|]. rewrite IH. f_equal.
  unfold touch_session. destruct (String.eqb (s_id r) sid); reflexivity.
Qed.

Lemma NoDup_snoc_fresh (x : string) (l : list string) :
  NoDup l -> x ∉ l -> NoDup (l ++ [x]).
Proof.
  intros Hl Hx. apply NoDup_app. split; [exact Hl|]. split.
  - intros y Hy Hy'. apply list_elem_of_singleton in Hy'. congruence.
  - apply NoDup_singleton.
Qed.

Lemma create_session_keys sid md tv suffix b :
  keys_unique b -> keys_unique (snd (create_session sid md tv suffix b)).
Proof.
  intros [Hs Hm].
  unfold create_session, assert_session_local, utcnow, set_tables, keys_unique.
  run_coro. destruct b as [[e|] ss ms clk n]; simpl in *; [|auto].
  destruct (has_session sid ss) eqn:Hhas; simpl; [auto|].
  split; [|exact Hm]. rewrite map_app. simpl. apply NoDup_snoc_fresh; [exact Hs|].
  rewrite <- has_session_elem, Hhas. discriminate.
Qed.

Lemma upsert_message_keys mid sid role content b :
  keys_unique b -> keys_unique (snd (upsert_message mid sid role content b)).
Proof.
  intros [Hs Hm].
  destruct (upsert_message_cases mid sid role content b)
    as [[Hacc ->]|[_ (e & b' & -> & Hss & Hms & _)]]; simpl.
  - unfold keys_unique, committed. simpl. rewrite map_s_id_touch.
    split; [exact Hs|]. rewrite map_app. simpl. apply NoDup_snoc_fresh; [exact Hm|].
    unfold accepts in Hacc. destruct (AsyncSessionLocal b); [|discriminate].
    apply andb_prop in Hacc as [Hnew _]. apply negb_true_iff in Hnew.
    rewrite <- has_message_elem, Hnew. discriminate.
  - unfold keys_unique. rewrite Hss, Hms. auto.
Qed.

Lemma find_session_unique (ss : list SessionRow) r :
  NoDup (map s_id ss) -> r ∈ ss ->
  List.find (fun r' => String.eqb (s_id r') (s_id r)) ss = Some r.
Proof.
  induction ss as [|r' ss IH]; intros Hnd Hin; [by apply elem_of_nil in Hin|].
  simpl in *. apply NoDup_cons in Hnd as [Hr' Hnd].
  apply elem_of_cons in Hin as [->|Hin].
  - rewrite String.eqb_refl. reflexivity.
  - destruct (String.eqb (s_id r') (s_id r)) eqn:E; [|auto].
    apply String.eqb_eq in E. exfalso. apply Hr'. rewrite E.
    apply list_elem_of_fmap. eauto.
Qed.

(** X4. The primary keys hold: if no two rows of a table share their id,
    this is still so after [create_session], after [upsert_message] and
    after [init_engine], whatever their arguments and however they end;
    and then [get_session] on the id of a row of the table returns that
    very row. *)
Theorem primary_keys_stay_unique b :
  keys_unique b ->
  (forall sid md tv suffix, keys_unique (snd (create_session sid md tv suffix b)))
  /\ (forall mid sid role content,
        keys_unique (snd (upsert_message mid sid role content b)))
  /\ (forall opened, keys_unique (snd (init_engine opened b)))
  /\ (forall r, is_Some (AsyncSessionLocal b) -> r ∈ sessions_rows b ->
                get_session (s_id r) b = (Ok (Some r), b)).
Proof.
  intros Hk. split; [|split; [|split]].
  - intros. by apply create_session_keys.
  - intros. by apply upsert_message_keys.
  - intros opened. unfold init_engine, keys_unique in *.
    destruct (AsyncSessionLocal b); simpl; [exact Hk|].
    destruct opened; simpl; exact Hk.
  - intros r [e He] Hr. unfold get_session, assert_session_local. run_coro.
    rewrite He. simpl. rewrite (find_session_unique _ r (proj1 Hk) Hr). reflexivity.
Qed.

Lemma primary_keys_scenario :
  keys_unique (snd (upsert_message "c-uuid" "a-uuid" "tool" JNull
                                   (backend Scenario.state_A)))
  /\ keys_unique (snd (upsert_message "b-uuid" "a-uuid" "tool" JNull
                                      (backend Scenario.state_A))).
Proof.
  assert (keys_unique (backend Scenario.state_A)) as Hk.
  { split; vm_compute; apply NoDup_singleton. }
  destruct (primary_keys_stay_unique (backend Scenario.state_A) Hk) as (_ & Hup & _).
  split; apply Hup.
Defined.

(** *** [ORDER BY created_at] *)

Lemma insert_by_created_perm r l : insert_by_created r l ≡ₚ r :: l.
Proof.
  induction l as [|r' l IH]; simpl; [reflexivity|].
  destruct (m_created_at r' <=? m_created_at r)%Z; [|reflexivity].
  rewrite IH. apply Permutation_swap.
Qed.

Lemma insert_by_created_sorted r l :
  StronglySorted by_created l -> StronglySorted by_created (insert_by_created r l).
Proof.
  induction l as [|r' l IH]; intros Hs; simpl.
  - repeat constructor.
  - apply StronglySorted_inv in Hs as [Hl Hall].
    destruct (m_created_at r' <=? m_created_at r)%Z eqn:E.
    + apply Z.leb_le in E. constructor; [auto|].
      rewrite insert_by_created_perm. constructor; assumption.
    + apply Z.leb_gt in E. constructor; [constructor; assumption|].
      constructor; [unfold by_created; lia|].
      eapply Forall_impl; [exact Hall|]. unfold by_created. intros x Hx. lia.
Qed.

Lemma order_by_created_fold rows acc :
  StronglySorted by_created acc ->
  StronglySorted by_created
    (fold_left (fun acc r => insert_by_created r acc) rows acc)
  /\ fold_left (fun acc r => insert_by_created r acc) rows acc ≡ₚ acc ++ rows.
Proof.
  revert acc. induction rows as [|r rows IH]; intros acc Hs; simpl.
  - rewrite app_nil_r. auto.
  - destruct (IH (insert_by_created r acc) (insert_by_created_sorted r acc Hs))
      as [Hs' Hp].
    split; [exact Hs'|]. rewrite Hp, insert_by_created_perm. simpl.
    apply Permutation_middle.
Qed.

Lemma order_by_created_sorted rows :
  StronglySorted by_created (order_by_created rows)
  /\ order_by_created rows ≡ₚ rows.
Proof.
  unfold order_by_created.
  destruct (order_by_created_fold rows [] (SSorted_nil _)) as [Hs Hp]. auto.
Qed.




Lemma session_filter_elem sid (ms : list MessageRow) r :
  r ∈ List.filter (fun r => String.eqb (m_session_id r) sid) ms
  <-> r ∈ ms /\ m_session_id r = sid.
Proof.
  rewrite !list_elem_of_In, filter_In, String.eqb_eq. reflexivity.
Qed.

Lemma get_messages_rows sid b e :
  AsyncSessionLocal b = Some e ->
  exists rows,
    get_messages sid b = (Ok rows, b)
    /\ forall r, r ∈ rows <-> r ∈ messages_rows b /\ m_session_id r = sid.
Proof.
  intros He. unfold get_messages, assert_session_local. run_coro. rewrite He.
  eexists. split; [reflexivity|].
  intros r. rewrite (proj2 (order_by_created_sorted _)). apply session_filter_elem.
Qed.

(** X5. [get_messages] fails its assertion without the session factory.
    With it, it changes nothing and returns rows sorted by [created_at],
    ascending, that are exactly the rows of the table belonging to the
    session, each as often as the table has it: nothing of another session,
    nothing left out. *)
Theorem get_messages_sorted_own_rows sid b :
  match AsyncSessionLocal b with
  | None => get_messages sid b = (Raised AssertionError, b)
  | Some _ =>
      exists rows,
        get_messages sid b = (Ok rows, b)
        /\ StronglySorted by_created rows
        /\ rows ≡ₚ List.filter (fun r => String.eqb (m_session_id r) sid)
                               (messages_rows b)
        /\ forall r, r ∈ rows <-> r ∈ messages_rows b /\ m_session_id r = sid
  end.
Proof.
  unfold get_messages, assert_session_local. run_coro.
  destruct (AsyncSessionLocal b); [|reflexivity].
  eexists. split; [reflexivity|].
  destruct (order_by_created_sorted
              (List.filter (fun r => String.eqb (m_session_id r) sid) (messages_rows b)))
    as [Hs Hp].
  split; [exact Hs|]. split; [exact Hp|].
  intros r. rewrite Hp. apply session_filter_elem.
Qed.

(** X6. A message that [upsert_message] commits is read back by
    [get_messages] of its session, which then has exactly one row more than
    before, and by no other session: for every other session id
    [get_messages] returns what it returned before the write. *)
Theorem upsert_message_read_back mid sid role content b :
  accepts b mid sid = true ->
  exists b' before after,
    upsert_message mid sid role content b = (Ok tt, b')
    /\ get_messages sid b = (Ok before, b)
    /\ get_messages sid b' = (Ok after, b')
    /\ mkMessageRow mid sid role content (clock b (clock_reads b)) ∈ after
    /\ length after = S (length before)
    /\ forall sid', sid' <> sid ->
         fst (get_messages sid' b') = fst (get_messages sid' b).
Proof.
  intros Hacc. rewrite (upsert_message_accepted _ _ role content _ Hacc).
  assert (exists e, AsyncSessionLocal b = Some e) as [e He].
  { unfold accepts in Hacc. destruct (AsyncSessionLocal b); [eauto|discriminate]. }
  unfold get_messages, assert_session_local, committed. run_coro. simpl.
  rewrite He. eexists _, _, _. split; [reflexivity|]. split; [reflexivity|].
  split; [reflexivity|]. cbn [messages_rows]. rewrite List.filter_app. simpl.
  rewrite String.eqb_refl. split; [|split].
  - rewrite (proj2 (order_by_created_sorted _)). apply elem_of_app. right. left.
  - rewrite !(proj2 (order_by_created_sorted _)), length_app. simpl. lia.
  - intros sid' Hne. rewrite List.filter_app. simpl.
    assert (String.eqb sid sid' = false) as -> by (apply String.eqb_neq; congruence).
    rewrite app_nil_r. reflexivity.
Qed.

Lemma upsert_message_read_back_scenario :
  exists after,
    fst (get_messages "a-uuid"
           (snd (upsert_message "c-uuid" "a-uuid" "tool" JNull
                                (backend Scenario.state_A)))) = Ok after
    /\ length after = 2%nat
    /\ fst (get_messages "z-uuid"
              (snd (upsert_message "c-uuid" "a-uuid" "tool" JNull
                                   (backend Scenario.state_A)))) = Ok [].
Proof.
  destruct (upsert_message_read_back "c-uuid" "a-uuid" "tool" JNull
              (backend Scenario.state_A) eq_refl)
    as (b' & before & after & Hup & Hbefore & Hafter & _ & Hlen & Hother).
  rewrite Hup. simpl. exists after. rewrite Hafter. split; [reflexivity|]. split.
  - rewrite Hlen. f_equal.
    assert (Ok before = fst (get_messages "a-uuid" (backend Scenario.state_A))) as H
      by (rewrite Hbefore; reflexivity).
    vm_compute in H. injection H as ->. reflexivity.
  - rewrite (Hother "z-uuid") by discriminate. reflexivity.
Defined.

(** *** [ORDER BY updated_at DESC] *)

Lemma insert_by_updated_perm r l : insert_by_updated r l ≡ₚ r :: l.
Proof.
  induction l as [|r' l IH]; simpl; [reflexivity|].
  destruct (sum_updated_at r <=? sum_updated_at r')%Z; [|reflexivity].
  rewrite IH. apply Permutation_swap.
Qed.

Lemma insert_by_updated_sorted r l :
  StronglySorted by_updated_desc l ->
  StronglySorted by_updated_desc (insert_by_updated r l).
Proof.
  induction l as [|r' l IH]; intros Hs; simpl.
  - repeat constructor.
  - apply StronglySorted_inv in Hs as [Hl Hall].
    destruct (sum_updated_at r <=? sum_updated_at r')%Z eqn:E.
    + apply Z.leb_le in E. constructor; [auto|].
      rewrite insert_by_updated_perm. constructor; assumption.
    + apply Z.leb_gt in E. constructor; [constructor; assumption|].
      constructor; [unfold by_updated_desc; lia|].
      eapply Forall_impl; [exact Hall|]. unfold by_updated_desc. intros x Hx. lia.
Qed.

Lemma order_by_updated_fold rows acc :
  StronglySorted by_updated_desc acc ->
  StronglySorted by_updated_desc
    (fold_left (fun acc r => insert_by_updated r acc) rows acc)
  /\ fold_left (fun acc r => insert_by_updated r acc) rows acc ≡ₚ acc ++ rows.
Proof.
  revert acc. induction rows as [|r rows IH]; intros acc Hs; simpl.
  - rewrite app_nil_r. auto.
  - destruct (IH (insert_by_updated r acc) (insert_by_updated_sorted r acc Hs))
      as [Hs' Hp].
    split; [exact Hs'|]. rewrite Hp, insert_by_updated_perm. simpl.
    apply Permutation_middle.
Qed.

Lemma order_by_updated_sorted rows :
  StronglySorted by_updated_desc (order_by_updated_desc rows)
  /\ order_by_updated_desc rows ≡ₚ rows.
Proof.
  unfold order_by_updated_desc.
  destruct (order_by_updated_fold rows [] (SSorted_nil _)) as [Hs Hp]. auto.
Qed.

(** X7. [list_sessions] fails its assertion without the session factory.
    With it, it changes nothing and returns one summary (id, model and the
    two stamps) for every row of the sessions table, no more and no less,
    sorted by [updated_at], latest first. *)
Theorem list_sessions_latest_first b :
  match AsyncSessionLocal b with
  | None => list_sessions b = (Raised AssertionError, b)
  | Some _ =>
      exists rows,
        list_sessions b = (Ok rows, b)
        /\ StronglySorted by_updated_desc rows
        /\ rows ≡ₚ map summary_of (sessions_rows b)
  end.
Proof.
  unfold list_sessions, assert_session_local. run_coro.
  destruct (AsyncSessionLocal b); [|reflexivity].
  eexists. split; [reflexivity|]. apply order_by_updated_sorted.
Qed.

Lemma touched_session_elem sid t (ss : list SessionRow) :
  has_session sid ss = true ->
  exists r, r ∈ map (touch_session sid t) ss /\ s_id r = sid /\ s_updated_at r = t.
Proof.
  unfold has_session. induction ss as [|r ss IH]; simpl; [discriminate|].
  intros [E|H]%orb_true_iff.
  - exists (touch_session sid t r). split; [left|].
    unfold touch_session. rewrite E. simpl. apply String.eqb_eq in E. auto.
  - destruct (IH H) as (r' & Hin & Hr'). exists r'. split; [by right | exact Hr'].
Qed.

(** X8. Writing a message moves its session to the top of the list: when
    [upsert_message] commits a message for a session that has a row, and
    the clock reading it stamps on that row is later than the [updated_at]
    of every other session, the first summary [list_sessions] returns
    afterwards is that session's, carrying that stamp. *)
Theorem upsert_message_moves_session_up mid sid role content b :
  accepts b mid sid = true ->
  has_session sid (sessions_rows b) = true ->
  Forall (fun r => s_id r <> sid -> (s_updated_at r < clock b (S (clock_reads b)))%Z)
         (sessions_rows b) ->
  exists b' top rest,
    upsert_message mid sid role content b = (Ok tt, b')
    /\ list_sessions b' = (Ok (top :: rest), b')
    /\ sum_id top = sid
    /\ sum_updated_at top = clock b (S (clock_reads b)).
Proof.
  intros Hacc Hhas Hlate.
  rewrite (upsert_message_accepted _ _ role content _ Hacc).
  assert (exists e, AsyncSessionLocal b = Some e) as [e He].
  { unfold accepts in Hacc. destruct (AsyncSessionLocal b); [eauto|discriminate]. }
  set (t := clock b (S (clock_reads b))) in *.
  exists (committed mid sid role content b).
  unfold list_sessions, assert_session_local, committed. run_coro. simpl.
  rewrite He. fold t.
  destruct (order_by_updated_sorted
              (map summary_of (map (touch_session sid t) (sessions_rows b))))
    as [Hs Hp].
  destruct (touched_session_elem sid t _ Hhas) as (x & Hx & Hxid & Hxt).
  assert (summary_of x ∈ order_by_updated_desc
            (map summary_of (map (touch_session sid t) (sessions_rows b)))) as Hin.
  { rewrite Hp. apply list_elem_of_fmap. eauto. }
  destruct (order_by_updated_desc _) as [|top rest] eqn:Hlist;
    [by apply elem_of_nil in Hin|].
  assert (top ∈ map summary_of (map (touch_session sid t) (sessions_rows b))) as Htop.
  { rewrite <- Hp. left. }
  apply list_elem_of_fmap in Htop as (r' & -> & Hr').
  apply list_elem_of_fmap in Hr' as (r & -> & Hr).
  assert ((t <= sum_updated_at (summary_of (touch_session sid t r)))%Z) as Hle.
  { apply elem_of_cons in Hin as [Heq|Hin].
    - rewrite <- Heq. simpl. lia.
    - apply StronglySorted_inv in Hs as [_ Hall].
      rewrite Forall_forall in Hall. specialize (Hall _ Hin).
      unfold by_updated_desc in Hall. simpl in *. lia. }
  eexists _, _. split; [reflexivity|]. split; [reflexivity|].
  rewrite Forall_forall in Hlate. specialize (Hlate r Hr).
  unfold touch_session in *. simpl in *.
  destruct (String.eqb (s_id r) sid) eqn:E; simpl in *.
  - apply String.eqb_eq in E. auto.
  - apply String.eqb_neq in E. specialize (Hlate E). lia.
Qed.

(** Two sessions, the one of scenario A the older: a message written for
    it moves it from the second place to the first. *)
Lemma upsert_message_moves_session_up_scenario :
  map sum_id <$> (match fst (list_sessions Later.backend_two) with
                  | Ok rows => Some rows
                  | _ => None
                  end) = Some ["z-uuid"; "a-uuid"]
  /\ exists b' top rest,
       upsert_message "c-uuid" "a-uuid" "tool" JNull Later.backend_two = (Ok tt, b')
       /\ list_sessions b' = (Ok (top :: rest), b')
       /\ sum_id top = "a-uuid"
       /\ sum_updated_at top = 1005%Z
       /\ map sum_id rest = ["z-uuid"].
Proof.
  split; [vm_compute; reflexivity|].
  assert (Forall (fun r => s_id r <> "a-uuid" ->
                           (s_updated_at r
                            < clock Later.backend_two (S (clock_reads Later.backend_two)))%Z)
                 (sessions_rows Later.backend_two)) as Hlater.
  { vm_compute. repeat (constructor; [intros _; reflexivity|]). constructor. }
  destruct (upsert_message_moves_session_up
              "c-uuid" "a-uuid" "tool" JNull Later.backend_two eq_refl eq_refl Hlater)
    as (b' & top & rest & Hup & Hlist & Hid & Hstamp).
  exists b', top, rest. split; [exact Hup|]. split; [exact Hlist|].
  split; [exact Hid|]. split; [exact Hstamp|].
  assert (map sum_id
            (match fst (list_sessions
                          (snd (upsert_message "c-uuid" "a-uuid" "tool" JNull
                                               Later.backend_two))) with
             | Ok rows => rows
             | _ => []
             end) = ["a-uuid"; "z-uuid"]) as Hall by (vm_compute; reflexivity).
  rewrite Hup in Hall. simpl in Hall. rewrite Hlist in Hall. simpl in Hall.
  injection Hall as _ Hrest. exact Hrest.
Defined.

(** ** When [add_user_message] returns *)


(** The state a returning [add_user_message] leaves. *)
Lemma add_user_message_returned content s s' :
  add_user_message content s = (Ok tt, s') ->
  let msg := user_msg (next_uuid s) content in
  accepts (backend s) (next_uuid s) (session_id (self s)) = true
  /\ backend s' = committed (next_uuid s) (session_id (self s)) "user" msg (backend s)
  /\ self s' = set_queue (mkQueue (maxsize (queue (self s)))
                                  (items (queue (self s)) ++ [mkEvent "message" msg]))
                         (set_messages (messages (self s) ++ [msg]) (self s))
  /\ uuid_src s' = uuid_src s
  /\ uuid_drawn s' = S (uuid_drawn s).
Proof.
  intros Hrun. cbv zeta. unfold next_uuid.
  unfold add_user_message, uuid4, db in Hrun. run_coro. simpl in Hrun.
  set (mid := uuid_src s (uuid_drawn s)) in *.
  destruct (upsert_message_cases mid (session_id (self s)) "user"
              (user_msg mid content) (backend s))
    as [[Hacc Hup]|[Hacc (e & b' & Hup & _)]]; rewrite Hup in Hrun; [|discriminate].
  match type of Hrun with _emit ?ev ?d ?s0 = _ =>
    destruct (emit_cases ev d s0) as [Hem|[Hem _]]; rewrite Hem in Hrun;
    [|discriminate]
  end.
  injection Hrun as <-. simpl. auto.
Qed.



(** ** History, log and stream after a run of user messages *)






(** ** The messages route *)

Lemma ChatMessages_of_rows_spec valid_block rows w :
  ChatMessages_of_rows valid_block rows w
  = (match mapM (ChatMessage_validate valid_block) rows with
     | Some msgs => Ok msgs
     | None => Raised ValidationError
     end, w).
Proof.
  induction rows as [|row rows IH]; simpl; [reflexivity|].
  run_coro. unfold ChatMessage_of_row. run_coro.
  destruct (ChatMessage_validate valid_block row) as [m|]; simpl; [|reflexivity].
  rewrite IH. destruct (mapM _ rows); reflexivity.
Qed.

(** What a [ChatMessage] built from a row holds. *)
Lemma ChatMessage_validate_Some valid_block row m :
  ChatMessage_validate valid_block row = Some m ->
  cm_id m = m_id row /\ cm_role m = m_role row
  /\ cm_created_at m = m_created_at row
  /\ valid_role (m_role row) = true
  /\ match m_content row with
     | JStr text => cm_content m = inl text
     | JList elements =>
         exists blocks,
           cm_content m = inr blocks
           /\ Forall2 (fun element block => valid_block element = Some block)
                      elements blocks
     | _ => False
     end.
Proof.
  unfold ChatMessage_validate. destruct (valid_role (m_role row)); [|discriminate].
  destruct (m_content row) as [ | | |text|elements| ]; simpl; try discriminate.
  - intros [= <-]. simpl. auto.
  - destruct (mapM valid_block elements) as [blocks|] eqn:Hblocks; [|discriminate].
    intros [= <-]. simpl. split; [reflexivity|]. split; [reflexivity|].
    split; [reflexivity|]. split; [reflexivity|]. exists blocks.
    split; [reflexivity|]. apply mapM_Some. exact Hblocks.
Qed.

(** The route on the rows [get_messages] returns. *)
Lemma get_session_messages_spec valid_block sid w :
  is_Some (AsyncSessionLocal (w_backend w)) ->
  exists rows,
    get_messages sid (w_backend w) = (Ok rows, w_backend w)
    /\ (forall r, r ∈ rows <-> r ∈ messages_rows (w_backend w) /\ m_session_id r = sid)
    /\ get_session_messages valid_block sid w
       = (match mapM (ChatMessage_validate valid_block) rows with
          | Some msgs => Ok msgs
          | None => Raised ValidationError
          end, w).
Proof.
  intros [e He].
  pose proof (get_messages_rows sid (w_backend w) e He) as (rows & Hget & Helem).
  exists rows. split; [exact Hget|]. split; [exact Helem|].
  unfold get_session_messages, w_db. run_coro. rewrite Hget. simpl.
  rewrite ChatMessages_of_rows_spec. destruct w; reflexivity.
Qed.

(** One row of the session that does not validate fails the route. *)
Lemma messages_route_rejects valid_block sid w row :
  is_Some (AsyncSessionLocal (w_backend w)) ->
  row ∈ messages_rows (w_backend w) ->
  m_session_id row = sid ->
  ChatMessage_validate valid_block row = None ->
  get_session_messages valid_block sid w = (Raised ValidationError, w).
Proof.
  intros He Hrow Hsid Hbad.
  destruct (get_session_messages_spec valid_block sid w He)
    as (rows & _ & Helem & ->).
  destruct (mapM (ChatMessage_validate valid_block) rows) as [msgs|] eqn:Hmsgs;
    [|reflexivity].
  exfalso. apply mapM_Some in Hmsgs.
  assert (row ∈ rows) as Hin by (apply Helem; auto).
  apply list_elem_of_lookup_1 in Hin as [i Hi].
  destruct (Forall2_lookup_l _ _ _ _ _ Hmsgs Hi) as (m & _ & Hm). congruence.
Qed.

(** X11. With the session factory bound, [get_session_messages] is all or
    nothing and changes nothing.  If every row of the session validates as
    a [ChatMessage], it returns one message per row, in the order of
    [get_messages], each with the row's id, role (one of the three) and
    stamp; its content is the column's string, or, for a column that holds
    a list, the list of the block objects validation built from the
    elements one by one, not the elements themselves.  If some row of the
    session does not validate, it raises the validation error and returns
    no message at all. *)
Theorem get_session_messages_all_or_nothing valid_block sid w :
  is_Some (AsyncSessionLocal (w_backend w)) ->
  exists rows,
    get_messages sid (w_backend w) = (Ok rows, w_backend w)
    /\ ((forall row, row ∈ messages_rows (w_backend w) -> m_session_id row = sid ->
                     is_Some (ChatMessage_validate valid_block row)) ->
        exists msgs,
          get_session_messages valid_block sid w = (Ok msgs, w)
          /\ Forall2
               (fun row m =>
                  cm_id m = m_id row /\ cm_role m = m_role row
                  /\ cm_created_at m = m_created_at row
                  /\ valid_role (m_role row) = true
                  /\ match m_content row with
                     | JStr text => cm_content m = inl text
                     | JList elements =>
                         exists blocks,
                           cm_content m = inr blocks
                           /\ Forall2 (fun element block =>
                                         valid_block element = Some block)
                                      elements blocks
                     | _ => False
                     end) rows msgs)
    /\ (forall row, row ∈ messages_rows (w_backend w) -> m_session_id row = sid ->
                    ChatMessage_validate valid_block row = None ->
        get_session_messages valid_block sid w = (Raised ValidationError, w)).
Proof.
  intros He.
  destruct (get_session_messages_spec valid_block sid w He)
    as (rows & Hget & Helem & Hroute).
  exists rows. split; [exact Hget|]. split.
  - rewrite Hroute. intros Hall.
    assert (is_Some (mapM (ChatMessage_validate valid_block) rows)) as [msgs Hmsgs].
    { apply mapM_is_Some, Forall_forall. intros row Hrow.
      apply Helem in Hrow as [Hrow Hsid]. simpl. auto. }
    rewrite Hmsgs. exists msgs. split; [reflexivity|].
    apply mapM_Some in Hmsgs. eapply Forall2_impl; [exact Hmsgs|].
    intros row m. apply ChatMessage_validate_Some.
  - intros row Hrow Hsid Hbad.
    by apply (messages_route_rejects valid_block sid w row).
Qed.

(** A string and a list of one text block, read back: the block comes out
    as the object built from the element, without the key the model does
    not declare. *)
Lemma get_session_messages_scenario :
  get_session_messages Later.text_blocks "z-uuid" Later.world_read
  = (Ok [mkChatMessage "m1" "user" (inl "hi") 1004;
         mkChatMessage "m2" "assistant"
           (inr [mkMessageBlock "text" (Some "hello") None None None None]) 1006],
     Later.world_read).
Proof.
  destruct (get_session_messages_all_or_nothing
              Later.text_blocks "z-uuid" Later.world_read (ex_intro _ _ eq_refl))
    as (rows & _ & Hok & _).
  destruct Hok as (msgs & Hrun & _).
  { intros row Hrow Hsid. apply list_elem_of_In in Hrow. vm_compute in Hrow.
    destruct Hrow as [<-|[<-|[<-|[]]]]; [discriminate Hsid | |];
      vm_compute; eauto. }
  rewrite Hrun. f_equal. f_equal.
  assert (Ok msgs = fst (get_session_messages Later.text_blocks "z-uuid"
                                              Later.world_read)) as Hfst
    by (rewrite Hrun; reflexivity).
  vm_compute in Hfst. injection Hfst as ->. reflexivity.
Defined.

Lemma route_rejects_dict_content valid_block sid w row kvs :
  is_Some (AsyncSessionLocal (w_backend w)) ->
  row ∈ messages_rows (w_backend w) ->
  m_session_id row = sid ->
  m_content row = JDict kvs ->
  get_session_messages valid_block sid w = (Raised ValidationError, w).
Proof.
  intros He Hrow Hsid Hdict.
  apply (messages_route_rejects valid_block sid w row He Hrow Hsid).
  unfold ChatMessage_validate. rewrite Hdict.
  destruct (valid_role (m_role row)); reflexivity.
Qed.

Lemma accepts_engine b mid sid :
  accepts b mid sid = true -> is_Some (AsyncSessionLocal b).
Proof. unfold accepts. destruct (AsyncSessionLocal b); [eauto | discriminate]. Qed.

(** The state a returning [on_tool_output] leaves in the database. *)
Lemma on_tool_output_returned result tool_id s s' :
  on_tool_output result tool_id s = (Ok tt, s') ->
  accepts (backend s) (next_uuid s) (session_id (self s)) = true
  /\ backend s' = committed (next_uuid s) (session_id (self s)) "tool"
                            (tool_msg (next_uuid s) result tool_id) (backend s).
Proof.
  unfold next_uuid, on_tool_output, uuid4, db. run_coro. simpl.
  set (mid := uuid_src s (uuid_drawn s)).
  destruct (upsert_message_cases mid (session_id (self s)) "tool"
              (tool_msg mid result tool_id) (backend s))
    as [[Hacc Hup]|[Hacc (e & b' & Hup & _)]]; rewrite Hup; [|discriminate].
  match goal with |- _emit ?ev ?d ?s0 = _ -> _ =>
    destruct (emit_cases ev d s0) as [Hem|[Hem _]]; rewrite Hem; [|discriminate]
  end.
  intros [= <-]. auto.
Qed.

(** X12. What the coordinator writes, the messages route cannot read.
    After an [add_user_message] that returned, and likewise after a
    tool-result callback that returned, [get_session_messages] for the
    coordinator's session raises the validation error, whatever blocks the
    block validator lets through: the row just written has the whole
    message dict in its [content] column, which is neither a string nor a
    list. *)
Theorem coordinator_rows_fail_the_route valid_block w s s' :
  w_backend w = backend s' ->
  (forall content,
      add_user_message content s = (Ok tt, s') ->
      get_session_messages valid_block (session_id (self s)) w
      = (Raised ValidationError, w))
  /\ (forall result tool_id,
        on_tool_output result tool_id s = (Ok tt, s') ->
        get_session_messages valid_block (session_id (self s)) w
        = (Raised ValidationError, w)).
Proof.
  intros Hw. split.
  - intros content Hrun.
    destruct (add_user_message_returned content s s' Hrun) as (Hacc & Hb & _).
    cbv zeta in Hb.
    eapply (route_rejects_dict_content valid_block _ w
              (mkMessageRow (next_uuid s) (session_id (self s)) "user"
                            (user_msg (next_uuid s) content)
                            (clock (backend s) (clock_reads (backend s))))).
    + rewrite Hw, Hb. simpl. eapply accepts_engine. exact Hacc.
    + rewrite Hw, Hb. simpl. apply elem_of_app. right. left.
    + reflexivity.
    + reflexivity.
  - intros result tool_id Hrun.
    destruct (on_tool_output_returned result tool_id s s' Hrun) as (Hacc & Hb).
    eapply (route_rejects_dict_content valid_block _ w
              (mkMessageRow (next_uuid s) (session_id (self s)) "tool"
                            (tool_msg (next_uuid s) result tool_id)
                            (clock (backend s) (clock_reads (backend s))))).
    + rewrite Hw, Hb. simpl. eapply accepts_engine. exact Hacc.
    + rewrite Hw, Hb. simpl. apply elem_of_app. right. left.
    + reflexivity.
    + reflexivity.
Qed.

Lemma coordinator_rows_fail_the_route_scenario :
  get_session_messages Later.text_blocks "a-uuid" Scenario.world_A
  = (Raised ValidationError, Scenario.world_A).
Proof.
  exact (proj1 (coordinator_rows_fail_the_route
                  Later.text_blocks Scenario.world_A Scenario.state0 Scenario.state_A
                  eq_refl) "hi" eq_refl).
Defined.

(** ** The session routes *)

(** X13. [send_message] concerns one session only.  For an id that is not
    registered it raises 404 and leaves the process exactly as it was.  In
    every case the coordinators registered under other ids are untouched
    and the set of registered ids stays the same; a [run_once] task is
    created, for that session and only one, exactly when the call returns,
    and what it returns is the [queued] acknowledgement: when
    [add_user_message] raises, no task is created. *)
Theorem send_message_touches_one_session sid content w :
  let w' := snd (send_message sid content w) in
  (SESSIONS w !! sid = None ->
   send_message sid content w = (Raised (HTTPException 404 "Session not active"), w))
  /\ (forall other, other <> sid -> SESSIONS w' !! other = SESSIONS w !! other)
  /\ (forall sid', is_Some (SESSIONS w' !! sid') <-> is_Some (SESSIONS w !! sid'))
  /\ w_created_tasks w'
     = w_created_tasks w
         ++ match fst (send_message sid content w) with
            | Ok _ => [sid]
            | _ => []
            end
  /\ (forall r, fst (send_message sid content w) = Ok r ->
                r = JDict [("status", JStr "queued")]).
Proof.
  cbv zeta. unfold send_message, on_runner. run_coro. simpl.
  destruct (SESSIONS w !! sid) as [runner|] eqn:Hreg; simpl.
  - split; [discriminate|].
    destruct (add_user_message content _) as [[[]|e|] s']; simpl;
      (split; [intros other Hne; apply lookup_insert_ne; congruence|]);
      (split; [intros sid'; destruct (decide (sid = sid')) as [<-|Hne];
               [rewrite lookup_insert_eq, Hreg; split; eauto
               |rewrite lookup_insert_ne by exact Hne; reflexivity]|]);
      (split; [rewrite ?app_nil_r; reflexivity|]);
      intros r [= <-]; reflexivity.
  - split; [reflexivity|]. split; [reflexivity|]. split; [reflexivity|].
    split; [rewrite app_nil_r; reflexivity | discriminate].
Qed.

(** X14. A session that was just created is there for every route.  When
    [create_new_session] returns a session, that session carries the
    request's model, tool version and prompt suffix, a [created_at] equal
    to its [updated_at], and the id drawn; [get_session_by_id] of that id
    returns the same session; the coordinator registered under the id has
    an empty history, an empty unbounded queue and a free lock;
    [session_events] finds it; and no [run_once] task has been created. *)
Theorem create_new_session_then_routes body key w row w' :
  create_new_session body key w = (Ok row, w') ->
  let sid := w_uuid_src w (w_uuid_drawn w) in
  row = mkSessionRow sid (req_model body) (req_tool_version body)
                     (req_system_prompt_suffix body)
                     (s_created_at row) (s_created_at row)
  /\ get_session_by_id sid w' = (Ok row, w')
  /\ session_events sid w'
     = (Ok (mkAgentSession sid (req_model body) (req_tool_version body) key
                           (req_system_prompt_suffix body) ANTHROPIC
                           [] (mkQueue 0 []) (mkLock false [])), w')
  /\ w_created_tasks w' = w_created_tasks w.
Proof.
  cbv zeta.
  unfold create_new_session, w_uuid4, w_db, create_session, get_session,
    assert_session_local, utcnow, set_tables.
  run_coro. simpl.
  destruct (AsyncSessionLocal (w_backend w)) as [e|] eqn:He; simpl; [|discriminate].
  destruct (has_session _ (sessions_rows (w_backend w))) eqn:Hhas; simpl;
    [discriminate|].
  rewrite He. simpl.
  rewrite (find_session_new _ _ (mkSessionRow _ _ _ _ _ _) Hhas eq_refl). simpl.
  intros [= <- <-]. simpl. split; [reflexivity|].
  unfold get_session_by_id, session_events, w_db, get_session, assert_session_local.
  run_coro. simpl.
  rewrite (find_session_new _ _ (mkSessionRow _ _ _ _ _ _) Hhas eq_refl). simpl.
  rewrite lookup_insert_eq. auto.
Qed.

Lemma create_new_session_scenario :
  get_session_by_id "a-uuid" Scenario.world1
  = (Ok (mkSessionRow "a-uuid" "m1" "computer_use_20250124" "" 1000 1000),
     Scenario.world1)
  /\ fst (session_events "a-uuid" Scenario.world1) = Ok Scenario.runner0.
Proof.
  destruct (create_new_session_then_routes
              Scenario.body "key" Scenario.world0
              (mkSessionRow "a-uuid" "m1" "computer_use_20250124" "" 1000 1000)
              Scenario.world1 eq_refl)
    as (_ & Hget & Hev & _).
  split; [exact Hget | exact (f_equal fst Hev)].
Defined.

(** X15. Stored is not active.  A session that has its row in the
    database but no coordinator in [SESSIONS], as every session has after
    the process started anew, is still returned by [get_session_by_id],
    while [send_message] and [session_events] answer it with 404 and change
    nothing: no message is stored and no task is created. *)
Theorem stored_session_is_not_active sid w :
  is_Some (AsyncSessionLocal (w_backend w)) ->
  has_session sid (sessions_rows (w_backend w)) = true ->
  SESSIONS w !! sid = None ->
  (exists row, get_session_by_id sid w = (Ok row, w) /\ s_id row = sid)
  /\ (forall content,
        send_message sid content w
        = (Raised (HTTPException 404 "Session not active"), w))
  /\ session_events sid w = (Raised (HTTPException 404 "Session not active"), w).
Proof.
  intros [e He] Hhas Hreg. split; [|split].
  - unfold get_session_by_id, w_db, get_session, assert_session_local. run_coro.
    rewrite He. simpl.
    destruct (List.find _ (sessions_rows (w_backend w))) as [row|] eqn:Hfind.
    + exists row. split; [destruct w; reflexivity|].
      apply find_some in Hfind as [_ Hid]. apply String.eqb_eq. exact Hid.
    + exfalso. unfold has_session in Hhas. apply existsb_exists in Hhas as (r & Hr & Hid).
      apply (find_none _ _ Hfind) in Hr. simpl in Hr. congruence.
  - intros content. unfold send_message. run_coro. simpl. rewrite Hreg. reflexivity.
  - unfold session_events. run_coro. simpl. rewrite Hreg. reflexivity.
Qed.

Lemma stored_session_scenario :
  (exists row, get_session_by_id "a-uuid" Later.world_up = (Ok row, Later.world_up)
               /\ s_id row = "a-uuid")
  /\ send_message "a-uuid" "hi again" Later.world_up
     = (Raised (HTTPException 404 "Session not active"), Later.world_up).
Proof.
  destruct (stored_session_is_not_active "a-uuid" Later.world_up
              (ex_intro _ _ eq_refl) eq_refl eq_refl) as (Hget & Hsend & _).
  split; [exact Hget | apply Hsend].
Defined.

(** ** What a turn may write *)

Lemma touched_only_refl sid r : touched_only sid r r.
Proof. unfold touched_only. auto 10. Qed.

Lemma touched_only_trans sid r1 r2 r3 :
  touched_only sid r1 r2 -> touched_only sid r2 r3 -> touched_only sid r1 r3.
Proof.
  unfold touched_only.
  intros (Hi & Hm & Ht & Hp & Hc & Hsame) (Hi' & Hm' & Ht' & Hp' & Hc' & Hsame').
  repeat split; try congruence.
  intros Hne. rewrite Hsame', Hsame; congruence.
Qed.

Lemma touched_only_touch sid t r : touched_only sid r (touch_session sid t r).
Proof.
  unfold touched_only, touch_session.
  destruct (String.eqb (s_id r) sid) eqn:E; simpl; repeat split; auto.
  apply String.eqb_eq in E. congruence.
Qed.

Lemma grown_for_refl sid b : grown_for sid b b.
Proof.
  split.
  - exists []. rewrite app_nil_r. auto.
  - apply Forall2_same_length_lookup. split; [reflexivity|].
    intros i r r' Hr Hr'. rewrite Hr in Hr'. injection Hr' as <-.
    apply touched_only_refl.
Qed.

Lemma grown_for_trans sid b1 b2 b3 :
  grown_for sid b1 b2 -> grown_for sid b2 b3 -> grown_for sid b1 b3.
Proof.
  intros [(n1 & Hm1 & Hall1) Hs1] [(n2 & Hm2 & Hall2) Hs2]. split.
  - exists (n1 ++ n2). rewrite Hm2, Hm1, app_assoc. split; [reflexivity|].
    apply Forall_app. auto.
  - eapply Forall2_trans; [|exact Hs1|exact Hs2].
    intros r1 r2 r3. apply touched_only_trans.
Qed.

Lemma upsert_message_grows mid sid role content b :
  grown_for sid b (snd (upsert_message mid sid role content b)).
Proof.
  destruct (upsert_message_cases mid sid role content b)
    as [[_ ->]|[_ (e & b' & -> & Hss & Hms & _)]]; simpl.
  - split.
    + eexists. split; [reflexivity|]. repeat constructor.
    + simpl. apply Forall2_fmap_r, Forall_Forall2_diag, Forall_forall.
      intros r _. apply touched_only_touch.
  - split.
    + exists []. rewrite app_nil_r. auto.
    + rewrite Hss. apply Forall_Forall2_diag, Forall_forall.
      intros r _. apply touched_only_refl.
Qed.

Section Writes.

Context {A B : Type}.

Lemma writes_unchanged (m : M State A) :
  (forall s, backend (snd (m s)) = backend s) -> writes_own_session m.
Proof. intros H s. rewrite H. apply grown_for_refl. Qed.

Lemma writes_bind (m : M State A) (k : A -> M State B) :
  frames m -> writes_own_session m -> (forall a, writes_own_session (k a)) ->
  writes_own_session (m ≫= k).
Proof.
  intros Hf Hm Hk s. run_coro. pose proof (Hm s) as H1.
  destruct (Hf s) as (_ & Hsid & _).
  destruct (m s) as [[a|e|] s1]; simpl in *; try exact H1.
  eapply grown_for_trans; [exact H1|]. rewrite <- Hsid. apply Hk.
Qed.

End Writes.

Lemma writes_emit ev d : writes_own_session (_emit ev d).
Proof.
  apply writes_unchanged. intros s.
  destruct (emit_cases ev d s) as [->|[-> _]]; reflexivity.
Qed.

Lemma writes_upsert_then {A} mid role content (rest : M State A) :
  writes_own_session rest ->
  writes_own_session
    (sid ← gets (fun s => session_id (self s));
     db (upsert_message mid sid role content) ;; rest).
Proof.
  intros Hrest s. run_coro. unfold db. run_coro. simpl.
  pose proof (upsert_message_grows mid (session_id (self s)) role content (backend s))
    as Hup.
  destruct (upsert_message _ _ _ _ _) as [[[]|e|] b']; simpl in *; try exact Hup.
  eapply grown_for_trans; [exact Hup|]. apply (Hrest (set_backend b' s)).
Qed.

Lemma writes_add_user_message content : writes_own_session (add_user_message content).
Proof.
  unfold add_user_message.
  apply writes_bind; [apply frames_uuid4 | by apply writes_unchanged |]. intros mid.
  apply writes_bind;
    [apply (frames_modify_messages (fun ms => ms ++ [user_msg mid content]))
    |by apply writes_unchanged|].
  intros _. apply writes_upsert_then, writes_emit.
Qed.

Lemma writes_on_tool_output result tool_id :
  writes_own_session (on_tool_output result tool_id).
Proof.
  unfold on_tool_output.
  apply writes_bind; [apply frames_uuid4 | by apply writes_unchanged |]. intros mid.
  apply writes_upsert_then, writes_emit.
Qed.

Lemma frames_dispatch c : frames (dispatch c).
Proof. intros s. apply dispatch_kept. Qed.

Lemma writes_dispatch c : writes_own_session (dispatch c).
Proof. by apply writes_unchanged. Qed.

Lemma writes_body_of coro : writes_own_session (body_of coro).
Proof.
  destruct coro; simpl;
    [apply writes_emit | apply writes_on_tool_output | apply writes_emit].
Qed.

Lemma frames_dispatch_all cs : frames (dispatch_all cs).
Proof. intros s. apply dispatch_all_returns. Qed.

Lemma writes_dispatch_all cs : writes_own_session (dispatch_all cs).
Proof.
  induction cs as [|c cs IH]; simpl.
  - by apply writes_unchanged.
  - apply writes_bind; [apply frames_dispatch | apply writes_dispatch | auto].
Qed.

Lemma writes_await sampling_loop :
  writes_own_session (await_sampling_loop sampling_loop).
Proof.
  intros s. destruct (await_sampling_loop_spec sampling_loop s) as [_ ->]. simpl.
  apply writes_dispatch_all.
Qed.

Lemma writes_run_once_body sampling_loop :
  writes_own_session (run_once_body sampling_loop).
Proof.
  unfold run_once_body.
  apply writes_bind; [apply frames_await | apply writes_await |]. intros h.
  apply writes_bind; [apply frames_ends_with_assistant | |].
  { apply writes_unchanged. intros s. unfold ends_with_assistant.
    destruct (last h) as [m|]; [|reflexivity]. destruct (getitem m "role"); reflexivity. }
  intros persist.
  apply writes_bind; [| |intros _; by apply writes_unchanged].
  - destruct persist, (last h) as [assistant|]; try apply frames_ret.
    apply frames_bind; [apply frames_uuid4|]. intros mid.
    apply frames_bind; [apply frames_gets|]. intros sid.
    apply frames_bind; [apply frames_db|]. intros _.
    apply frames_bind; [apply frames_with_id | intros ev; apply frames_emit].
  - destruct persist, (last h) as [assistant|]; try (by apply writes_unchanged).
    apply writes_bind; [apply frames_uuid4 | by apply writes_unchanged |]. intros mid.
    apply writes_upsert_then.
    apply writes_bind; [apply frames_with_id | |intros ev; apply writes_emit].
    apply writes_unchanged. intros s. destruct assistant; reflexivity.
Qed.

Lemma writes_run_once sampling_loop : writes_own_session (run_once sampling_loop).
Proof.
  intros s. unfold run_once, async_with_lock.
  destruct (Lock_try_acquire (lock (self s))) as [l|]; [|apply grown_for_refl].
  pose proof (writes_run_once_body sampling_loop (set_self (set_lock l (self s)) s))
    as Hbody. simpl in Hbody.
  destruct (run_once_body sampling_loop _) as [[[]|e|] s1]; simpl in *;
    try destruct (Lock_release (lock (self s1))); exact Hbody.
Qed.

(** X16. The coordinator only ever adds to the log of its own session.
    Whatever [add_user_message] or [run_once] do and however they end
    (returned, raised, or parked), and whatever the task of a callback does
    when the loop runs it, every row the messages table had is still there
    afterwards, at its place and unchanged; the rows that follow all belong
    to the coordinator's session; and the sessions table has the same rows
    as before, none added and none removed, differing at most in the
    [updated_at] of that session. *)
Theorem coordinator_only_appends_own_rows s :
  (forall content,
      grown_for (session_id (self s)) (backend s)
                (backend (snd (add_user_message content s))))
  /\ (forall sampling_loop,
        grown_for (session_id (self s)) (backend s)
                  (backend (snd (run_once sampling_loop s))))
  /\ grown_for (session_id (self s)) (backend s) (backend (start_task s)).
Proof.
  split; [|split]; intros; [apply writes_add_user_message | apply writes_run_once |].
  unfold start_task. destruct (scheduled s) as [|coro rest]; [apply grown_for_refl|].
  apply (writes_body_of coro (set_scheduled rest s)).
Qed.

(** ** What the callbacks of a turn may do *)






(** ** A turn that fails after the executor returned *)

(** X18. When the executor has returned its history and [run_once] fails
    afterwards, nothing of the final assistant message gets out and the
    in-memory history is not replaced.  Take a turn from a free lock among
    other tasks that leave the lock to its holder.  If the last entry of
    the history cannot give a role (it is not a dict, or has no [role]),
    [run_once] raises the lookup's exception at once, in the state the
    executor came back in.  If it is an assistant message and the session
    factory is not bound, [run_once] raises the failed assertion, again
    before anything is awaited; if the database refuses the row when the
    INSERT is settled, [run_once] raises the integrity error after the
    session was closed.  In these cases no row was inserted and no event
    pushed by [run_once]: the tables, the queue and the history are as the
    other tasks left them; and the lock is released. *)
Theorem run_once_fails_after_the_executor o sampling_loop s h :
  idle (lock (self s)) ->
  bystanders o ->
  let t := sampling_loop (sampling_args (self s)) in
  turn_result t = inr h ->
  let s1 := executor_back o t s in
  (forall m e,
      last h = Some m -> getitem m "role" = inl e ->
      exists s2,
        run_once_amid o sampling_loop s = (Raised e, s2)
        /\ backend s2 = backend s1
        /\ queue (self s2) = queue (self s1)
        /\ messages (self s2) = messages (self s1)
        /\ scheduled s2 = scheduled s1
        /\ _locked (lock (self s2)) = false)
  /\ (Forall has_role h ->
      last_is_assistant h = true ->
      let sI := at_insert o (stamped s1) in
      accepts (backend sI) (next_uuid s1) (session_id (self s)) = false ->
      exists e s2,
        run_once_amid o sampling_loop s = (Raised e, s2)
        /\ _locked (lock (self s2)) = false
        /\ match AsyncSessionLocal (backend s1) with
           | None =>
               e = AssertionError
               /\ backend s2 = backend s1
               /\ queue (self s2) = queue (self s1)
               /\ messages (self s2) = messages (self s1)
           | Some _ =>
               e = IntegrityError "messages"
               /\ backend s2 = backend (at_exit o sI)
               /\ queue (self s2) = queue (self (at_exit o sI))
               /\ messages (self s2) = messages (self (at_exit o sI))
           end).
Proof.
  intros Hidle Hby t Hres s1.
  pose proof (executor_back_undisturbed o t s Hby) as Hback.
  fold s1 in Hback. pose proof Hback as (Hl1 & Hsid1 & _).
  simpl in Hl1, Hsid1.
  assert (forall (r : outcome unit) sX,
             run_once_body_amid o sampling_loop (with_lock (mkLock true []) s) = (r, sX) ->
             r <> Suspended ->
             _locked (lock (self sX)) = true ->
             exists s2,
               run_once_amid o sampling_loop s = (r, s2)
               /\ backend s2 = backend sX /\ queue (self s2) = queue (self sX)
               /\ messages (self s2) = messages (self sX)
               /\ scheduled s2 = scheduled sX
               /\ _locked (lock (self s2)) = false) as Hwrap.
  { intros r sX Hbody Hr HlX. unfold run_once_amid, async_with_lock.
    rewrite Hidle. simpl.
    change (set_self (set_lock (mkLock true []) (self s)) s)
      with (with_lock (mkLock true []) s).
    rewrite Hbody. unfold Lock_release. rewrite HlX.
    destruct r; [| |congruence]; eexists; (split; [reflexivity|]); simpl; auto. }
  split.
  - intros m e Hlast Hrole. apply Hwrap; [|discriminate|exact Hl1].
    unfold run_once_body_amid. run_coro.
    rewrite await_sampling_loop_amid_spec. fold t s1. rewrite Hres.
    unfold ends_with_assistant. rewrite Hlast, Hrole. reflexivity.
  - intros Hall Hassistant sI Hrej.
    destruct (last_is_assistant_true h Hassistant) as (kvs & Hlast & _).
    pose proof Hby as (_ & Hi & _ & Hx).
    pose proof (upsert_message_amid_cases o (next_uuid s1) (session_id (self s))
                  "assistant" (JDict kvs)
                  (mkState (self s1) (backend s1) (uuid_src s1) (S (uuid_drawn s1))
                           (scheduled s1)) Hi) as Hup.
    cbv zeta in Hup. simpl in Hup. change (at_insert o _) with sI in Hup.
    assert (forall e sX,
               upsert_message_amid o (next_uuid s1) (session_id (self s)) "assistant"
                 (JDict kvs)
                 (mkState (self s1) (backend s1) (uuid_src s1) (S (uuid_drawn s1))
                          (scheduled s1)) = (Raised e, sX) ->
               run_once_body_amid o sampling_loop (with_lock (mkLock true []) s)
               = (Raised e, sX)) as Hbody.
    { intros e sX HupX. unfold run_once_body_amid. run_coro.
      rewrite await_sampling_loop_amid_spec. fold t s1. rewrite Hres.
      rewrite (ends_with_assistant_spec h s1 Hall), Hassistant, Hlast.
      unfold uuid4. simpl. rewrite Hsid1. unfold next_uuid in HupX. rewrite HupX.
      reflexivity. }
    destruct (AsyncSessionLocal (backend s1)) as [en|] eqn:He.
    + rewrite Hrej in Hup.
      destruct (Hwrap _ _ (Hbody _ _ Hup)) as (s2 & Hrun & Hb & Hq & Hm & _ & Hl);
        [discriminate| |].
      { destruct (Hx sI) as (-> & _). destruct (Hi (stamped s1)) as (Hli & _).
        fold sI in Hli. rewrite Hli. exact Hl1. }
      exists (IntegrityError "messages"), s2. auto 10.
    + destruct (Hwrap _ _ (Hbody _ _ Hup)) as (s2 & Hrun & Hb & Hq & Hm & _ & Hl);
        [discriminate | exact Hl1|].
      exists AssertionError, s2. auto 10.
Qed.

Lemma run_once_fails_scenario :
  exists s2,
    run_once Scenario.reply Scenario.state_down = (Raised AssertionError, s2)
    /\ queue (self s2) = Queue_new
    /\ messages (self s2) = []
    /\ _locked (lock (self s2)) = false.
Proof.
  assert (Forall has_role [Scenario.hello_back]) as Hall.
  { repeat constructor. eexists _, _. split; reflexivity. }
  destruct (proj2 (run_once_fails_after_the_executor
                     quiet Scenario.reply Scenario.state_down [Scenario.hello_back]
                     eq_refl quiet_bystanders eq_refl) Hall eq_refl eq_refl)
    as (e & s2 & Hrun & Hl & Hcase).
  simpl in Hcase. destruct Hcase as (-> & _ & Hq & Hm).
  exists s2. split; [rewrite <- run_once_amid_quiet; exact Hrun|].
  split; [exact Hq|]. split; [exact Hm | exact Hl].
Defined.

(** ** The id in the assistant's event *)

Lemma dict_get_none (k : string) (kvs : list (string * json)) :
  dict_get k kvs = None <-> k ∉ map fst kvs.
Proof.
  induction kvs as [|[k' v] kvs IH]; simpl.
  - split; [intros _ H; by apply elem_of_nil in H | reflexivity].
  - rewrite not_elem_of_cons. destruct (String.eqb k k') eqn:E.
    + apply String.eqb_eq in E. split; [discriminate | intros [Hne _]; congruence].
    + apply String.eqb_neq in E. rewrite IH. tauto.
Qed.

Lemma dict_get_update k base extra :
  NoDup (map fst extra) ->
  dict_get k (dict_update base extra)
  = match dict_get k extra with
    | Some v => Some v
    | None => dict_get k base
    end.
Proof.
  intros Hnd. destruct (dict_get k extra) as [v|] eqn:Hget.
  - by apply dict_update_carries.
  - apply dict_get_update_other, dict_get_none. exact Hget.
Qed.

(** X19. The data of the assistant's [message] event, built as
    [{"id": message_id, **assistant}], has every item of the assistant
    message unchanged; its [id] is the id of the stored row only when the
    message has no [id] of its own: an [id] the executor put in the message
    wins over the new one. *)
Theorem assistant_event_id mid kvs s :
  NoDup (map fst kvs) ->
  exists d,
    with_id mid (JDict kvs) s = (Ok (JDict d), s)
    /\ dict_get "id" d = Some (default (JStr mid) (dict_get "id" kvs))
    /\ (forall k, k <> "id" -> dict_get k d = dict_get k kvs)
    /\ (forall k v, dict_get k kvs = Some v -> dict_get k d = Some v).
Proof.
  intros Hnd. eexists. split; [reflexivity|]. split; [|split].
  - rewrite dict_get_update by exact Hnd. destruct (dict_get "id" kvs); reflexivity.
  - intros k Hne. rewrite dict_get_update by exact Hnd.
    destruct (dict_get k kvs); [reflexivity|]. simpl.
    apply String.eqb_neq in Hne. rewrite Hne. reflexivity.
  - intros k v Hget. rewrite dict_get_update by exact Hnd. rewrite Hget. reflexivity.
Qed.

Lemma assistant_event_id_scenario :
  exists d,
    with_id "c-uuid" (JDict Later.with_own_id) Scenario.state_A
    = (Ok (JDict d), Scenario.state_A)
    /\ dict_get "id" d = Some (JStr "msg_01").
Proof.
  assert (NoDup (map fst Later.with_own_id)) as Hnd.
  { apply (bool_decide_unpack _). vm_compute. exact I. }
  destruct (assistant_event_id "c-uuid" Later.with_own_id Scenario.state_A Hnd)
    as (d & Hrun & Hid & _).
  exists d. split; [exact Hrun | exact Hid].
Defined.

(** ** Several clients on one stream *)

Lemma event_stream_step json_dumps gone s :
  match items (queue (self s)) with
  | [] => fst (event_stream json_dumps gone s) = Suspended
          /\ items (queue (self (snd (event_stream json_dumps gone s)))) = []
  | ev :: rest =>
      fst (event_stream json_dumps gone s)
      = Ok (if gone then None else Some (sse_payload json_dumps ev))
      /\ items (queue (self (snd (event_stream json_dumps gone s)))) = rest
  end
  /\ maxsize (queue (self (snd (event_stream json_dumps gone s))))
     = maxsize (queue (self s)).
Proof.
  unfold event_stream, sse_iter, queue_get, Queue_get. run_coro. simpl.
  destruct (items (queue (self s))) as [|ev rest] eqn:Hits; simpl; rewrite ?Hits;
    destruct gone; auto.
Qed.

(** X20. One queue, several clients.  However the pushes of a coordinator
    with its unbounded queue and the pulls of any number of event streams
    on that queue interleave, the events taken off the queue, in the order
    taken, followed by those still queued, are the events queued at the
    start followed by the pushed ones: each event is taken exactly once, by
    one stream, so no two clients receive the same event.  A frame passed
    on is the frame of the event that pull took.  A pull that finds its
    client gone takes the oldest event all the same and passes nothing on:
    that event reaches nobody. *)
Theorem stream_events_are_taken_once json_dumps ops s :
  unbounded s ->
  let log := fst (serve json_dumps ops s) in
  let s' := snd (serve json_dumps ops s) in
  items (queue (self s)) ++ produced ops = map d_event log ++ items (queue (self s'))
  /\ Forall (fun d => forall frame, d_frame d = Some frame ->
                                    frame = sse_payload json_dumps (d_event d)) log
  /\ forall client ev rest,
       items (queue (self s)) = ev :: rest ->
       exists s1,
         serve json_dumps [consume client true] s = ([mkDelivery client ev None], s1)
         /\ items (queue (self s1)) = rest.
Proof.
  intros Hunb. cbv zeta. split; [|split].
  - revert s Hunb. induction ops as [|[ev d|client gone] ops IH]; intros s Hunb; simpl.
    + rewrite app_nil_r. reflexivity.
    + rewrite emit_unbounded by exact Hunb. simpl.
      rewrite <- (IH (enqueued (mkEvent ev d) s) (enqueued_unbounded _ _ Hunb)).
      simpl. rewrite <- app_assoc. reflexivity.
    + destruct (event_stream_step json_dumps gone s) as [Hcase Hmax].
      destruct (event_stream json_dumps gone s) as [r s1]. simpl in *.
      assert (unbounded s1) as Hunb1 by (unfold unbounded in *; lia).
      specialize (IH s1 Hunb1).
      destruct (items (queue (self s))) as [|ev rest]; destruct Hcase as [-> Hrest];
        rewrite Hrest in IH.
      * exact IH.
      * destruct (serve json_dumps ops s1) as [log s2]. simpl in *.
        rewrite IH. reflexivity.
  - revert s Hunb. induction ops as [|[ev d|client gone] ops IH]; intros s Hunb; simpl.
    + constructor.
    + apply IH. rewrite emit_unbounded by exact Hunb. simpl.
      apply enqueued_unbounded. exact Hunb.
    + destruct (event_stream_step json_dumps gone s) as [Hcase Hmax].
      destruct (event_stream json_dumps gone s) as [r s1]. simpl in *.
      assert (unbounded s1) as Hunb1 by (unfold unbounded in *; lia).
      specialize (IH s1 Hunb1).
      destruct (items (queue (self s))) as [|ev rest]; destruct Hcase as [-> Hrest].
      * exact IH.
      * destruct (serve json_dumps ops s1) as [log s2]. simpl in *.
        constructor; [|exact IH]. simpl. intros frame Hf.
        destruct gone; [discriminate|]. congruence.
  - intros client ev rest Hits. simpl.
    destruct (event_stream_step json_dumps true s) as [Hcase _].
    rewrite Hits in *. destruct Hcase as [Hr Hrest].
    destruct (event_stream json_dumps true s) as [r s1]. simpl in *. subst r.
    exists s1. split; [reflexivity | exact Hrest].
Qed.

Lemma stream_events_scenario :
  let ops := [produce "assistant_chunk" JNull; consume 1 false; consume 2 true;
              produce "message" JNull; consume 1 false] in
  map d_event (fst (serve (fun _ => "{}") ops Scenario.state_A))
    ++ items (queue (self (snd (serve (fun _ => "{}") ops Scenario.state_A))))
  = [mkEvent "message" (user_msg "b-uuid" "hi");
     mkEvent "assistant_chunk" JNull;
     mkEvent "message" JNull].
Proof.
  cbv zeta.
  destruct (stream_events_are_taken_once
              (fun _ => "{}")
              [produce "assistant_chunk" JNull; consume 1 false; consume 2 true;
               produce "message" JNull; consume 1 false]
              Scenario.state_A eq_refl) as (Htaken & _ & _).
  rewrite <- Htaken. reflexivity.
Defined.

(** ** The registry over the life of the process *)

(** X21. As long as nothing outside the process deletes session rows, a
    registered coordinator is never replaced.  If every registered id has
    its row in [sessions], this is still so after [create_new_session] and
    after [send_message], however they end; [create_new_session] then
    leaves every coordinator that was registered exactly as it was, adding
    at most the one for the id it drew; and at startup, with nothing
    registered, the condition holds. *)
Theorem registered_coordinators_are_never_replaced w :
  registry_backed w ->
  (forall body key,
      let w' := snd (create_new_session body key w) in
      registry_backed w'
      /\ forall sid, is_Some (SESSIONS w !! sid) ->
                     SESSIONS w' !! sid = SESSIONS w !! sid)
  /\ (forall sid content, registry_backed (snd (send_message sid content w)))
  /\ (forall b us n tasks, registry_backed (mkWorld ∅ b us n tasks)).
Proof.
  intros Hw. split; [|split].
  - intros body key. cbv zeta. split; [by apply create_new_session_backed|].
    intros sid Hsid. pose proof (Hw sid Hsid) as Hrow.
    unfold create_new_session, w_uuid4, w_db, create_session, get_session,
      assert_session_local, utcnow, set_tables.
    run_coro. simpl.
    destruct (AsyncSessionLocal (w_backend w)) as [e|] eqn:He; simpl; [|reflexivity].
    destruct (has_session (w_uuid_src w (w_uuid_drawn w))
                          (sessions_rows (w_backend w))) eqn:Hhas; simpl;
      [reflexivity|].
    rewrite He. simpl.
    rewrite (find_session_new _ _ (mkSessionRow _ _ _ _ _ _) Hhas eq_refl). simpl.
    apply lookup_insert_ne. intros <-. congruence.
  - intros sid content. by apply send_message_backed.
  - intros b us n tasks sid [r Hr]. simpl in Hr. rewrite lookup_empty in Hr.
    discriminate.
Qed.

Lemma registered_coordinators_scenario :
  SESSIONS (snd (create_new_session Scenario.body "key2" Scenario.world_again))
    !! "a-uuid"
  = SESSIONS Scenario.world_again !! "a-uuid".
Proof.
  assert (registry_backed Scenario.world_again) as Hw.
  { intros sid [r Hr]. vm_compute in Hr.
    destruct (decide (sid = "a-uuid")) as [->|Hne]; [reflexivity|].
    exfalso. revert Hr. change (SESSIONS Scenario.world_again !! sid = Some r -> False).
    assert (SESSIONS Scenario.world_again = {["a-uuid" := self Scenario.state_A]}) as ->
      by (apply map_eq; intros k; vm_compute; reflexivity).
    rewrite lookup_singleton_ne by congruence. discriminate. }
  destruct (registered_coordinators_are_never_replaced Scenario.world_again Hw)
    as (Hcreate & _).
  apply (proj2 (Hcreate Scenario.body "key2")). vm_compute. eauto.
Defined.

(** ** The other tasks of a coordinator *)

Lemma add_user_message_undisturbed content s :
  undisturbed s (snd (add_user_message content s)).
Proof.
  destruct (frames_add_user_message content s) as (Hl & Hs & Hm).
  unfold undisturbed. rewrite Hl, Hs, Hm.
  split; [reflexivity|]. split; [reflexivity|]. split; [reflexivity|].
  unfold add_user_message, uuid4, db. run_coro. simpl.
  set (mid := uuid_src s (uuid_drawn s)).
  destruct (upsert_message_cases mid (session_id (self s)) "user"
              (user_msg mid content) (backend s))
    as [[_ ->]|[_ (e & b' & -> & _ & Hms & Ha)]]; simpl.
  - match goal with |- context [_emit ?ev ?d ?s0] =>
      destruct (emit_cases ev d s0) as [->|[-> _]]
    end; simpl; (split; [reflexivity|]); eexists; reflexivity.
  - split; [exact Ha|]. exists []. rewrite app_nil_r. exact Hms.
Qed.

(** X22. Whatever else the coordinator's code runs while a turn is
    suspended is a bystander of that turn, as the statements about turns
    among other tasks assume: a scheduled callback task run by the loop
    (one or several), a call of [add_user_message], each stretch of a call
    of [upsert_message] between its awaits, a round of a client's event
    stream, and a caller of [run_once] that finds the lock taken and queues
    up.  Each leaves the lock taken or free as it was, leaves the
    coordinator with its session and its queue without a bound, leaves the
    session factory as it is, and keeps every message row at its place. *)
Theorem coordinator_tasks_are_bystanders :
  (forall n, bystander (start_tasks n))
  /\ (forall content, bystander (fun s => snd (add_user_message content s)))
  /\ (forall mid sid role content,
        bystander (fun s => snd (db (upsert_message_begin mid sid role content) s)))
  /\ (forall e row, bystander (fun s => snd (db (upsert_message_insert e row) s)))
  /\ (forall sid updated,
        bystander (fun s => snd (db (upsert_message_update sid updated) s)))
  /\ (forall json_dumps is_disconnected,
        bystander (fun s => snd (event_stream json_dumps is_disconnected s)))
  /\ (forall i, bystander (fun s => with_lock (Loop.Lock_park i (lock (self s))) s)).
Proof.
  split; [exact start_tasks_bystander|].
  split; [intros content s; apply add_user_message_undisturbed|].
  split; [|split; [|split; [|split]]].
  - intros mid sid role content s.
    apply (db_undisturbed (upsert_message_begin mid sid role content)).
    intros b. unfold upsert_message_begin, assert_session_local, utcnow. run_coro.
    destruct (AsyncSessionLocal b) eqn:He; simpl; rewrite ?He;
      (split; [reflexivity|]); exists []; by rewrite app_nil_r.
  - intros e row s. apply (db_undisturbed (upsert_message_insert e row)).
    intros b. unfold upsert_message_insert, utcnow, set_tables. run_coro. simpl.
    destruct (has_message (m_id row) (messages_rows b)); simpl;
      [split; [reflexivity|]; exists []; by rewrite app_nil_r|].
    destruct (enforces_foreign_keys e
              && negb (has_session (m_session_id row) (sessions_rows b))); simpl;
      (split; [reflexivity|]); [exists []; by rewrite app_nil_r | eauto].
  - intros sid updated s. apply (db_undisturbed (upsert_message_update sid updated)).
    intros b. unfold upsert_message_update, set_tables. run_coro. simpl.
    split; [reflexivity|]. exists []. by rewrite app_nil_r.
  - intros json_dumps gone s.
    unfold event_stream, sse_iter, queue_get, Queue_get. run_coro. simpl.
    destruct (items (queue (self s))); simpl; [|destruct gone];
      unfold undisturbed; simpl; repeat split; exists []; by rewrite app_nil_r.
  - intros i s. unfold undisturbed. simpl. repeat split.
    exists []. by rewrite app_nil_r.
Qed.
